(** * Ingredient search service: the hybrid scorer of [api_server.py]

    A shallow embedding of [AI_Check_Ingredient/api_server.py] and the
    properties of its text normaliser, its cache start-up and its search
    pipeline.

    Conventions of the embedding.
    - A Python [str] is the list of its Unicode code points.
    - Scores are exact rationals ([Q]): the source computes them in binary
      floating point, whose rounding error, infinities and NaN are outside
      this model.  [round(x, n)] is rounding to [n] decimals, ties to even.
    - Third-party functions (the Unicode database, rapidfuzz, the sentence
      encoder, scikit-learn's cosine similarity, NumPy's argsort, faiss) are
      the fields of a record [libs]; the program is a function of it.
    - A Python exception is a value of [exn]; a call that may raise returns a
      [result]. *)

From Stdlib Require Import String Ascii ZArith QArith Qabs List Bool Lia Lqa.
From Stdlib Require Import Permutation Sorted.
Import ListNotations.

Local Open Scope Z_scope.

(** ** Strings *)

Definition str := list Z.

Definition lit (s : string) : str :=
  map (fun a => Z.of_N (N_of_ascii a)) (list_ascii_of_string s).

Fixpoint str_eqb (a b : str) : bool :=
  match a, b with
  | [], [] => true
  | x :: a', y :: b' => (x =? y) && str_eqb a' b'
  | _, _ => false
  end.

(** [s.startswith(p)] *)
Fixpoint startswith (s p : str) : bool :=
  match p, s with
  | [], _ => true
  | y :: p', x :: s' => (x =? y) && startswith s' p'
  | _ :: _, [] => false
  end.

(** A value handed to a function that tests [isinstance(s, str)]. *)
Inductive object : Type :=
| Str (s : str)
| NotStr.

(** ** The Unicode functions of the runtime

    [casefold] is [str.casefold], [nfkc] is
    [unicodedata.normalize("NFKC", _)]. *)

Record unicode : Type := {
  casefold : str -> str;
  nfkc : str -> str
}.

(** ** The text normaliser *)

Definition HYPHEN : Z := 0x2D.
Definition SPACE : Z := 0x20.

(** The class [[\u2212\u2010-\u2015]]: minus sign, hyphen to horizontal bar. *)
Definition is_dash (c : Z) : bool :=
  (c =? 0x2212) || ((0x2010 <=? c) && (c <=? 0x2015)).

(** The class [[a-z0-9 \-\u00C0-\u017F]], whose complement the second
    substitution replaces. *)
Definition is_kept (c : Z) : bool :=
  ((0x61 <=? c) && (c <=? 0x7A)) ||
  ((0x30 <=? c) && (c <=? 0x39)) ||
  (c =? SPACE) || (c =? HYPHEN) ||
  ((0xC0 <=? c) && (c <=? 0x17F)).

(** The class [\s] of a [str] pattern, which is also what [str.strip()]
    removes. *)
Definition is_space (c : Z) : bool :=
  ((0x09 <=? c) && (c <=? 0x0D)) ||
  ((0x1C <=? c) && (c <=? 0x20)) ||
  (c =? 0x85) || (c =? 0xA0) || (c =? 0x1680) ||
  ((0x2000 <=? c) && (c <=? 0x200A)) ||
  (c =? 0x2028) || (c =? 0x2029) || (c =? 0x202F) ||
  (c =? 0x205F) || (c =? 0x3000).

(** [re.sub(r"[\u2212\u2010-\u2015]", "-", s)] *)
Definition sub_dashes (s : str) : str :=
  map (fun c => if is_dash c then HYPHEN else c) s.

(** [re.sub(r"[^a-z0-9 \-\u00C0-\u017F]", " ", s)] *)
Definition sub_other (s : str) : str :=
  map (fun c => if is_kept c then c else SPACE) s.

(** [re.sub(r"\s+", " ", s)]: every maximal run of white space becomes one
    space.  [in_run] tells that the previous character was white space. *)
Fixpoint sub_spaces_from (in_run : bool) (s : str) : str :=
  match s with
  | [] => []
  | c :: s' =>
      if is_space c
      then (if in_run then sub_spaces_from true s'
            else SPACE :: sub_spaces_from true s')
      else c :: sub_spaces_from false s'
  end.

Definition sub_spaces (s : str) : str := sub_spaces_from false s.

Fixpoint lstrip (s : str) : str :=
  match s with
  | [] => []
  | c :: s' => if is_space c then lstrip s' else s
  end.

Fixpoint rstrip (s : str) : str :=
  match s with
  | [] => []
  | c :: s' =>
      match rstrip s' with
      | [] => if is_space c then [] else [c]
      | t => c :: t
      end
  end.

(** [s.strip()] *)
Definition strip (s : str) : str := rstrip (lstrip s).

(** The three substitutions and the trim, after the Unicode step. *)
Definition clean (s : str) : str :=
  strip (sub_spaces (sub_other (sub_dashes s))).

Definition normalize_query_lex (U : unicode) (s : object) : str :=
  match s with
  | NotStr => []
  | Str s => clean (nfkc U (casefold U s))
  end.

(** ** Numbers *)

Definition Qlt_bool (x y : Q) : bool := negb (Qle_bool y x).

Definition Qmax (x y : Q) : Q := if Qlt_bool x y then y else x.

(** The integer nearest to [x], a tie going to the even one. *)
Definition round_half_even (x : Q) : Z :=
  let a := Qnum x in
  let b := Z.pos (Qden x) in
  let f := a / b in
  match 2 * (a mod b) ?= b with
  | Lt => f
  | Gt => f + 1
  | Eq => if Z.even f then f else f + 1
  end.

(** [round(x, ndigits)] *)
Definition round (x : Q) (ndigits : nat) : Q :=
  let p := 10 ^ Z.of_nat ndigits in
  round_half_even (x * inject_Z p) # Z.to_pos p.

(** ** Exceptions *)

Inductive exn : Type :=
| RuntimeError
| ValueError
| AssertionError
| IndexError
| FileNotFoundError
| ParserError.

Inductive result (A : Type) : Type :=
| Ok (a : A)
| Raise (e : exn).

Arguments Ok {A} a.
Arguments Raise {A} e.

Definition bind {A B : Type} (m : result A) (k : A -> result B) : result B :=
  match m with
  | Ok a => k a
  | Raise e => Raise e
  end.

Declare Scope result_scope.
Delimit Scope result_scope with result.
Notation "x <- m ;; k" := (bind m (fun x => k))
  (at level 100, m at next level, right associativity) : result_scope.
Notation "' p <- m ;; k" := (bind m (fun p => k))
  (at level 100, p pattern, m at next level, right associativity) : result_scope.

(** A loop whose body may raise: the first exception ends it. *)
Fixpoint for_each {A B : Type} (f : A -> result B) (l : list A) : result (list B) :=
  match l with
  | [] => Ok []
  | a :: l' =>
      match f a with
      | Raise e => Raise e
      | Ok b =>
          match for_each f l' with
          | Raise e => Raise e
          | Ok bs => Ok (b :: bs)
          end
      end
  end.

(** ** Third-party functions *)

Definition vec := list Q.

Record libs : Type := {
  (** the Unicode database of the runtime *)
  ucd : unicode;
  (** [rapidfuzz.fuzz.token_set_ratio] *)
  token_set_ratio : str -> str -> Q;
  (** [SentenceTransformer.encode] of one text, [normalize_embeddings=True] *)
  encode : str -> vec;
  (** the cosine of the angle of two vectors *)
  cosine : vec -> vec -> Q;
  (** [numpy.argsort] *)
  argsort : list Q -> list nat;
  (** [None] when [import faiss] fails; otherwise the search of a flat
      inner-product index: the stored vectors, the query, [k] *)
  faiss : option (list vec -> vec -> nat -> list (Z * Q))
}.

Definition FAISS_AVAILABLE (L : libs) : bool :=
  match faiss L with Some _ => true | None => false end.

(** ** Configuration *)

Definition MODEL_NAME : str :=
  lit "sentence-transformers/distiluse-base-multilingual-cased-v2".
Definition TOP_K_DEFAULT : Z := 10.
Definition RECALL_K : nat := 200.
Definition ALPHA_SEM : Q := 75 # 100.
Definition MIN_CONFIDENCE : Q := 50 # 100.

Definition SECTION_BOOST : list (str * Q) :=
  [ (lit "CANON_LAT", 105 # 100);
    (lit "CANON_EN", 100 # 100);
    (lit "SYN_LAT", 95 # 100) ].

(** ** Data *)

(** A cell of a data frame: [None] is a missing value, which [str] renders
    as ["nan"]. *)
Definition cell := option str.

Definition py_str (c : cell) : str :=
  match c with
  | Some s => s
  | None => lit "nan"
  end.

Definition cell_eqb (a b : cell) : bool :=
  match a, b with
  | Some x, Some y => str_eqb x y
  | None, None => true
  | _, _ => false
  end.

(** A row of [novel_foods_multivectors.csv]. *)
Record mv_row : Type := {
  mv_policy_item_id : cell;
  mv_text : cell;
  mv_section : cell;
  mv_language : cell
}.

(** A row of [novel_foods_cards.csv], its two columns that are read. *)
Record card_row : Type := {
  card_policy_item_id : cell;
  card_canonical : cell
}.

(** A row of the lookup table. *)
Record row : Type := {
  row_policy_item_id : cell;
  row_text : cell;
  row_section : cell;
  row_language : cell;
  row_canonical : cell
}.

(** A search hit, the dictionary [search_ai] appends to [hits]. *)
Record hit : Type := {
  policy_item_id : str;
  canonical : str;
  matched_text : str;
  section : str;
  language : str;
  semantic_score : Q;
  lexical_score : Q;
  confidence : Q
}.

(** The module's global variables. *)
Record globals : Type := {
  model : option unit;
  embeddings : option (list vec);
  faiss_index : option (list vec);
  lookup_df : option (list row)
}.

(** ** Section boost *)

Fixpoint lookup_boost (table : list (str * Q)) (key : str) : option Q :=
  match table with
  | [] => None
  | (k, v) :: table' => if str_eqb key k then Some v else lookup_boost table' key
  end.

Definition section_boost (section : str) : Q :=
  match lookup_boost SECTION_BOOST section with
  | Some b => b
  | None => if startswith section (lit "COMMON_") then 100 # 100 else 100 # 100
  end.

(** ** Search *)

Section Search.

Variable L : libs.

Local Open Scope result_scope.

(** [sklearn.metrics.pairwise.cosine_similarity(q_emb, embeddings)[0]].
    Its input validation refuses an array without rows with [ValueError]. *)
Definition cosine_similarity (q_emb : vec) (embs : list vec) : result (list Q) :=
  match embs with
  | [] => Raise ValueError
  | _ :: _ => Ok (map (cosine L q_emb) embs)
  end.

(** [faiss_index.search(q, k)]: the wrapper asserts [k > 0]. *)
Definition index_search (search : list vec -> vec -> nat -> list (Z * Q))
    (index : list vec) (q_emb : vec) (k : nat) : result (list (Z * Q)) :=
  match k with
  | O => Raise AssertionError
  | S _ => Ok (search index q_emb k)
  end.

(** [sims[idx]] *)
Definition take (sims : list Q) (idx : list nat) : result (list Q) :=
  for_each (fun i => match nth_error sims i with
                     | Some s => Ok s
                     | None => Raise IndexError
                     end) idx.

(** The branch without an index: [np.argsort(sims)[::-1][:k]] and the
    similarities at these positions. *)
Definition recall_by_cosine (q_emb : vec) (embs : list vec) (k : nat)
    : result (list (Z * Q)) :=
  sims <- cosine_similarity q_emb embs ;;
  let idx := firstn k (rev (argsort L sims)) in
  scores <- take sims idx ;;
  Ok (combine (map Z.of_nat idx) scores).

(** Candidates: positions in the lookup table with their semantic score. *)
Definition recall (g_index : option (list vec)) (q_emb : vec)
    (embs : list vec) (df : list row) : result (list (Z * Q)) :=
  let k := Nat.min RECALL_K (length df) in
  match faiss L, g_index with
  | Some search, Some index => index_search search index q_emb k
  | _, _ => recall_by_cosine q_emb embs k
  end.

(** [lookup_df.iloc[i]]: a negative position counts from the end. *)
Definition iloc (df : list row) (i : Z) : result row :=
  let n := Z.of_nat (length df) in
  let j := if i <? 0 then i + n else i in
  if (0 <=? j) && (j <? n)
  then match nth_error df (Z.to_nat j) with
       | Some r => Ok r
       | None => Raise IndexError
       end
  else Raise IndexError.

Definition is_empty (s : str) : bool :=
  match s with [] => true | _ :: _ => false end.

(** The lexical score of a row for the normalised query. *)
Definition lexical (q_norm text canon : str) : Q :=
  let lex1 :=
    (token_set_ratio L q_norm (normalize_query_lex (ucd L) (Str text)) / 100)%Q in
  let lex2 :=
    if is_empty canon then 0%Q
    else (token_set_ratio L q_norm (normalize_query_lex (ucd L) (Str canon)) / 100)%Q in
  Qmax lex1 lex2.

Definition final_score (sem_score : Q) (section : str) (lex : Q) : Q :=
  let boosted_sem := (sem_score * section_boost section)%Q in
  (ALPHA_SEM * boosted_sem + (1 - ALPHA_SEM) * lex)%Q.

(** The body of the loop over the candidates. *)
Definition make_hit (q_norm : str) (r : row) (sem_score : Q) : hit :=
  let text := py_str (row_text r) in
  let canon := py_str (row_canonical r) in
  let section := py_str (row_section r) in
  let lang := py_str (row_language r) in
  let lex := lexical q_norm text canon in
  {| policy_item_id := py_str (row_policy_item_id r);
     canonical := canon;
     matched_text := text;
     section := section;
     language := lang;
     semantic_score := round sem_score 3;
     lexical_score := round lex 3;
     confidence := round (final_score sem_score section lex * 100)%Q 1 |}.

Definition score_candidates (q_norm : str) (df : list row)
    (cands : list (Z * Q)) : result (list hit) :=
  for_each (fun c => r <- iloc df (fst c) ;; Ok (make_hit q_norm r (snd c))) cands.

(** [best_by_entity]: a dictionary keeps its keys in insertion order, and
    an assignment to a present key keeps the key's place. *)
Definition dict := list (str * hit).

Fixpoint dict_get (d : dict) (k : str) : option hit :=
  match d with
  | [] => None
  | (k', v) :: d' => if str_eqb k k' then Some v else dict_get d' k
  end.

Fixpoint dict_set (d : dict) (k : str) (v : hit) : dict :=
  match d with
  | [] => [(k, v)]
  | (k', v') :: d' =>
      if str_eqb k k' then (k', v) :: d' else (k', v') :: dict_set d' k v
  end.

Definition values (d : dict) : list hit := map snd d.

(** One turn of the aggregation loop. *)
Definition keep_best (best_by_entity : dict) (h : hit) : dict :=
  let pid := policy_item_id h in
  let conf_threshold := (MIN_CONFIDENCE * 100)%Q in
  let better :=
    match dict_get best_by_entity pid with
    | None => true
    | Some b => Qlt_bool (confidence b) (confidence h)
    end in
  if better
  then (if Qle_bool conf_threshold (confidence h)
        then dict_set best_by_entity pid h
        else best_by_entity)
  else best_by_entity.

Definition aggregate (hits : list hit) : dict :=
  fold_left keep_best hits [].

(** [sorted(_, key=confidence, reverse=True)]: descending and stable. *)
Fixpoint insert_by_confidence (h : hit) (l : list hit) : list hit :=
  match l with
  | [] => [h]
  | x :: l' =>
      if Qlt_bool (confidence h) (confidence x)
      then x :: insert_by_confidence h l'
      else h :: l
  end.

Definition sorted_by_confidence (l : list hit) : list hit :=
  fold_right insert_by_confidence [] l.

(** [l[:k]] *)
Definition slice_to {A : Type} (l : list A) (k : Z) : list A :=
  if 0 <=? k then firstn (Z.to_nat k) l
  else firstn (Z.to_nat (Z.of_nat (length l) + k)) l.

Definition rank (hits : list hit) (top_k : Z) : list hit :=
  slice_to (sorted_by_confidence (values (aggregate hits))) top_k.

(** The hits of the loop, before aggregation. *)
Definition candidate_hits (g : globals) (query : str) : result (list hit) :=
  match model g, embeddings g, lookup_df g with
  | Some _, Some embs, Some df =>
      let q_emb := encode L query in
      cands <- recall (faiss_index g) q_emb embs df ;;
      let q_norm := normalize_query_lex (ucd L) (Str query) in
      score_candidates q_norm df cands
  | _, _, _ => Raise RuntimeError
  end.

Definition search_ai (g : globals) (query : str) (top_k : Z) : result (list hit) :=
  hits <- candidate_hits g query ;;
  Ok (rank hits top_k).

End Search.

(** ** Start-up: the files, the messages, the program state *)

(** What a path holds: nothing, something that cannot be read or parsed, or
    a content. *)
Inductive file (A : Type) : Type :=
| Absent
| Unreadable
| Holds (a : A).

Arguments Absent {A}.
Arguments Unreadable {A}.
Arguments Holds {A} a.

Definition file_exists {A : Type} (f : file A) : bool :=
  match f with Absent => false | _ => true end.

(** The JSON object of [meta_multi.json]: [meta.get("model")] and
    [meta.get("row_count")]. *)
Record meta : Type := {
  meta_model : option str;
  meta_row_count : option Z
}.

Record files : Type := {
  MULTIV_PATH : file (list mv_row);
  CARDS_PATH : file (list card_row);
  EMB_MULTI : file (list vec);
  IDX_MULTI : file (list vec);
  LOOKUP_MULTI : file (list row);
  META_MULTI : file meta
}.

(** The lines [initialize_model] prints. *)
Inductive message : Type :=
| Msg_initializing
| Msg_loading_model
| Msg_loading_cached
| Msg_faiss_loaded
| Msg_faiss_not_available
| Msg_initialized (n : nat)
| Msg_cache_error
| Msg_building (n : nat)
| Msg_faiss_built
| Msg_faiss_not_installed.

Record world : Type := {
  vars : globals;
  disk : files;
  stdout : list message
}.

(** A statement: it changes the world and returns or raises.  What it did
    before raising stays done. *)
Definition prog (A : Type) : Type := world -> result A * world.

Definition ret {A : Type} (a : A) : prog A := fun w => (Ok a, w).

Definition raise {A : Type} (e : exn) : prog A := fun w => (Raise e, w).

Definition seq {A B : Type} (m : prog A) (k : A -> prog B) : prog B :=
  fun w =>
    match m w with
    | (Ok a, w') => k a w'
    | (Raise e, w') => (Raise e, w')
    end.

(** [try: m  except Exception: h] *)
Definition try_except {A : Type} (m : prog A) (h : exn -> prog A) : prog A :=
  fun w =>
    match m w with
    | (Ok a, w') => (Ok a, w')
    | (Raise e, w') => h e w'
    end.

Declare Scope prog_scope.
Delimit Scope prog_scope with prog.
Notation "x <- m ;; k" := (seq m (fun x => k))
  (at level 100, m at next level, right associativity) : prog_scope.
Notation "m ;; k" := (seq m (fun _ => k))
  (at level 100, right associativity) : prog_scope.

Definition print (m : message) : prog unit :=
  fun w => (Ok tt, {| vars := vars w; disk := disk w; stdout := stdout w ++ [m] |}).

Definition get_disk : prog files := fun w => (Ok (disk w), w).

Definition set_vars (f : globals -> globals) : prog unit :=
  fun w => (Ok tt, {| vars := f (vars w); disk := disk w; stdout := stdout w |}).

Definition set_disk (f : files -> files) : prog unit :=
  fun w => (Ok tt, {| vars := vars w; disk := f (disk w); stdout := stdout w |}).

(** Reading and parsing a path. *)
Definition read {A : Type} (path : files -> file A) : prog A :=
  fun w =>
    match path (disk w) with
    | Absent => (Raise FileNotFoundError, w)
    | Unreadable => (Raise ParserError, w)
    | Holds a => (Ok a, w)
    end.

Definition set_model (m : unit) (g : globals) : globals :=
  {| model := Some m; embeddings := embeddings g;
     faiss_index := faiss_index g; lookup_df := lookup_df g |}.

Definition set_embeddings (e : list vec) (g : globals) : globals :=
  {| model := model g; embeddings := Some e;
     faiss_index := faiss_index g; lookup_df := lookup_df g |}.

Definition set_faiss_index (i : list vec) (g : globals) : globals :=
  {| model := model g; embeddings := embeddings g;
     faiss_index := Some i; lookup_df := lookup_df g |}.

Definition set_lookup_df (d : list row) (g : globals) : globals :=
  {| model := model g; embeddings := embeddings g;
     faiss_index := faiss_index g; lookup_df := Some d |}.

Definition write_EMB_MULTI (e : list vec) (d : files) : files :=
  {| MULTIV_PATH := MULTIV_PATH d; CARDS_PATH := CARDS_PATH d;
     EMB_MULTI := Holds e; IDX_MULTI := IDX_MULTI d;
     LOOKUP_MULTI := LOOKUP_MULTI d; META_MULTI := META_MULTI d |}.

Definition write_IDX_MULTI (i : list vec) (d : files) : files :=
  {| MULTIV_PATH := MULTIV_PATH d; CARDS_PATH := CARDS_PATH d;
     EMB_MULTI := EMB_MULTI d; IDX_MULTI := Holds i;
     LOOKUP_MULTI := LOOKUP_MULTI d; META_MULTI := META_MULTI d |}.

Definition write_LOOKUP_MULTI (l : list row) (d : files) : files :=
  {| MULTIV_PATH := MULTIV_PATH d; CARDS_PATH := CARDS_PATH d;
     EMB_MULTI := EMB_MULTI d; IDX_MULTI := IDX_MULTI d;
     LOOKUP_MULTI := Holds l; META_MULTI := META_MULTI d |}.

Definition write_META_MULTI (m : meta) (d : files) : files :=
  {| MULTIV_PATH := MULTIV_PATH d; CARDS_PATH := CARDS_PATH d;
     EMB_MULTI := EMB_MULTI d; IDX_MULTI := IDX_MULTI d;
     LOOKUP_MULTI := LOOKUP_MULTI d; META_MULTI := Holds m |}.

(** ** Loading the catalog *)

Definition card_eqb (a b : card_row) : bool :=
  cell_eqb (card_policy_item_id a) (card_policy_item_id b) &&
  cell_eqb (card_canonical a) (card_canonical b).

(** [cards[["policy_item_id", "canonical"]].drop_duplicates()]: a row equal
    in both columns to an earlier one is dropped. *)
Fixpoint drop_duplicates_from (seen cards : list card_row) : list card_row :=
  match cards with
  | [] => []
  | c :: cards' =>
      if existsb (card_eqb c) seen then drop_duplicates_from seen cards'
      else c :: drop_duplicates_from (c :: seen) cards'
  end.

Definition drop_duplicates (cards : list card_row) : list card_row :=
  drop_duplicates_from [] cards.

Definition join (r : mv_row) (canon : cell) : row :=
  {| row_policy_item_id := mv_policy_item_id r;
     row_text := mv_text r;
     row_section := mv_section r;
     row_language := mv_language r;
     row_canonical := canon |}.

(** [mv.merge(can_map, on="policy_item_id", how="left")]: a row of [mv]
    gives one row for each row of [can_map] with its key, and one row
    without a canonical name when there is none. *)
Definition merge_left (mv : list mv_row) (can_map : list card_row) : list row :=
  flat_map
    (fun r =>
       match filter (fun c => cell_eqb (card_policy_item_id c) (mv_policy_item_id r))
                    can_map with
       | [] => [join r None]
       | matches => map (fun c => join r (card_canonical c)) matches
       end)
    mv.

Local Open Scope prog_scope.

Definition load_multivectors : prog (list mv_row * list row) :=
  mv <- read MULTIV_PATH ;;
  d <- get_disk ;;
  can_map <- (if file_exists (CARDS_PATH d)
              then (cards <- read CARDS_PATH ;; ret (drop_duplicates cards))
              else ret []) ;;
  ret (mv, merge_left mv can_map).

(** ** Initialisation *)

Section Startup.

Variable L : libs.

(** [embeddings.shape[1]]: the encoder returns a one-dimensional empty
    array for an empty batch, whose shape has no second entry. *)
Definition shape_1 (embs : list vec) : result nat :=
  match embs with
  | [] => Raise IndexError
  | v :: _ => Ok (length v)
  end.

Definition lift {A : Type} (r : result A) : prog A := fun w => (r, w).

Definition meta_matches (m : meta) (texts : list str) : bool :=
  match meta_row_count m, meta_model m with
  | Some n, Some name => (n =? Z.of_nat (length texts)) && str_eqb name MODEL_NAME
  | _, _ => false
  end.

(** The body of [try]: [true] when it ends in [return]. *)
Definition load_cache (texts : list str) : prog bool :=
  m <- read META_MULTI ;;
  if meta_matches m texts then
    print Msg_loading_cached ;;
    e <- read EMB_MULTI ;;
    set_vars (set_embeddings e) ;;
    l <- read LOOKUP_MULTI ;;
    set_vars (set_lookup_df l) ;;
    d <- get_disk ;;
    (if FAISS_AVAILABLE L && file_exists (IDX_MULTI d)
     then (i <- read IDX_MULTI ;;
           set_vars (set_faiss_index i) ;;
           print Msg_faiss_loaded)
     else print Msg_faiss_not_available) ;;
    print (Msg_initialized (length texts)) ;;
    ret true
  else ret false.

(** The statements after the [if use_cache] block. *)
Definition build (texts : list str) (lookup : list row) : prog unit :=
  print (Msg_building (length texts)) ;;
  let e := map (encode L) texts in
  set_vars (set_embeddings e) ;;
  set_disk (write_EMB_MULTI e) ;;
  set_disk (write_LOOKUP_MULTI lookup) ;;
  set_disk (write_META_MULTI
              {| meta_model := Some MODEL_NAME;
                 meta_row_count := Some (Z.of_nat (length texts)) |}) ;;
  (if FAISS_AVAILABLE L
   then (_ <- lift (shape_1 e) ;;
         set_vars (set_faiss_index e) ;;
         set_disk (write_IDX_MULTI e) ;;
         print Msg_faiss_built)
   else print Msg_faiss_not_installed) ;;
  set_vars (set_lookup_df lookup) ;;
  print (Msg_initialized (length texts)).

Definition initialize_model : prog unit :=
  print Msg_initializing ;;
  print Msg_loading_model ;;
  set_vars (set_model tt) ;;
  loaded <- load_multivectors ;;
  let texts := map (fun r => py_str (mv_text r)) (fst loaded) in
  d <- get_disk ;;
  let use_cache :=
    file_exists (EMB_MULTI d) && file_exists (LOOKUP_MULTI d) &&
    file_exists (META_MULTI d) in
  returned <- (if use_cache
               then try_except (load_cache texts)
                               (fun _ => print Msg_cache_error ;; ret false)
               else ret false) ;;
  if returned then ret tt else build texts (snd loaded).

End Startup.

(** ** Unicode data

    The tables of the Unicode Character Database (version 14.0) for the code
    points U+0000 to U+017F (Basic Latin, Latin-1 Supplement, Latin
    Extended-A), U+0300 to U+036F (combining diacritical marks), U+1D2C to
    U+1D6A (phonetic modifier letters), U+2010 to U+2015 and U+2212 (dashes
    and the minus sign), with what these fold, decompose and compose to.
    Both functions leave a code point outside the tables alone, so [latin]
    is the runtime's database on text of this repertoire only. *)

Module UnicodeData.

(** Full case folding: a code point and what it folds to. *)
Definition casefold_table : list (Z * list Z) :=
  [
    (0x0041, [0x0061]); (0x0042, [0x0062]); (0x0043, [0x0063]);
    (0x0044, [0x0064]); (0x0045, [0x0065]); (0x0046, [0x0066]);
    (0x0047, [0x0067]); (0x0048, [0x0068]); (0x0049, [0x0069]);
    (0x004A, [0x006A]); (0x004B, [0x006B]); (0x004C, [0x006C]);
    (0x004D, [0x006D]); (0x004E, [0x006E]); (0x004F, [0x006F]);
    (0x0050, [0x0070]); (0x0051, [0x0071]); (0x0052, [0x0072]);
    (0x0053, [0x0073]); (0x0054, [0x0074]); (0x0055, [0x0075]);
    (0x0056, [0x0076]); (0x0057, [0x0077]); (0x0058, [0x0078]);
    (0x0059, [0x0079]); (0x005A, [0x007A]); (0x00B5, [0x03BC]);
    (0x00C0, [0x00E0]); (0x00C1, [0x00E1]); (0x00C2, [0x00E2]);
    (0x00C3, [0x00E3]); (0x00C4, [0x00E4]); (0x00C5, [0x00E5]);
    (0x00C6, [0x00E6]); (0x00C7, [0x00E7]); (0x00C8, [0x00E8]);
    (0x00C9, [0x00E9]); (0x00CA, [0x00EA]); (0x00CB, [0x00EB]);
    (0x00CC, [0x00EC]); (0x00CD, [0x00ED]); (0x00CE, [0x00EE]);
    (0x00CF, [0x00EF]); (0x00D0, [0x00F0]); (0x00D1, [0x00F1]);
    (0x00D2, [0x00F2]); (0x00D3, [0x00F3]); (0x00D4, [0x00F4]);
    (0x00D5, [0x00F5]); (0x00D6, [0x00F6]); (0x00D8, [0x00F8]);
    (0x00D9, [0x00F9]); (0x00DA, [0x00FA]); (0x00DB, [0x00FB]);
    (0x00DC, [0x00FC]); (0x00DD, [0x00FD]); (0x00DE, [0x00FE]);
    (0x00DF, [0x0073; 0x0073]); (0x0100, [0x0101]); (0x0102, [0x0103]);
    (0x0104, [0x0105]); (0x0106, [0x0107]); (0x0108, [0x0109]);
    (0x010A, [0x010B]); (0x010C, [0x010D]); (0x010E, [0x010F]);
    (0x0110, [0x0111]); (0x0112, [0x0113]); (0x0114, [0x0115]);
    (0x0116, [0x0117]); (0x0118, [0x0119]); (0x011A, [0x011B]);
    (0x011C, [0x011D]); (0x011E, [0x011F]); (0x0120, [0x0121]);
    (0x0122, [0x0123]); (0x0124, [0x0125]); (0x0126, [0x0127]);
    (0x0128, [0x0129]); (0x012A, [0x012B]); (0x012C, [0x012D]);
    (0x012E, [0x012F]); (0x0130, [0x0069; 0x0307]); (0x0132, [0x0133]);
    (0x0134, [0x0135]); (0x0136, [0x0137]); (0x0139, [0x013A]);
    (0x013B, [0x013C]); (0x013D, [0x013E]); (0x013F, [0x0140]);
    (0x0141, [0x0142]); (0x0143, [0x0144]); (0x0145, [0x0146]);
    (0x0147, [0x0148]); (0x0149, [0x02BC; 0x006E]); (0x014A, [0x014B]);
    (0x014C, [0x014D]); (0x014E, [0x014F]); (0x0150, [0x0151]);
    (0x0152, [0x0153]); (0x0154, [0x0155]); (0x0156, [0x0157]);
    (0x0158, [0x0159]); (0x015A, [0x015B]); (0x015C, [0x015D]);
    (0x015E, [0x015F]); (0x0160, [0x0161]); (0x0162, [0x0163]);
    (0x0164, [0x0165]); (0x0166, [0x0167]); (0x0168, [0x0169]);
    (0x016A, [0x016B]); (0x016C, [0x016D]); (0x016E, [0x016F]);
    (0x0170, [0x0171]); (0x0172, [0x0173]); (0x0174, [0x0175]);
    (0x0176, [0x0177]); (0x0178, [0x00FF]); (0x0179, [0x017A]);
    (0x017B, [0x017C]); (0x017D, [0x017E]); (0x017F, [0x0073]);
    (0x0345, [0x03B9])
  ].

(** Compatibility decomposition, applied until no mapping is left. *)
Definition decomposition_table : list (Z * list Z) :=
  [
    (0x00A0, [0x0020]); (0x00A8, [0x0020; 0x0308]); (0x00AA, [0x0061]);
    (0x00AF, [0x0020; 0x0304]); (0x00B2, [0x0032]); (0x00B3, [0x0033]);
    (0x00B4, [0x0020; 0x0301]); (0x00B5, [0x03BC]);
    (0x00B8, [0x0020; 0x0327]); (0x00B9, [0x0031]); (0x00BA, [0x006F]);
    (0x00BC, [0x0031; 0x2044; 0x0034]); (0x00BD, [0x0031; 0x2044; 0x0032]);
    (0x00BE, [0x0033; 0x2044; 0x0034]); (0x00C0, [0x0041; 0x0300]);
    (0x00C1, [0x0041; 0x0301]); (0x00C2, [0x0041; 0x0302]);
    (0x00C3, [0x0041; 0x0303]); (0x00C4, [0x0041; 0x0308]);
    (0x00C5, [0x0041; 0x030A]); (0x00C7, [0x0043; 0x0327]);
    (0x00C8, [0x0045; 0x0300]); (0x00C9, [0x0045; 0x0301]);
    (0x00CA, [0x0045; 0x0302]); (0x00CB, [0x0045; 0x0308]);
    (0x00CC, [0x0049; 0x0300]); (0x00CD, [0x0049; 0x0301]);
    (0x00CE, [0x0049; 0x0302]); (0x00CF, [0x0049; 0x0308]);
    (0x00D1, [0x004E; 0x0303]); (0x00D2, [0x004F; 0x0300]);
    (0x00D3, [0x004F; 0x0301]); (0x00D4, [0x004F; 0x0302]);
    (0x00D5, [0x004F; 0x0303]); (0x00D6, [0x004F; 0x0308]);
    (0x00D9, [0x0055; 0x0300]); (0x00DA, [0x0055; 0x0301]);
    (0x00DB, [0x0055; 0x0302]); (0x00DC, [0x0055; 0x0308]);
    (0x00DD, [0x0059; 0x0301]); (0x00E0, [0x0061; 0x0300]);
    (0x00E1, [0x0061; 0x0301]); (0x00E2, [0x0061; 0x0302]);
    (0x00E3, [0x0061; 0x0303]); (0x00E4, [0x0061; 0x0308]);
    (0x00E5, [0x0061; 0x030A]); (0x00E7, [0x0063; 0x0327]);
    (0x00E8, [0x0065; 0x0300]); (0x00E9, [0x0065; 0x0301]);
    (0x00EA, [0x0065; 0x0302]); (0x00EB, [0x0065; 0x0308]);
    (0x00EC, [0x0069; 0x0300]); (0x00ED, [0x0069; 0x0301]);
    (0x00EE, [0x0069; 0x0302]); (0x00EF, [0x0069; 0x0308]);
    (0x00F1, [0x006E; 0x0303]); (0x00F2, [0x006F; 0x0300]);
    (0x00F3, [0x006F; 0x0301]); (0x00F4, [0x006F; 0x0302]);
    (0x00F5, [0x006F; 0x0303]); (0x00F6, [0x006F; 0x0308]);
    (0x00F9, [0x0075; 0x0300]); (0x00FA, [0x0075; 0x0301]);
    (0x00FB, [0x0075; 0x0302]); (0x00FC, [0x0075; 0x0308]);
    (0x00FD, [0x0079; 0x0301]); (0x00FF, [0x0079; 0x0308]);
    (0x0100, [0x0041; 0x0304]); (0x0101, [0x0061; 0x0304]);
    (0x0102, [0x0041; 0x0306]); (0x0103, [0x0061; 0x0306]);
    (0x0104, [0x0041; 0x0328]); (0x0105, [0x0061; 0x0328]);
    (0x0106, [0x0043; 0x0301]); (0x0107, [0x0063; 0x0301]);
    (0x0108, [0x0043; 0x0302]); (0x0109, [0x0063; 0x0302]);
    (0x010A, [0x0043; 0x0307]); (0x010B, [0x0063; 0x0307]);
    (0x010C, [0x0043; 0x030C]); (0x010D, [0x0063; 0x030C]);
    (0x010E, [0x0044; 0x030C]); (0x010F, [0x0064; 0x030C]);
    (0x0112, [0x0045; 0x0304]); (0x0113, [0x0065; 0x0304]);
    (0x0114, [0x0045; 0x0306]); (0x0115, [0x0065; 0x0306]);
    (0x0116, [0x0045; 0x0307]); (0x0117, [0x0065; 0x0307]);
    (0x0118, [0x0045; 0x0328]); (0x0119, [0x0065; 0x0328]);
    (0x011A, [0x0045; 0x030C]); (0x011B, [0x0065; 0x030C]);
    (0x011C, [0x0047; 0x0302]); (0x011D, [0x0067; 0x0302]);
    (0x011E, [0x0047; 0x0306]); (0x011F, [0x0067; 0x0306]);
    (0x0120, [0x0047; 0x0307]); (0x0121, [0x0067; 0x0307]);
    (0x0122, [0x0047; 0x0327]); (0x0123, [0x0067; 0x0327]);
    (0x0124, [0x0048; 0x0302]); (0x0125, [0x0068; 0x0302]);
    (0x0128, [0x0049; 0x0303]); (0x0129, [0x0069; 0x0303]);
    (0x012A, [0x0049; 0x0304]); (0x012B, [0x0069; 0x0304]);
    (0x012C, [0x0049; 0x0306]); (0x012D, [0x0069; 0x0306]);
    (0x012E, [0x0049; 0x0328]); (0x012F, [0x0069; 0x0328]);
    (0x0130, [0x0049; 0x0307]); (0x0132, [0x0049; 0x004A]);
    (0x0133, [0x0069; 0x006A]); (0x0134, [0x004A; 0x0302]);
    (0x0135, [0x006A; 0x0302]); (0x0136, [0x004B; 0x0327]);
    (0x0137, [0x006B; 0x0327]); (0x0139, [0x004C; 0x0301]);
    (0x013A, [0x006C; 0x0301]); (0x013B, [0x004C; 0x0327]);
    (0x013C, [0x006C; 0x0327]); (0x013D, [0x004C; 0x030C]);
    (0x013E, [0x006C; 0x030C]); (0x013F, [0x004C; 0x00B7]);
    (0x0140, [0x006C; 0x00B7]); (0x0143, [0x004E; 0x0301]);
    (0x0144, [0x006E; 0x0301]); (0x0145, [0x004E; 0x0327]);
    (0x0146, [0x006E; 0x0327]); (0x0147, [0x004E; 0x030C]);
    (0x0148, [0x006E; 0x030C]); (0x0149, [0x02BC; 0x006E]);
    (0x014C, [0x004F; 0x0304]); (0x014D, [0x006F; 0x0304]);
    (0x014E, [0x004F; 0x0306]); (0x014F, [0x006F; 0x0306]);
    (0x0150, [0x004F; 0x030B]); (0x0151, [0x006F; 0x030B]);
    (0x0154, [0x0052; 0x0301]); (0x0155, [0x0072; 0x0301]);
    (0x0156, [0x0052; 0x0327]); (0x0157, [0x0072; 0x0327]);
    (0x0158, [0x0052; 0x030C]); (0x0159, [0x0072; 0x030C]);
    (0x015A, [0x0053; 0x0301]); (0x015B, [0x0073; 0x0301]);
    (0x015C, [0x0053; 0x0302]); (0x015D, [0x0073; 0x0302]);
    (0x015E, [0x0053; 0x0327]); (0x015F, [0x0073; 0x0327]);
    (0x0160, [0x0053; 0x030C]); (0x0161, [0x0073; 0x030C]);
    (0x0162, [0x0054; 0x0327]); (0x0163, [0x0074; 0x0327]);
    (0x0164, [0x0054; 0x030C]); (0x0165, [0x0074; 0x030C]);
    (0x0168, [0x0055; 0x0303]); (0x0169, [0x0075; 0x0303]);
    (0x016A, [0x0055; 0x0304]); (0x016B, [0x0075; 0x0304]);
    (0x016C, [0x0055; 0x0306]); (0x016D, [0x0075; 0x0306]);
    (0x016E, [0x0055; 0x030A]); (0x016F, [0x0075; 0x030A]);
    (0x0170, [0x0055; 0x030B]); (0x0171, [0x0075; 0x030B]);
    (0x0172, [0x0055; 0x0328]); (0x0173, [0x0075; 0x0328]);
    (0x0174, [0x0057; 0x0302]); (0x0175, [0x0077; 0x0302]);
    (0x0176, [0x0059; 0x0302]); (0x0177, [0x0079; 0x0302]);
    (0x0178, [0x0059; 0x0308]); (0x0179, [0x005A; 0x0301]);
    (0x017A, [0x007A; 0x0301]); (0x017B, [0x005A; 0x0307]);
    (0x017C, [0x007A; 0x0307]); (0x017D, [0x005A; 0x030C]);
    (0x017E, [0x007A; 0x030C]); (0x017F, [0x0073]); (0x0340, [0x0300]);
    (0x0341, [0x0301]); (0x0343, [0x0313]); (0x0344, [0x0308; 0x0301]);
    (0x1D2C, [0x0041]); (0x1D2D, [0x00C6]); (0x1D2E, [0x0042]);
    (0x1D30, [0x0044]); (0x1D31, [0x0045]); (0x1D32, [0x018E]);
    (0x1D33, [0x0047]); (0x1D34, [0x0048]); (0x1D35, [0x0049]);
    (0x1D36, [0x004A]); (0x1D37, [0x004B]); (0x1D38, [0x004C]);
    (0x1D39, [0x004D]); (0x1D3A, [0x004E]); (0x1D3C, [0x004F]);
    (0x1D3D, [0x0222]); (0x1D3E, [0x0050]); (0x1D3F, [0x0052]);
    (0x1D40, [0x0054]); (0x1D41, [0x0055]); (0x1D42, [0x0057]);
    (0x1D43, [0x0061]); (0x1D44, [0x0250]); (0x1D45, [0x0251]);
    (0x1D46, [0x1D02]); (0x1D47, [0x0062]); (0x1D48, [0x0064]);
    (0x1D49, [0x0065]); (0x1D4A, [0x0259]); (0x1D4B, [0x025B]);
    (0x1D4C, [0x025C]); (0x1D4D, [0x0067]); (0x1D4F, [0x006B]);
    (0x1D50, [0x006D]); (0x1D51, [0x014B]); (0x1D52, [0x006F]);
    (0x1D53, [0x0254]); (0x1D54, [0x1D16]); (0x1D55, [0x1D17]);
    (0x1D56, [0x0070]); (0x1D57, [0x0074]); (0x1D58, [0x0075]);
    (0x1D59, [0x1D1D]); (0x1D5A, [0x026F]); (0x1D5B, [0x0076]);
    (0x1D5C, [0x1D25]); (0x1D5D, [0x03B2]); (0x1D5E, [0x03B3]);
    (0x1D5F, [0x03B4]); (0x1D60, [0x03C6]); (0x1D61, [0x03C7]);
    (0x1D62, [0x0069]); (0x1D63, [0x0072]); (0x1D64, [0x0075]);
    (0x1D65, [0x0076]); (0x1D66, [0x03B2]); (0x1D67, [0x03B3]);
    (0x1D68, [0x03C1]); (0x1D69, [0x03C6]); (0x1D6A, [0x03C7]);
    (0x2011, [0x2010])
  ].

(** Canonical combining class, where it is not 0. *)
Definition combining_table : list (Z * Z) :=
  [
    (0x0300, 230); (0x0301, 230); (0x0302, 230); (0x0303, 230);
    (0x0304, 230); (0x0305, 230); (0x0306, 230); (0x0307, 230);
    (0x0308, 230); (0x0309, 230); (0x030A, 230); (0x030B, 230);
    (0x030C, 230); (0x030D, 230); (0x030E, 230); (0x030F, 230);
    (0x0310, 230); (0x0311, 230); (0x0312, 230); (0x0313, 230);
    (0x0314, 230); (0x0315, 232); (0x0316, 220); (0x0317, 220);
    (0x0318, 220); (0x0319, 220); (0x031A, 232); (0x031B, 216);
    (0x031C, 220); (0x031D, 220); (0x031E, 220); (0x031F, 220);
    (0x0320, 220); (0x0321, 202); (0x0322, 202); (0x0323, 220);
    (0x0324, 220); (0x0325, 220); (0x0326, 220); (0x0327, 202);
    (0x0328, 202); (0x0329, 220); (0x032A, 220); (0x032B, 220);
    (0x032C, 220); (0x032D, 220); (0x032E, 220); (0x032F, 220);
    (0x0330, 220); (0x0331, 220); (0x0332, 220); (0x0333, 220); (0x0334, 1);
    (0x0335, 1); (0x0336, 1); (0x0337, 1); (0x0338, 1); (0x0339, 220);
    (0x033A, 220); (0x033B, 220); (0x033C, 220); (0x033D, 230);
    (0x033E, 230); (0x033F, 230); (0x0340, 230); (0x0341, 230);
    (0x0342, 230); (0x0343, 230); (0x0344, 230); (0x0345, 240);
    (0x0346, 230); (0x0347, 220); (0x0348, 220); (0x0349, 220);
    (0x034A, 230); (0x034B, 230); (0x034C, 230); (0x034D, 220);
    (0x034E, 220); (0x0350, 230); (0x0351, 230); (0x0352, 230);
    (0x0353, 220); (0x0354, 220); (0x0355, 220); (0x0356, 220);
    (0x0357, 230); (0x0358, 232); (0x0359, 220); (0x035A, 220);
    (0x035B, 230); (0x035C, 233); (0x035D, 234); (0x035E, 234);
    (0x035F, 233); (0x0360, 234); (0x0361, 234); (0x0362, 233);
    (0x0363, 230); (0x0364, 230); (0x0365, 230); (0x0366, 230);
    (0x0367, 230); (0x0368, 230); (0x0369, 230); (0x036A, 230);
    (0x036B, 230); (0x036C, 230); (0x036D, 230); (0x036E, 230); (0x036F, 230)
  ].

(** Primary composites: first, second, composite. *)
Definition composition_table : list (Z * Z * Z) :=
  [
    (0x003C, 0x0338, 0x226E); (0x003D, 0x0338, 0x2260);
    (0x003E, 0x0338, 0x226F); (0x0041, 0x0300, 0x00C0);
    (0x0041, 0x0301, 0x00C1); (0x0041, 0x0302, 0x00C2);
    (0x0041, 0x0303, 0x00C3); (0x0041, 0x0304, 0x0100);
    (0x0041, 0x0306, 0x0102); (0x0041, 0x0307, 0x0226);
    (0x0041, 0x0308, 0x00C4); (0x0041, 0x0309, 0x1EA2);
    (0x0041, 0x030A, 0x00C5); (0x0041, 0x030C, 0x01CD);
    (0x0041, 0x030F, 0x0200); (0x0041, 0x0311, 0x0202);
    (0x0041, 0x0323, 0x1EA0); (0x0041, 0x0325, 0x1E00);
    (0x0041, 0x0328, 0x0104); (0x0042, 0x0307, 0x1E02);
    (0x0042, 0x0323, 0x1E04); (0x0042, 0x0331, 0x1E06);
    (0x0043, 0x0301, 0x0106); (0x0043, 0x0302, 0x0108);
    (0x0043, 0x0307, 0x010A); (0x0043, 0x030C, 0x010C);
    (0x0043, 0x0327, 0x00C7); (0x0044, 0x0307, 0x1E0A);
    (0x0044, 0x030C, 0x010E); (0x0044, 0x0323, 0x1E0C);
    (0x0044, 0x0327, 0x1E10); (0x0044, 0x032D, 0x1E12);
    (0x0044, 0x0331, 0x1E0E); (0x0045, 0x0300, 0x00C8);
    (0x0045, 0x0301, 0x00C9); (0x0045, 0x0302, 0x00CA);
    (0x0045, 0x0303, 0x1EBC); (0x0045, 0x0304, 0x0112);
    (0x0045, 0x0306, 0x0114); (0x0045, 0x0307, 0x0116);
    (0x0045, 0x0308, 0x00CB); (0x0045, 0x0309, 0x1EBA);
    (0x0045, 0x030C, 0x011A); (0x0045, 0x030F, 0x0204);
    (0x0045, 0x0311, 0x0206); (0x0045, 0x0323, 0x1EB8);
    (0x0045, 0x0327, 0x0228); (0x0045, 0x0328, 0x0118);
    (0x0045, 0x032D, 0x1E18); (0x0045, 0x0330, 0x1E1A);
    (0x0046, 0x0307, 0x1E1E); (0x0047, 0x0301, 0x01F4);
    (0x0047, 0x0302, 0x011C); (0x0047, 0x0304, 0x1E20);
    (0x0047, 0x0306, 0x011E); (0x0047, 0x0307, 0x0120);
    (0x0047, 0x030C, 0x01E6); (0x0047, 0x0327, 0x0122);
    (0x0048, 0x0302, 0x0124); (0x0048, 0x0307, 0x1E22);
    (0x0048, 0x0308, 0x1E26); (0x0048, 0x030C, 0x021E);
    (0x0048, 0x0323, 0x1E24); (0x0048, 0x0327, 0x1E28);
    (0x0048, 0x032E, 0x1E2A); (0x0049, 0x0300, 0x00CC);
    (0x0049, 0x0301, 0x00CD); (0x0049, 0x0302, 0x00CE);
    (0x0049, 0x0303, 0x0128); (0x0049, 0x0304, 0x012A);
    (0x0049, 0x0306, 0x012C); (0x0049, 0x0307, 0x0130);
    (0x0049, 0x0308, 0x00CF); (0x0049, 0x0309, 0x1EC8);
    (0x0049, 0x030C, 0x01CF); (0x0049, 0x030F, 0x0208);
    (0x0049, 0x0311, 0x020A); (0x0049, 0x0323, 0x1ECA);
    (0x0049, 0x0328, 0x012E); (0x0049, 0x0330, 0x1E2C);
    (0x004A, 0x0302, 0x0134); (0x004B, 0x0301, 0x1E30);
    (0x004B, 0x030C, 0x01E8); (0x004B, 0x0323, 0x1E32);
    (0x004B, 0x0327, 0x0136); (0x004B, 0x0331, 0x1E34);
    (0x004C, 0x0301, 0x0139); (0x004C, 0x030C, 0x013D);
    (0x004C, 0x0323, 0x1E36); (0x004C, 0x0327, 0x013B);
    (0x004C, 0x032D, 0x1E3C); (0x004C, 0x0331, 0x1E3A);
    (0x004D, 0x0301, 0x1E3E); (0x004D, 0x0307, 0x1E40);
    (0x004D, 0x0323, 0x1E42); (0x004E, 0x0300, 0x01F8);
    (0x004E, 0x0301, 0x0143); (0x004E, 0x0303, 0x00D1);
    (0x004E, 0x0307, 0x1E44); (0x004E, 0x030C, 0x0147);
    (0x004E, 0x0323, 0x1E46); (0x004E, 0x0327, 0x0145);
    (0x004E, 0x032D, 0x1E4A); (0x004E, 0x0331, 0x1E48);
    (0x004F, 0x0300, 0x00D2); (0x004F, 0x0301, 0x00D3);
    (0x004F, 0x0302, 0x00D4); (0x004F, 0x0303, 0x00D5);
    (0x004F, 0x0304, 0x014C); (0x004F, 0x0306, 0x014E);
    (0x004F, 0x0307, 0x022E); (0x004F, 0x0308, 0x00D6);
    (0x004F, 0x0309, 0x1ECE); (0x004F, 0x030B, 0x0150);
    (0x004F, 0x030C, 0x01D1); (0x004F, 0x030F, 0x020C);
    (0x004F, 0x0311, 0x020E); (0x004F, 0x031B, 0x01A0);
    (0x004F, 0x0323, 0x1ECC); (0x004F, 0x0328, 0x01EA);
    (0x0050, 0x0301, 0x1E54); (0x0050, 0x0307, 0x1E56);
    (0x0052, 0x0301, 0x0154); (0x0052, 0x0307, 0x1E58);
    (0x0052, 0x030C, 0x0158); (0x0052, 0x030F, 0x0210);
    (0x0052, 0x0311, 0x0212); (0x0052, 0x0323, 0x1E5A);
    (0x0052, 0x0327, 0x0156); (0x0052, 0x0331, 0x1E5E);
    (0x0053, 0x0301, 0x015A); (0x0053, 0x0302, 0x015C);
    (0x0053, 0x0307, 0x1E60); (0x0053, 0x030C, 0x0160);
    (0x0053, 0x0323, 0x1E62); (0x0053, 0x0326, 0x0218);
    (0x0053, 0x0327, 0x015E); (0x0054, 0x0307, 0x1E6A);
    (0x0054, 0x030C, 0x0164); (0x0054, 0x0323, 0x1E6C);
    (0x0054, 0x0326, 0x021A); (0x0054, 0x0327, 0x0162);
    (0x0054, 0x032D, 0x1E70); (0x0054, 0x0331, 0x1E6E);
    (0x0055, 0x0300, 0x00D9); (0x0055, 0x0301, 0x00DA);
    (0x0055, 0x0302, 0x00DB); (0x0055, 0x0303, 0x0168);
    (0x0055, 0x0304, 0x016A); (0x0055, 0x0306, 0x016C);
    (0x0055, 0x0308, 0x00DC); (0x0055, 0x0309, 0x1EE6);
    (0x0055, 0x030A, 0x016E); (0x0055, 0x030B, 0x0170);
    (0x0055, 0x030C, 0x01D3); (0x0055, 0x030F, 0x0214);
    (0x0055, 0x0311, 0x0216); (0x0055, 0x031B, 0x01AF);
    (0x0055, 0x0323, 0x1EE4); (0x0055, 0x0324, 0x1E72);
    (0x0055, 0x0328, 0x0172); (0x0055, 0x032D, 0x1E76);
    (0x0055, 0x0330, 0x1E74); (0x0056, 0x0303, 0x1E7C);
    (0x0056, 0x0323, 0x1E7E); (0x0057, 0x0300, 0x1E80);
    (0x0057, 0x0301, 0x1E82); (0x0057, 0x0302, 0x0174);
    (0x0057, 0x0307, 0x1E86); (0x0057, 0x0308, 0x1E84);
    (0x0057, 0x0323, 0x1E88); (0x0058, 0x0307, 0x1E8A);
    (0x0058, 0x0308, 0x1E8C); (0x0059, 0x0300, 0x1EF2);
    (0x0059, 0x0301, 0x00DD); (0x0059, 0x0302, 0x0176);
    (0x0059, 0x0303, 0x1EF8); (0x0059, 0x0304, 0x0232);
    (0x0059, 0x0307, 0x1E8E); (0x0059, 0x0308, 0x0178);
    (0x0059, 0x0309, 0x1EF6); (0x0059, 0x0323, 0x1EF4);
    (0x005A, 0x0301, 0x0179); (0x005A, 0x0302, 0x1E90);
    (0x005A, 0x0307, 0x017B); (0x005A, 0x030C, 0x017D);
    (0x005A, 0x0323, 0x1E92); (0x005A, 0x0331, 0x1E94);
    (0x0061, 0x0300, 0x00E0); (0x0061, 0x0301, 0x00E1);
    (0x0061, 0x0302, 0x00E2); (0x0061, 0x0303, 0x00E3);
    (0x0061, 0x0304, 0x0101); (0x0061, 0x0306, 0x0103);
    (0x0061, 0x0307, 0x0227); (0x0061, 0x0308, 0x00E4);
    (0x0061, 0x0309, 0x1EA3); (0x0061, 0x030A, 0x00E5);
    (0x0061, 0x030C, 0x01CE); (0x0061, 0x030F, 0x0201);
    (0x0061, 0x0311, 0x0203); (0x0061, 0x0323, 0x1EA1);
    (0x0061, 0x0325, 0x1E01); (0x0061, 0x0328, 0x0105);
    (0x0062, 0x0307, 0x1E03); (0x0062, 0x0323, 0x1E05);
    (0x0062, 0x0331, 0x1E07); (0x0063, 0x0301, 0x0107);
    (0x0063, 0x0302, 0x0109); (0x0063, 0x0307, 0x010B);
    (0x0063, 0x030C, 0x010D); (0x0063, 0x0327, 0x00E7);
    (0x0064, 0x0307, 0x1E0B); (0x0064, 0x030C, 0x010F);
    (0x0064, 0x0323, 0x1E0D); (0x0064, 0x0327, 0x1E11);
    (0x0064, 0x032D, 0x1E13); (0x0064, 0x0331, 0x1E0F);
    (0x0065, 0x0300, 0x00E8); (0x0065, 0x0301, 0x00E9);
    (0x0065, 0x0302, 0x00EA); (0x0065, 0x0303, 0x1EBD);
    (0x0065, 0x0304, 0x0113); (0x0065, 0x0306, 0x0115);
    (0x0065, 0x0307, 0x0117); (0x0065, 0x0308, 0x00EB);
    (0x0065, 0x0309, 0x1EBB); (0x0065, 0x030C, 0x011B);
    (0x0065, 0x030F, 0x0205); (0x0065, 0x0311, 0x0207);
    (0x0065, 0x0323, 0x1EB9); (0x0065, 0x0327, 0x0229);
    (0x0065, 0x0328, 0x0119); (0x0065, 0x032D, 0x1E19);
    (0x0065, 0x0330, 0x1E1B); (0x0066, 0x0307, 0x1E1F);
    (0x0067, 0x0301, 0x01F5); (0x0067, 0x0302, 0x011D);
    (0x0067, 0x0304, 0x1E21); (0x0067, 0x0306, 0x011F);
    (0x0067, 0x0307, 0x0121); (0x0067, 0x030C, 0x01E7);
    (0x0067, 0x0327, 0x0123); (0x0068, 0x0302, 0x0125);
    (0x0068, 0x0307, 0x1E23); (0x0068, 0x0308, 0x1E27);
    (0x0068, 0x030C, 0x021F); (0x0068, 0x0323, 0x1E25);
    (0x0068, 0x0327, 0x1E29); (0x0068, 0x032E, 0x1E2B);
    (0x0068, 0x0331, 0x1E96); (0x0069, 0x0300, 0x00EC);
    (0x0069, 0x0301, 0x00ED); (0x0069, 0x0302, 0x00EE);
    (0x0069, 0x0303, 0x0129); (0x0069, 0x0304, 0x012B);
    (0x0069, 0x0306, 0x012D); (0x0069, 0x0308, 0x00EF);
    (0x0069, 0x0309, 0x1EC9); (0x0069, 0x030C, 0x01D0);
    (0x0069, 0x030F, 0x0209); (0x0069, 0x0311, 0x020B);
    (0x0069, 0x0323, 0x1ECB); (0x0069, 0x0328, 0x012F);
    (0x0069, 0x0330, 0x1E2D); (0x006A, 0x0302, 0x0135);
    (0x006A, 0x030C, 0x01F0); (0x006B, 0x0301, 0x1E31);
    (0x006B, 0x030C, 0x01E9); (0x006B, 0x0323, 0x1E33);
    (0x006B, 0x0327, 0x0137); (0x006B, 0x0331, 0x1E35);
    (0x006C, 0x0301, 0x013A); (0x006C, 0x030C, 0x013E);
    (0x006C, 0x0323, 0x1E37); (0x006C, 0x0327, 0x013C);
    (0x006C, 0x032D, 0x1E3D); (0x006C, 0x0331, 0x1E3B);
    (0x006D, 0x0301, 0x1E3F); (0x006D, 0x0307, 0x1E41);
    (0x006D, 0x0323, 0x1E43); (0x006E, 0x0300, 0x01F9);
    (0x006E, 0x0301, 0x0144); (0x006E, 0x0303, 0x00F1);
    (0x006E, 0x0307, 0x1E45); (0x006E, 0x030C, 0x0148);
    (0x006E, 0x0323, 0x1E47); (0x006E, 0x0327, 0x0146);
    (0x006E, 0x032D, 0x1E4B); (0x006E, 0x0331, 0x1E49);
    (0x006F, 0x0300, 0x00F2); (0x006F, 0x0301, 0x00F3);
    (0x006F, 0x0302, 0x00F4); (0x006F, 0x0303, 0x00F5);
    (0x006F, 0x0304, 0x014D); (0x006F, 0x0306, 0x014F);
    (0x006F, 0x0307, 0x022F); (0x006F, 0x0308, 0x00F6);
    (0x006F, 0x0309, 0x1ECF); (0x006F, 0x030B, 0x0151);
    (0x006F, 0x030C, 0x01D2); (0x006F, 0x030F, 0x020D);
    (0x006F, 0x0311, 0x020F); (0x006F, 0x031B, 0x01A1);
    (0x006F, 0x0323, 0x1ECD); (0x006F, 0x0328, 0x01EB);
    (0x0070, 0x0301, 0x1E55); (0x0070, 0x0307, 0x1E57);
    (0x0072, 0x0301, 0x0155); (0x0072, 0x0307, 0x1E59);
    (0x0072, 0x030C, 0x0159); (0x0072, 0x030F, 0x0211);
    (0x0072, 0x0311, 0x0213); (0x0072, 0x0323, 0x1E5B);
    (0x0072, 0x0327, 0x0157); (0x0072, 0x0331, 0x1E5F);
    (0x0073, 0x0301, 0x015B); (0x0073, 0x0302, 0x015D);
    (0x0073, 0x0307, 0x1E61); (0x0073, 0x030C, 0x0161);
    (0x0073, 0x0323, 0x1E63); (0x0073, 0x0326, 0x0219);
    (0x0073, 0x0327, 0x015F); (0x0074, 0x0307, 0x1E6B);
    (0x0074, 0x0308, 0x1E97); (0x0074, 0x030C, 0x0165);
    (0x0074, 0x0323, 0x1E6D); (0x0074, 0x0326, 0x021B);
    (0x0074, 0x0327, 0x0163); (0x0074, 0x032D, 0x1E71);
    (0x0074, 0x0331, 0x1E6F); (0x0075, 0x0300, 0x00F9);
    (0x0075, 0x0301, 0x00FA); (0x0075, 0x0302, 0x00FB);
    (0x0075, 0x0303, 0x0169); (0x0075, 0x0304, 0x016B);
    (0x0075, 0x0306, 0x016D); (0x0075, 0x0308, 0x00FC);
    (0x0075, 0x0309, 0x1EE7); (0x0075, 0x030A, 0x016F);
    (0x0075, 0x030B, 0x0171); (0x0075, 0x030C, 0x01D4);
    (0x0075, 0x030F, 0x0215); (0x0075, 0x0311, 0x0217);
    (0x0075, 0x031B, 0x01B0); (0x0075, 0x0323, 0x1EE5);
    (0x0075, 0x0324, 0x1E73); (0x0075, 0x0328, 0x0173);
    (0x0075, 0x032D, 0x1E77); (0x0075, 0x0330, 0x1E75);
    (0x0076, 0x0303, 0x1E7D); (0x0076, 0x0323, 0x1E7F);
    (0x0077, 0x0300, 0x1E81); (0x0077, 0x0301, 0x1E83);
    (0x0077, 0x0302, 0x0175); (0x0077, 0x0307, 0x1E87);
    (0x0077, 0x0308, 0x1E85); (0x0077, 0x030A, 0x1E98);
    (0x0077, 0x0323, 0x1E89); (0x0078, 0x0307, 0x1E8B);
    (0x0078, 0x0308, 0x1E8D); (0x0079, 0x0300, 0x1EF3);
    (0x0079, 0x0301, 0x00FD); (0x0079, 0x0302, 0x0177);
    (0x0079, 0x0303, 0x1EF9); (0x0079, 0x0304, 0x0233);
    (0x0079, 0x0307, 0x1E8F); (0x0079, 0x0308, 0x00FF);
    (0x0079, 0x0309, 0x1EF7); (0x0079, 0x030A, 0x1E99);
    (0x0079, 0x0323, 0x1EF5); (0x007A, 0x0301, 0x017A);
    (0x007A, 0x0302, 0x1E91); (0x007A, 0x0307, 0x017C);
    (0x007A, 0x030C, 0x017E); (0x007A, 0x0323, 0x1E93);
    (0x007A, 0x0331, 0x1E95); (0x00A8, 0x0300, 0x1FED);
    (0x00A8, 0x0301, 0x0385); (0x00A8, 0x0342, 0x1FC1);
    (0x00C2, 0x0300, 0x1EA6); (0x00C2, 0x0301, 0x1EA4);
    (0x00C2, 0x0303, 0x1EAA); (0x00C2, 0x0309, 0x1EA8);
    (0x00C4, 0x0304, 0x01DE); (0x00C5, 0x0301, 0x01FA);
    (0x00C6, 0x0301, 0x01FC); (0x00C6, 0x0304, 0x01E2);
    (0x00C7, 0x0301, 0x1E08); (0x00CA, 0x0300, 0x1EC0);
    (0x00CA, 0x0301, 0x1EBE); (0x00CA, 0x0303, 0x1EC4);
    (0x00CA, 0x0309, 0x1EC2); (0x00CF, 0x0301, 0x1E2E);
    (0x00D4, 0x0300, 0x1ED2); (0x00D4, 0x0301, 0x1ED0);
    (0x00D4, 0x0303, 0x1ED6); (0x00D4, 0x0309, 0x1ED4);
    (0x00D5, 0x0301, 0x1E4C); (0x00D5, 0x0304, 0x022C);
    (0x00D5, 0x0308, 0x1E4E); (0x00D6, 0x0304, 0x022A);
    (0x00D8, 0x0301, 0x01FE); (0x00DC, 0x0300, 0x01DB);
    (0x00DC, 0x0301, 0x01D7); (0x00DC, 0x0304, 0x01D5);
    (0x00DC, 0x030C, 0x01D9); (0x00E2, 0x0300, 0x1EA7);
    (0x00E2, 0x0301, 0x1EA5); (0x00E2, 0x0303, 0x1EAB);
    (0x00E2, 0x0309, 0x1EA9); (0x00E4, 0x0304, 0x01DF);
    (0x00E5, 0x0301, 0x01FB); (0x00E6, 0x0301, 0x01FD);
    (0x00E6, 0x0304, 0x01E3); (0x00E7, 0x0301, 0x1E09);
    (0x00EA, 0x0300, 0x1EC1); (0x00EA, 0x0301, 0x1EBF);
    (0x00EA, 0x0303, 0x1EC5); (0x00EA, 0x0309, 0x1EC3);
    (0x00EF, 0x0301, 0x1E2F); (0x00F4, 0x0300, 0x1ED3);
    (0x00F4, 0x0301, 0x1ED1); (0x00F4, 0x0303, 0x1ED7);
    (0x00F4, 0x0309, 0x1ED5); (0x00F5, 0x0301, 0x1E4D);
    (0x00F5, 0x0304, 0x022D); (0x00F5, 0x0308, 0x1E4F);
    (0x00F6, 0x0304, 0x022B); (0x00F8, 0x0301, 0x01FF);
    (0x00FC, 0x0300, 0x01DC); (0x00FC, 0x0301, 0x01D8);
    (0x00FC, 0x0304, 0x01D6); (0x00FC, 0x030C, 0x01DA);
    (0x0102, 0x0300, 0x1EB0); (0x0102, 0x0301, 0x1EAE);
    (0x0102, 0x0303, 0x1EB4); (0x0102, 0x0309, 0x1EB2);
    (0x0103, 0x0300, 0x1EB1); (0x0103, 0x0301, 0x1EAF);
    (0x0103, 0x0303, 0x1EB5); (0x0103, 0x0309, 0x1EB3);
    (0x0112, 0x0300, 0x1E14); (0x0112, 0x0301, 0x1E16);
    (0x0113, 0x0300, 0x1E15); (0x0113, 0x0301, 0x1E17);
    (0x014C, 0x0300, 0x1E50); (0x014C, 0x0301, 0x1E52);
    (0x014D, 0x0300, 0x1E51); (0x014D, 0x0301, 0x1E53);
    (0x015A, 0x0307, 0x1E64); (0x015B, 0x0307, 0x1E65);
    (0x0160, 0x0307, 0x1E66); (0x0161, 0x0307, 0x1E67);
    (0x0168, 0x0301, 0x1E78); (0x0169, 0x0301, 0x1E79);
    (0x016A, 0x0308, 0x1E7A); (0x016B, 0x0308, 0x1E7B);
    (0x017F, 0x0307, 0x1E9B); (0x01A0, 0x0300, 0x1EDC);
    (0x01A0, 0x0301, 0x1EDA); (0x01A0, 0x0303, 0x1EE0);
    (0x01A0, 0x0309, 0x1EDE); (0x01A0, 0x0323, 0x1EE2);
    (0x01A1, 0x0300, 0x1EDD); (0x01A1, 0x0301, 0x1EDB);
    (0x01A1, 0x0303, 0x1EE1); (0x01A1, 0x0309, 0x1EDF);
    (0x01A1, 0x0323, 0x1EE3); (0x01AF, 0x0300, 0x1EEA);
    (0x01AF, 0x0301, 0x1EE8); (0x01AF, 0x0303, 0x1EEE);
    (0x01AF, 0x0309, 0x1EEC); (0x01AF, 0x0323, 0x1EF0);
    (0x01B0, 0x0300, 0x1EEB); (0x01B0, 0x0301, 0x1EE9);
    (0x01B0, 0x0303, 0x1EEF); (0x01B0, 0x0309, 0x1EED);
    (0x01B0, 0x0323, 0x1EF1); (0x01EA, 0x0304, 0x01EC);
    (0x01EB, 0x0304, 0x01ED); (0x0226, 0x0304, 0x01E0);
    (0x0227, 0x0304, 0x01E1); (0x0228, 0x0306, 0x1E1C);
    (0x0229, 0x0306, 0x1E1D); (0x022E, 0x0304, 0x0230);
    (0x022F, 0x0304, 0x0231); (0x03B9, 0x0300, 0x1F76);
    (0x03B9, 0x0301, 0x03AF); (0x03B9, 0x0304, 0x1FD1);
    (0x03B9, 0x0306, 0x1FD0); (0x03B9, 0x0308, 0x03CA);
    (0x03B9, 0x0313, 0x1F30); (0x03B9, 0x0314, 0x1F31);
    (0x03B9, 0x0342, 0x1FD6); (0x03C1, 0x0313, 0x1FE4);
    (0x03C1, 0x0314, 0x1FE5); (0x03CA, 0x0300, 0x1FD2);
    (0x03CA, 0x0301, 0x0390); (0x03CA, 0x0342, 0x1FD7);
    (0x1E36, 0x0304, 0x1E38); (0x1E37, 0x0304, 0x1E39);
    (0x1E5A, 0x0304, 0x1E5C); (0x1E5B, 0x0304, 0x1E5D);
    (0x1E62, 0x0307, 0x1E68); (0x1E63, 0x0307, 0x1E69);
    (0x1EA0, 0x0302, 0x1EAC); (0x1EA0, 0x0306, 0x1EB6);
    (0x1EA1, 0x0302, 0x1EAD); (0x1EA1, 0x0306, 0x1EB7);
    (0x1EB8, 0x0302, 0x1EC6); (0x1EB9, 0x0302, 0x1EC7);
    (0x1ECC, 0x0302, 0x1ED8); (0x1ECD, 0x0302, 0x1ED9);
    (0x1F30, 0x0300, 0x1F32); (0x1F30, 0x0301, 0x1F34);
    (0x1F30, 0x0342, 0x1F36); (0x1F31, 0x0300, 0x1F33);
    (0x1F31, 0x0301, 0x1F35); (0x1F31, 0x0342, 0x1F37)
  ].

Fixpoint table_get {A : Type} (t : list (Z * A)) (c : Z) : option A :=
  match t with
  | [] => None
  | (k, v) :: t' => if c =? k then Some v else table_get t' c
  end.

Definition fold_cp (c : Z) : str :=
  match table_get casefold_table c with
  | Some s => s
  | None => [c]
  end.

Definition casefold (s : str) : str := flat_map fold_cp s.

Definition decompose_cp (c : Z) : str :=
  match table_get decomposition_table c with
  | Some s => s
  | None => [c]
  end.

Definition decompose (s : str) : str := flat_map decompose_cp s.

Definition ccc (c : Z) : Z :=
  match table_get combining_table c with
  | Some n => n
  | None => 0
  end.

Fixpoint composite_in (t : list (Z * Z * Z)) (a b : Z) : option Z :=
  match t with
  | [] => None
  | (x, y, k) :: t' =>
      if (a =? x) && (b =? y) then Some k else composite_in t' a b
  end.

Definition composite (a b : Z) : option Z := composite_in composition_table a b.

(** Canonical ordering.  The text read so far is kept reversed; a mark moves
    back over the marks of a greater class. *)
Fixpoint insert_mark (c cc : Z) (before : str) : str :=
  match before with
  | [] => [c]
  | d :: before' =>
      if cc <? ccc d then d :: insert_mark c cc before' else c :: before
  end.

Definition reorder (s : str) : str :=
  rev (fold_left
         (fun before c =>
            if ccc c =? 0 then c :: before else insert_mark c (ccc c) before)
         s []).

(** Canonical composition.  The state: the finished text (reversed), and
    the last starter with the marks kept after it (reversed) and the class
    of the last of them. *)
Definition composing : Type := str * option (Z * str * Z).

Definition flush (st : composing) : str :=
  match st with
  | (done, None) => done
  | (done, Some (starter, pending, _)) => pending ++ starter :: done
  end.

Definition compose_step (st : composing) (ch : Z) : composing :=
  let cc := ccc ch in
  match st with
  | (done, None) =>
      if cc =? 0 then (done, Some (ch, [], 0)) else (ch :: done, None)
  | (done, Some (starter, pending, last)) =>
      match (if (last =? 0) || (last <? cc) then composite starter ch
             else None) with
      | Some k => (done, Some (k, pending, last))
      | None =>
          if cc =? 0 then (flush st, Some (ch, [], 0))
          else (done, Some (starter, ch :: pending, cc))
      end
  end.

Definition compose (s : str) : str :=
  rev (flush (fold_left compose_step s ([], None))).

Definition nfkc (s : str) : str := compose (reorder (decompose s)).

End UnicodeData.

Definition latin : unicode :=
  {| casefold := UnicodeData.casefold; nfkc := UnicodeData.nfkc |}.

(** ** Instances of the third-party functions, for the examples *)

(** The inner product, which is the cosine on vectors of length one. *)
Definition dot (a b : vec) : Q :=
  fold_right Qplus 0%Q (map (fun p => (fst p * snd p)%Q) (combine a b)).

(** A stable ascending argsort: insertion of the positions, the later
    position after an earlier one of the same value. *)
Fixpoint insert_index (sims : list Q) (i : nat) (l : list nat) : list nat :=
  match l with
  | [] => [i]
  | j :: l' =>
      if Qlt_bool (nth j sims 0%Q) (nth i sims 0%Q)
      then j :: insert_index sims i l'
      else i :: l
  end.

Definition stable_argsort (sims : list Q) : list nat :=
  fold_right (insert_index sims) [] (List.seq 0 (length sims)).

(** A ratio that tells equal texts from different ones: 100 for two equal
    non-empty texts, as rapidfuzz gives, and 0 otherwise. *)
Definition exact_ratio (a b : str) : Q :=
  match a with
  | [] => 0%Q
  | _ :: _ => if str_eqb a b then 100%Q else 0%Q
  end.

(** An exact search of a flat inner-product index. *)
Definition flat_search (index : list vec) (q : vec) (k : nat) : list (Z * Q) :=
  let sims := map (dot q) index in
  map (fun i => (Z.of_nat i, nth i sims 0%Q))
      (firstn k (rev (stable_argsort sims))).

Definition demo_libs : libs :=
  {| ucd := latin;
     token_set_ratio := exact_ratio;
     encode := fun _ => [1%Q; 0%Q];
     cosine := dot;
     argsort := stable_argsort;
     faiss := None |}.

Definition demo_libs_faiss : libs :=
  {| ucd := latin;
     token_set_ratio := exact_ratio;
     encode := fun _ => [1%Q; 0%Q];
     cosine := dot;
     argsort := stable_argsort;
     faiss := Some flat_search |}.

Definition demo_lookup : list row :=
  [ {| row_policy_item_id := Some (lit "1");
       row_text := Some (lit "Acidum ascorbicum");
       row_section := Some (lit "CANON_LAT");
       row_language := Some (lit "la");
       row_canonical := Some (lit "Ascorbic acid") |};
    {| row_policy_item_id := Some (lit "1");
       row_text := Some (lit "Vitamin C");
       row_section := Some (lit "CANON_EN");
       row_language := Some (lit "en");
       row_canonical := Some (lit "Ascorbic acid") |};
    {| row_policy_item_id := Some (lit "2");
       row_text := Some (lit "Vitamin C");
       row_section := Some (lit "SYN_LAT");
       row_language := Some (lit "la");
       row_canonical := None |};
    {| row_policy_item_id := Some (lit "3");
       row_text := Some (lit "Salt");
       row_section := Some (lit "COMMON_EN");
       row_language := Some (lit "en");
       row_canonical := None |} ].

Definition demo_embeddings : list vec :=
  [ [1%Q; 0%Q]; [(4 # 5)%Q; (3 # 5)%Q]; [(4 # 5)%Q; (3 # 5)%Q]; [0%Q; 1%Q] ].

Definition demo_globals : globals :=
  {| model := Some tt;
     embeddings := Some demo_embeddings;
     faiss_index := None;
     lookup_df := Some demo_lookup |}.

Definition demo_globals_faiss : globals :=
  {| model := Some tt;
     embeddings := Some demo_embeddings;
     faiss_index := Some demo_embeddings;
     lookup_df := Some demo_lookup |}.

(** ** The specification's words, for comparison with the code *)

(** The section multipliers as the specification lists them. *)
Definition spec_section_boost (section : str) : Q :=
  if str_eqb section (lit "CANON_LAT") then 105 # 100
  else if str_eqb section (lit "CANON_EN") then 100 # 100
  else if str_eqb section (lit "SYN_LAT") then 95 # 100
  else if startswith section (lit "COMMON_") then 100 # 100
  else 100 # 100.

(** The three reported numbers of a candidate as the specification
    computes them: semantic score, lexical score, confidence. *)
Definition spec_scores (sem lex : Q) (section : str) : Q * Q * Q :=
  let boosted_semantic := (sem * spec_section_boost section)%Q in
  let final := ((75 # 100) * boosted_semantic + (1 - (75 # 100)) * lex)%Q in
  (round sem 3, round lex 3, round (final * 100)%Q 1).

(** The confidence one would compute from the two reported sub-scores,
    were the semantic one already boosted. *)
Definition unboosted_blend (h : hit) : Q :=
  (100 * ((75 # 100) * semantic_score h + (25 # 100) * lexical_score h))%Q.

(** Candidates of equal similarity stand in catalog order. *)
Definition ties_in_catalog_order (cands : list (Z * Q)) : Prop :=
  forall i j a b, (i < j)%nat ->
    nth_error cands i = Some a -> nth_error cands j = Some b ->
    (snd a == snd b)%Q -> fst a < fst b.

(** What [numpy.argsort] promises: the positions of the list, in an order
    of ascending value. *)
Definition argsort_sorts (sort : list Q -> list nat) : Prop :=
  forall l,
    Permutation (sort l) (List.seq 0 (length l)) /\
    StronglySorted (fun i j => (nth i l 0 <= nth j l 0)%Q) (sort l).


(** The cache can be used: the three files are there and parse, the
    metadata names this catalog size and this model, and the index file,
    if faiss is installed and the file is there, parses. *)
Definition cache_usable (L : libs) (texts : list str) (d : files) : bool :=
  match META_MULTI d, EMB_MULTI d, LOOKUP_MULTI d with
  | Holds m, Holds _, Holds _ =>
      meta_matches m texts &&
      (if FAISS_AVAILABLE L
       then match IDX_MULTI d with Unreadable => false | _ => true end
       else true)
  | _, _, _ => false
  end.

(** The globals after a start from the cache. *)
Definition cached_globals (L : libs) (g : globals) (d : files) : globals :=
  {| model := Some tt;
     embeddings := match EMB_MULTI d with Holds e => Some e | _ => embeddings g end;
     faiss_index :=
       match faiss L, IDX_MULTI d with
       | Some _, Holds i => Some i
       | _, _ => faiss_index g
       end;
     lookup_df := match LOOKUP_MULTI d with Holds l => Some l | _ => lookup_df g end |}.

(** The messages of a start from the cache. *)
Definition cached_messages (L : libs) (d : files) (n : nat) : list message :=
  [ Msg_initializing; Msg_loading_model; Msg_loading_cached;
    if FAISS_AVAILABLE L && file_exists (IDX_MULTI d)
    then Msg_faiss_loaded else Msg_faiss_not_available;
    Msg_initialized n ].

(** The disk without the three files the cache test asks for. *)
Definition forget_cache (d : files) : files :=
  {| MULTIV_PATH := MULTIV_PATH d; CARDS_PATH := CARDS_PATH d;
     EMB_MULTI := Absent; IDX_MULTI := IDX_MULTI d;
     LOOKUP_MULTI := Absent; META_MULTI := Absent |}.

Definition with_disk (w : world) (d : files) : world :=
  {| vars := vars w; disk := d; stdout := stdout w |}.

(** The messages printed since the world [w]. *)
Definition printed_since (w w' : world) : list message :=
  skipn (length (stdout w)) (stdout w').

Definition rebuilds (w w' : world) : Prop :=
  exists n, In (Msg_building n) (printed_since w w').

(** ** Worlds and catalogs of the examples *)

Definition no_globals : globals :=
  {| model := None; embeddings := None; faiss_index := None; lookup_df := None |}.

Definition fresh (d : files) : world :=
  {| vars := no_globals; disk := d; stdout := [] |}.

(** A catalog without rows, after a start. *)
Definition empty_catalog (index : option (list vec)) : globals :=
  {| model := Some tt; embeddings := Some []; faiss_index := index;
     lookup_df := Some [] |}.

Definition salt : mv_row :=
  {| mv_policy_item_id := Some (lit "1");
     mv_text := Some (lit "Salt");
     mv_section := Some (lit "CANON_EN");
     mv_language := Some (lit "en") |}.

(** One entity with two canonical names in the cards file; no cache. *)
Definition two_names_disk : files :=
  {| MULTIV_PATH := Holds [salt];
     CARDS_PATH :=
       Holds [ {| card_policy_item_id := Some (lit "1");
                  card_canonical := Some (lit "Salt") |};
               {| card_policy_item_id := Some (lit "1");
                  card_canonical := Some (lit "Sodium chloride") |} ];
     EMB_MULTI := Absent; IDX_MULTI := Absent;
     LOOKUP_MULTI := Absent; META_MULTI := Absent |}.

(** A catalog of one row and a cache written for it. *)
Definition good_cache_disk : files :=
  {| MULTIV_PATH := Holds [salt];
     CARDS_PATH := Absent;
     EMB_MULTI := Holds [[1%Q; 0%Q]];
     IDX_MULTI := Absent;
     LOOKUP_MULTI := Holds [join salt None];
     META_MULTI := Holds {| meta_model := Some MODEL_NAME;
                            meta_row_count := Some 1 |} |}.

(** A catalog of one row and a cache whose lookup file is damaged. *)
Definition damaged_cache_disk : files :=
  {| MULTIV_PATH := Holds [salt];
     CARDS_PATH := Absent;
     EMB_MULTI := Holds [[1%Q; 0%Q]];
     IDX_MULTI := Absent;
     LOOKUP_MULTI := Unreadable;
     META_MULTI := Holds {| meta_model := Some MODEL_NAME;
                            meta_row_count := Some 1 |} |}.

(** A catalog without rows and a cache written for it, whose lookup file
    is damaged. *)
Definition damaged_cache_empty_disk : files :=
  {| MULTIV_PATH := Holds [];
     CARDS_PATH := Absent;
     EMB_MULTI := Holds [];
     IDX_MULTI := Absent;
     LOOKUP_MULTI := Unreadable;
     META_MULTI := Holds {| meta_model := Some MODEL_NAME;
                            meta_row_count := Some 0 |} |}.

(** The row [r] filed under another section. *)
Definition set_section (r : row) (s : cell) : row :=
  {| row_policy_item_id := row_policy_item_id r;
     row_text := row_text r;
     row_section := s;
     row_language := row_language r;
     row_canonical := row_canonical r |}.

Definition sizes (w : world) : option (nat * nat) :=
  match embeddings (vars w), lookup_df (vars w) with
  | Some e, Some l => Some (length e, length l)
  | _, _ => None
  end.

(** ** Auxiliary definitions of the proofs *)

(** White space is the space character only, and never twice in a row. *)
Fixpoint single_spaced (s : str) : Prop :=
  match s with
  | [] => True
  | c :: s' =>
      (is_space c = true ->
       c = SPACE /\ match s' with [] => True | d :: _ => is_space d = false end) /\
      single_spaced s'
  end.

Definition starts_unspaced (s : str) : Prop :=
  match s with [] => True | d :: _ => is_space d = false end.

(** The canonical names the loader joins with: the cards file without its
    duplicates, or nothing when there is no such file. *)
Definition can_map_of (d : files) : list card_row :=
  match CARDS_PATH d with
  | Holds cards => drop_duplicates cards
  | _ => []
  end.

(** The world after the first two messages and the loading of the model. *)
Definition started (w : world) : world :=
  {| vars := set_model tt (vars w);
     disk := disk w;
     stdout := stdout w ++ [Msg_initializing; Msg_loading_model] |}.

(** Basic Latin. *)
Definition is_ascii (c : Z) : bool := (0 <=? c) && (c <? 128).

(** What the tables say of an ASCII code point: it folds to one ASCII code
    point, to itself when it is kept by the substitutions; it has no
    decomposition and the combining class 0. *)
Definition ascii_facts (c : Z) : bool :=
  match UnicodeData.fold_cp c with
  | [d] => is_ascii d && (if is_kept c then d =? c else true)
  | _ => false
  end &&
  match UnicodeData.decompose_cp c with
  | [d] => d =? c
  | _ => false
  end &&
  (UnicodeData.ccc c =? 0).

(** ** The HTTP boundary *)

(** A JSON value as Python reads it.  Nothing looks into an array or an
    object that is the value of a member. *)
Inductive json : Type :=
| JNull
| JBool (b : bool)
| JInt (n : Z)
| JFloat (x : Q)
| JStr (s : str)
| JArray
| JObject.

(** What [request.get_json()] gives: it raises, or returns a value that is
    not an object, or an object, of which the members ["query"] and
    ["top_k"] are read. *)
Inductive body : Type :=
| Unparsable
| Value (v : json)
| Object (query top_k : option json).

(** What the [except Exception] of the endpoint catches. *)
Inductive failure : Type :=
| Unparsed
| AttributeError
| TypeError
| Raised (e : exn).

(** The answers of [/search]: 200 with the query, the results and their
    count; 400; 500 with the failure. *)
Inductive response : Type :=
| Found (query : str) (results : list hit) (count : nat)
| Rejected
| Failed (e : failure).

Definition status_code (r : response) : Z :=
  match r with
  | Found _ _ _ => 200
  | Rejected => 400
  | Failed _ => 500
  end.

(** The answer of [/health]. *)
Record health : Type := {
  health_status : str;
  model_loaded : bool;
  faiss_available : bool
}.

Definition health_check (L : libs) (g : globals) : health :=
  {| health_status := lit "healthy";
     model_loaded := match model g with Some _ => true | None => false end;
     faiss_available := FAISS_AVAILABLE L |}.

(** [data.get(key, default)] *)
Definition get_member (member : option json) (default : json) : json :=
  match member with
  | Some v => v
  | None => default
  end.

(** [search_ai(query, top_k)] for whatever value the request holds as
    [top_k]: the slice [results[:top_k]], the last step, raises [TypeError]
    unless [top_k] is an integer, a boolean or [None]. *)
Definition search_ai_with (L : libs) (g : globals) (query : str) (top_k : json)
    : failure + list hit :=
  match candidate_hits L g query with
  | Raise e => inl (Raised e)
  | Ok hits =>
      let results := sorted_by_confidence (values (aggregate hits)) in
      match top_k with
      | JInt k => inr (slice_to results k)
      | JBool b => inr (slice_to results (if b then 1 else 0))
      | JNull => inr results
      | JFloat _ | JStr _ | JArray | JObject => inl TypeError
      end
  end.

Definition search_endpoint (L : libs) (g : globals) (request : body) : response :=
  match request with
  | Unparsable => Failed Unparsed
  | Value _ => Failed AttributeError
  | Object q k =>
      match get_member q (JStr []) with
      | JStr s =>
          let query := strip s in
          let top_k := get_member k (JInt TOP_K_DEFAULT) in
          if is_empty query then Rejected
          else match search_ai_with L g query top_k with
               | inr results => Found query results (length results)
               | inl e => Failed e
               end
      | _ => Failed AttributeError
      end
  end.

(** ** The state after a build *)

(** The globals and the disk the statements after the [if use_cache] block
    leave when they run to their end. *)
Definition built_globals (L : libs) (texts : list str) (lookup : list row)
    (g : globals) : globals :=
  {| model := model g;
     embeddings := Some (map (encode L) texts);
     faiss_index := if FAISS_AVAILABLE L then Some (map (encode L) texts)
                    else faiss_index g;
     lookup_df := Some lookup |}.

Definition built_disk (L : libs) (texts : list str) (lookup : list row)
    (d : files) : files :=
  {| MULTIV_PATH := MULTIV_PATH d;
     CARDS_PATH := CARDS_PATH d;
     EMB_MULTI := Holds (map (encode L) texts);
     IDX_MULTI := if FAISS_AVAILABLE L then Holds (map (encode L) texts)
                  else IDX_MULTI d;
     LOOKUP_MULTI := Holds lookup;
     META_MULTI := Holds {| meta_model := Some MODEL_NAME;
                            meta_row_count := Some (Z.of_nat (length texts)) |} |}.

(** The texts that are embedded: the column ["text"] as strings. *)
Definition texts_of (mv : list mv_row) : list str :=
  map (fun r => py_str (mv_text r)) mv.

(** The world with another catalog file. *)
Definition with_catalog (w : world) (mv : list mv_row) : world :=
  {| vars := vars w;
     disk := {| MULTIV_PATH := Holds mv;
                CARDS_PATH := CARDS_PATH (disk w);
                EMB_MULTI := EMB_MULTI (disk w);
                IDX_MULTI := IDX_MULTI (disk w);
                LOOKUP_MULTI := LOOKUP_MULTI (disk w);
                META_MULTI := META_MULTI (disk w) |};
     stdout := stdout w |}.

(** ** More catalogs of the examples *)

Definition sugar : mv_row :=
  {| mv_policy_item_id := Some (lit "7");
     mv_text := Some (lit "Sugar");
     mv_section := Some (lit "CANON_EN");
     mv_language := Some (lit "en") |}.

(** The four columns of a lookup row that come from the catalog. *)
Definition catalog_part (r : row) : mv_row :=
  {| mv_policy_item_id := row_policy_item_id r;
     mv_text := row_text r;
     mv_section := row_section r;
     mv_language := row_language r |}.

(** The rows of the cards file, none when the file is absent. *)
Definition cards_of (d : files) : list card_row :=
  match CARDS_PATH d with
  | Holds cards => cards
  | _ => []
  end.

(** * Properties *)

(** ** Strings *)

Lemma str_eqb_eq (a b : str) : str_eqb a b = true <-> a = b.
Proof.
  revert b; induction a as [|x a IH]; intros [|y b]; simpl; split;
    try discriminate; try reflexivity.
  - rewrite andb_true_iff, Z.eqb_eq, IH. now intros [-> ->].
  - intros [= -> ->]. rewrite Z.eqb_refl. now apply IH.
Qed.

Lemma str_eqb_refl (a : str) : str_eqb a a = true.
Proof. now apply str_eqb_eq. Qed.

Lemma str_eqb_neq (a b : str) : str_eqb a b = false <-> a <> b.
Proof.
  rewrite <- str_eqb_eq. destruct (str_eqb a b); split; congruence.
Qed.

(** ** The normaliser *)

Ltac char_classes :=
  unfold is_kept, is_dash, is_space, HYPHEN, SPACE in *;
  repeat match goal with
         | H : _ = true |- _ =>
             rewrite ?orb_true_iff, ?andb_true_iff, ?Z.leb_le, ?Z.eqb_eq in H
         end.

Lemma kept_not_dash (c : Z) : is_kept c = true -> is_dash c = false.
Proof.
  intros H. apply not_true_is_false. intros D. char_classes. lia.
Qed.

Lemma kept_space (c : Z) : is_kept c = true -> is_space c = true -> c = SPACE.
Proof.
  intros H S. char_classes. lia.
Qed.

Lemma space_is_kept : is_kept SPACE = true.
Proof. reflexivity. Qed.

Lemma space_is_space : is_space SPACE = true.
Proof. reflexivity. Qed.

Lemma sub_other_kept (s : str) : Forall (fun c => is_kept c = true) (sub_other s).
Proof.
  induction s as [|c s IH]; simpl; constructor; auto.
  destruct (is_kept c) eqn:K; [exact K | exact space_is_kept].
Qed.

Lemma sub_dashes_fixed (s : str) :
  Forall (fun c => is_kept c = true) s -> sub_dashes s = s.
Proof.
  induction 1 as [|c s K _ IH]; simpl; [reflexivity|].
  now rewrite (kept_not_dash c K), IH.
Qed.

Lemma sub_other_fixed (s : str) :
  Forall (fun c => is_kept c = true) s -> sub_other s = s.
Proof.
  induction 1 as [|c s K _ IH]; simpl; [reflexivity|].
  now rewrite K, IH.
Qed.

(** The substitutions and the trim keep a property of all characters that
    the space and the hyphen have. *)
Section Preserved.

Variable P : Z -> Prop.
Hypothesis P_space : P SPACE.
Hypothesis P_hyphen : P HYPHEN.

Lemma sub_dashes_Forall (s : str) : Forall P s -> Forall P (sub_dashes s).
Proof.
  induction 1 as [|c s H _ IH]; simpl; constructor; auto.
  destruct (is_dash c); auto.
Qed.

Lemma sub_other_Forall (s : str) : Forall P s -> Forall P (sub_other s).
Proof.
  induction 1 as [|c s H _ IH]; simpl; constructor; auto.
  destruct (is_kept c); auto.
Qed.

Lemma sub_spaces_from_Forall (s : str) (b : bool) :
  Forall P s -> Forall P (sub_spaces_from b s).
Proof.
  intros H. revert b. induction H as [|c s H _ IH]; intros b; simpl; [constructor|].
  destruct (is_space c); [destruct b|]; auto.
Qed.

Lemma lstrip_Forall (s : str) : Forall P s -> Forall P (lstrip s).
Proof.
  induction 1 as [|c s H H' IH]; simpl; [constructor|].
  destruct (is_space c); auto.
Qed.

Lemma rstrip_Forall (s : str) : Forall P s -> Forall P (rstrip s).
Proof.
  induction 1 as [|c s H H' IH]; simpl; [constructor|].
  destruct (rstrip s); [destruct (is_space c)|]; auto.
Qed.

Lemma clean_Forall (s : str) : Forall P s -> Forall P (clean s).
Proof.
  intros H. unfold clean, strip, sub_spaces.
  now apply rstrip_Forall, lstrip_Forall, sub_spaces_from_Forall,
    sub_other_Forall, sub_dashes_Forall.
Qed.

End Preserved.

Lemma clean_kept (s : str) : Forall (fun c => is_kept c = true) (clean s).
Proof.
  unfold clean, strip, sub_spaces.
  apply rstrip_Forall, lstrip_Forall, sub_spaces_from_Forall;
    [reflexivity | apply sub_other_kept].
Qed.

Lemma sub_spaces_from_single (s : str) (b : bool) :
  single_spaced (sub_spaces_from b s) /\
  (b = true -> starts_unspaced (sub_spaces_from b s)).
Proof.
  revert b; induction s as [|c s IH]; intros b; simpl; [now split|].
  destruct (is_space c) eqn:S.
  - destruct b.
    + apply IH.
    + split; [|discriminate]. simpl. split; [|apply IH].
      intros _. split; [reflexivity|]. now apply (IH true).
  - split.
    + simpl. split; [|apply IH]. congruence.
    + intros _. exact S.
Qed.

Lemma single_spaced_fixed (s : str) :
  single_spaced s ->
  sub_spaces_from false s = s /\
  (starts_unspaced s -> sub_spaces_from true s = s).
Proof.
  induction s as [|c s IH]; simpl; [now split|].
  intros [Hc Hs]. destruct (IH Hs) as [IH1 IH2].
  destruct (is_space c) eqn:S.
  - destruct (Hc eq_refl) as [-> Hn]. split; [|discriminate].
    f_equal. apply IH2. exact Hn.
  - split; intros; now rewrite IH1.
Qed.

Lemma lstrip_single (s : str) : single_spaced s -> single_spaced (lstrip s).
Proof.
  induction s as [|c s IH]; simpl; [trivial|].
  intros [Hc Hs]. destruct (is_space c) eqn:S; [now apply IH|].
  simpl. rewrite S. split; [discriminate | exact Hs].
Qed.

Lemma rstrip_head (s : str) (d : Z) (t : str) :
  rstrip s = d :: t -> exists u, s = d :: u.
Proof.
  destruct s as [|c s]; simpl; [discriminate|].
  destruct (rstrip s).
  - destruct (is_space c); [discriminate|]. intros [= -> _]. now exists s.
  - intros [= -> _]. now exists s.
Qed.

Lemma rstrip_single (s : str) : single_spaced s -> single_spaced (rstrip s).
Proof.
  induction s as [|c s IH]; simpl; [trivial|].
  intros [Hc Hs]. destruct (rstrip s) as [|d t] eqn:R.
  - destruct (is_space c) eqn:S; simpl; [trivial|]. split; [congruence|trivial].
  - simpl. split; [|now apply IH].
    intros S. destruct (Hc S) as [-> Hn]. split; [reflexivity|].
    destruct (rstrip_head s d t R) as [u ->]. exact Hn.
Qed.

Lemma lstrip_starts_unspaced (s : str) : starts_unspaced (lstrip s).
Proof.
  induction s as [|c s IH]; simpl; [trivial|].
  destruct (is_space c) eqn:S; [exact IH | exact S].
Qed.

Lemma lstrip_fixed (s : str) : starts_unspaced s -> lstrip s = s.
Proof.
  destruct s as [|c s]; simpl; [reflexivity|]. now intros ->.
Qed.

Lemma rstrip_starts_unspaced (s : str) :
  starts_unspaced s -> starts_unspaced (rstrip s).
Proof.
  destruct s as [|c s]; simpl; [trivial|].
  intros S. destruct (rstrip s); rewrite ?S; exact S.
Qed.

Lemma rstrip_idempotent (s : str) : rstrip (rstrip s) = rstrip s.
Proof.
  induction s as [|c s IH]; simpl; [reflexivity|].
  destruct (rstrip s) as [|d t] eqn:R.
  - destruct (is_space c) eqn:S; simpl; [reflexivity | now rewrite S].
  - change (rstrip (c :: d :: t)) with
      (match rstrip (d :: t) with
       | [] => if is_space c then [] else [c]
       | x :: t' => c :: x :: t'
       end).
    now rewrite IH.
Qed.

(** The three substitutions and the trim leave their own result alone. *)
Lemma clean_idempotent (s : str) : clean (clean s) = clean s.
Proof.
  set (y := clean s).
  assert (K : Forall (fun c => is_kept c = true) y).
  { apply clean_kept. }
  assert (S : single_spaced y).
  { apply rstrip_single, lstrip_single, sub_spaces_from_single. }
  assert (H : starts_unspaced y).
  { apply rstrip_starts_unspaced, lstrip_starts_unspaced. }
  unfold clean at 1.
  rewrite (sub_dashes_fixed y K), (sub_other_fixed y K).
  unfold sub_spaces. rewrite (proj1 (single_spaced_fixed y S)).
  unfold strip. rewrite (lstrip_fixed y H).
  unfold y, clean, strip. apply rstrip_idempotent.
Qed.

(** C3, as the code has it: a second normalisation changes nothing when the
    first result is already case-folded and in compatibility normal form,
    that is when [nfkc (casefold y) = y] for the first result [y]. *)
Theorem normalize_idempotent_on_folded (U : unicode) (x : str) :
  let y := normalize_query_lex U (Str x) in
  nfkc U (casefold U y) = y ->
  normalize_query_lex U (Str y) = y.
Proof.
  intros y H. unfold normalize_query_lex at 1. rewrite H.
  unfold y, normalize_query_lex. apply clean_idempotent.
Qed.

Lemma normalize_idempotent_on_folded_witness :
  nfkc latin (casefold latin
    (normalize_query_lex latin (Str (lit "  Vitamin   C (E-300) ")))) =
  normalize_query_lex latin (Str (lit "  Vitamin   C (E-300) ")) /\
  normalize_query_lex latin
    (Str (normalize_query_lex latin (Str (lit "  Vitamin   C (E-300) ")))) =
  normalize_query_lex latin (Str (lit "  Vitamin   C (E-300) ")).
Proof.
  split.
  - vm_compute. reflexivity.
  - apply (normalize_idempotent_on_folded latin (lit "  Vitamin   C (E-300) ")).
    vm_compute. reflexivity.
Defined.

(** C3 fails on the modifier letter U+1D2D: it has no case folding, its
    compatibility form is the capital U+00C6, which the substitutions keep
    and which a second normalisation folds to U+00E6. *)
Lemma normalize_not_idempotent :
  normalize_query_lex latin (Str (normalize_query_lex latin (Str [0x1D2D]))) <>
  normalize_query_lex latin (Str [0x1D2D]).
Proof.
  vm_compute. discriminate.
Qed.

(** *** ASCII text *)

Lemma ascii_facts_hold (c : Z) : is_ascii c = true -> ascii_facts c = true.
Proof.
  intros A. unfold is_ascii in A. apply andb_true_iff in A.
  rewrite Z.leb_le, Z.ltb_lt in A.
  assert (F : forallb ascii_facts (map Z.of_nat (List.seq 0 128)) = true)
    by (vm_compute; reflexivity).
  rewrite forallb_forall in F. apply F.
  apply in_map_iff. exists (Z.to_nat c). split; [lia|]. apply in_seq. lia.
Qed.

Lemma casefold_ascii (s : str) :
  Forall (fun c => is_ascii c = true) s ->
  Forall (fun c => is_ascii c = true) (UnicodeData.casefold s).
Proof.
  unfold UnicodeData.casefold.
  induction 1 as [|c s A _ IH]; simpl; [constructor|].
  apply ascii_facts_hold in A. unfold ascii_facts in A.
  destruct (UnicodeData.fold_cp c) as [|d [|? ?]]; try discriminate.
  rewrite !andb_true_iff in A. simpl. constructor; tauto.
Qed.

Lemma casefold_ascii_kept (s : str) :
  Forall (fun c => is_ascii c = true) s ->
  Forall (fun c => is_kept c = true) s ->
  UnicodeData.casefold s = s.
Proof.
  unfold UnicodeData.casefold.
  induction 1 as [|c s A _ IH]; intros K; simpl; [reflexivity|].
  apply Forall_cons_iff in K. destruct K as [Kc K].
  apply ascii_facts_hold in A. unfold ascii_facts in A.
  destruct (UnicodeData.fold_cp c) as [|d [|? ?]]; try discriminate.
  rewrite Kc, !andb_true_iff, Z.eqb_eq in A.
  simpl. rewrite IH by exact K. f_equal. tauto.
Qed.

Lemma decompose_ascii (s : str) :
  Forall (fun c => is_ascii c = true) s -> UnicodeData.decompose s = s.
Proof.
  unfold UnicodeData.decompose.
  induction 1 as [|c s A _ IH]; simpl; [reflexivity|].
  apply ascii_facts_hold in A. unfold ascii_facts in A.
  destruct (UnicodeData.decompose_cp c) as [|d [|? ?]];
    rewrite ?andb_false_r in A; try discriminate.
  rewrite !andb_true_iff, !Z.eqb_eq in A. simpl. rewrite IH. f_equal. tauto.
Qed.

Lemma ccc_ascii (c : Z) : is_ascii c = true -> UnicodeData.ccc c = 0.
Proof.
  intros A. apply ascii_facts_hold in A. unfold ascii_facts in A.
  rewrite !andb_true_iff, Z.eqb_eq in A. tauto.
Qed.

Lemma reorder_ascii (s : str) :
  Forall (fun c => is_ascii c = true) s -> UnicodeData.reorder s = s.
Proof.
  intros H. unfold UnicodeData.reorder.
  assert (G : forall before,
            fold_left
              (fun before c =>
                 if UnicodeData.ccc c =? 0 then c :: before
                 else UnicodeData.insert_mark c (UnicodeData.ccc c) before)
              s before = rev s ++ before).
  { induction H as [|c s A _ IH]; intros before; simpl; [reflexivity|].
    rewrite (ccc_ascii c A). simpl. rewrite IH, <- app_assoc. reflexivity. }
  rewrite G, app_nil_r. apply rev_involutive.
Qed.

Lemma composite_in_ascii (t : list (Z * Z * Z)) (a b : Z) :
  forallb (fun e => negb (is_ascii (snd (fst e)))) t = true ->
  is_ascii b = true ->
  UnicodeData.composite_in t a b = None.
Proof.
  induction t as [|[[x y] k] t IH]; simpl; [reflexivity|].
  rewrite andb_true_iff, negb_true_iff. intros [Y T] B.
  destruct (b =? y) eqn:E.
  - apply Z.eqb_eq in E. subst. congruence.
  - rewrite andb_false_r. now apply IH.
Qed.

Lemma composite_ascii (a b : Z) :
  is_ascii b = true -> UnicodeData.composite a b = None.
Proof.
  apply composite_in_ascii. vm_compute. reflexivity.
Qed.

Lemma compose_ascii (s : str) :
  Forall (fun c => is_ascii c = true) s -> UnicodeData.compose s = s.
Proof.
  intros H. unfold UnicodeData.compose.
  assert (G : forall st,
            (exists done, st = (done, None)) \/
            (exists done a, st = (done, Some (a, [], 0))) ->
            UnicodeData.flush (fold_left UnicodeData.compose_step s st) =
            rev s ++ UnicodeData.flush st).
  { induction H as [|c s A _ IH]; intros st S; simpl; [reflexivity|].
    destruct S as [[done ->] | (done & a & ->)].
    - unfold UnicodeData.compose_step at 2. rewrite (ccc_ascii c A). simpl.
      rewrite IH by (right; eauto). simpl. now rewrite <- app_assoc.
    - unfold UnicodeData.compose_step at 2. rewrite (ccc_ascii c A). simpl.
      rewrite (composite_ascii a c A).
      rewrite IH by (right; eauto). simpl. now rewrite <- app_assoc. }
  rewrite G by (left; eauto). simpl. rewrite app_nil_r. apply rev_involutive.
Qed.

Lemma nfkc_ascii (s : str) :
  Forall (fun c => is_ascii c = true) s -> UnicodeData.nfkc s = s.
Proof.
  intros H. unfold UnicodeData.nfkc.
  now rewrite (decompose_ascii s H), (reorder_ascii s H), (compose_ascii s H).
Qed.

(** On ASCII text the first result is case-folded and in normal form, and
    the normaliser is idempotent. *)
Lemma normalize_ascii (x : str) :
  Forall (fun c => is_ascii c = true) x ->
  let y := normalize_query_lex latin (Str x) in
  nfkc latin (casefold latin y) = y /\
  normalize_query_lex latin (Str y) = y.
Proof.
  intros A y.
  assert (Ay : Forall (fun c => is_ascii c = true) y).
  { unfold y, normalize_query_lex, latin. cbn [nfkc casefold].
    apply clean_Forall; [reflexivity | reflexivity |].
    rewrite nfkc_ascii; now apply casefold_ascii. }
  assert (Ky : Forall (fun c => is_kept c = true) y) by apply clean_kept.
  assert (E : nfkc latin (casefold latin y) = y).
  { unfold latin. cbn [nfkc casefold].
    rewrite (casefold_ascii_kept y Ay Ky). now apply nfkc_ascii. }
  split; [exact E|].
  unfold normalize_query_lex at 1. rewrite E.
  unfold y, normalize_query_lex. apply clean_idempotent.
Qed.

(** ** Rounding *)




(** The rounded integer is at most one half away. *)
Lemma round_half_even_near (x : Q) :
  (inject_Z (round_half_even x) - (1 # 2) <= x /\
   x <= inject_Z (round_half_even x) + (1 # 2))%Q.
Proof.
  pose proof (Z.div_mod (Qnum x) (Z.pos (Qden x)) ltac:(lia)) as D.
  pose proof (Z.mod_pos_bound (Qnum x) (Z.pos (Qden x)) ltac:(lia)) as B.
  assert (T : round_half_even x = Qnum x / Z.pos (Qden x) /\
              2 * (Qnum x mod Z.pos (Qden x)) <= Z.pos (Qden x) \/
              round_half_even x = Qnum x / Z.pos (Qden x) + 1 /\
              Z.pos (Qden x) <= 2 * (Qnum x mod Z.pos (Qden x))).
  { unfold round_half_even.
    destruct (Z.compare_spec (2 * (Qnum x mod Z.pos (Qden x))) (Z.pos (Qden x)))
      as [E|E|E].
    - destruct (Z.even _); [left | right]; split; (reflexivity || lia).
    - left; split; [reflexivity | lia].
    - right; split; [reflexivity | lia]. }
  destruct x as [a b]. cbn [Qnum Qden] in *.
  unfold Qle, Qminus, Qplus, Qopp, inject_Z. cbn [Qnum Qden].
  rewrite ?Pos2Z.inj_mul.
  destruct T as [[-> T] | [-> T]]; split; nia.
Qed.

Lemma pow10_pos (n : nat) : 0 < 10 ^ Z.of_nat n.
Proof. apply Z.pow_pos_nonneg; lia. Qed.



Lemma same_den_le (a b : Z) (p : positive) : (a # p <= b # p)%Q <-> a <= b.
Proof. unfold Qle. simpl. nia. Qed.







(** Rounding to one decimal moves a number by at most 0.05, rounding to
    three decimals by at most 0.0005. *)
Lemma round1_near (x : Q) :
  (round x 1 - (1 # 20) <= x /\ x <= round x 1 + (1 # 20))%Q.
Proof.
  pose proof (round_half_even_near (x * inject_Z (10 ^ Z.of_nat 1))) as [A B].
  unfold round.
  change (Z.to_pos (10 ^ Z.of_nat 1)) with 10%positive.
  change (inject_Z (10 ^ Z.of_nat 1)) with 10%Q in *.
  set (m := round_half_even (x * 10)) in *.
  assert (E : (m # 10 == inject_Z m * (1 # 10))%Q).
  { unfold Qeq, Qmult, inject_Z. cbn [Qnum Qden]. lia. }
  rewrite E. clear E. set (q := inject_Z m) in *. clearbody q. split; lra.
Qed.

Lemma round3_near (x : Q) :
  (round x 3 - (1 # 2000) <= x /\ x <= round x 3 + (1 # 2000))%Q.
Proof.
  pose proof (round_half_even_near (x * inject_Z (10 ^ Z.of_nat 3))) as [A B].
  unfold round.
  change (Z.to_pos (10 ^ Z.of_nat 3)) with 1000%positive.
  change (inject_Z (10 ^ Z.of_nat 3)) with 1000%Q in *.
  set (m := round_half_even (x * 1000)) in *.
  assert (E : (m # 1000 == inject_Z m * (1 # 1000))%Q).
  { unfold Qeq, Qmult, inject_Z. cbn [Qnum Qden]. lia. }
  rewrite E. clear E. set (q := inject_Z m) in *. clearbody q. split; lra.
Qed.

(** ** Loops that may raise *)

Lemma for_each_Forall2 {A B : Type} (f : A -> result B) (l : list A) (bs : list B) :
  for_each f l = Ok bs -> Forall2 (fun a b => f a = Ok b) l bs.
Proof.
  revert bs; induction l as [|a l IH]; simpl; intros bs.
  - intros [= <-]. constructor.
  - destruct (f a) as [b|e] eqn:Fa; [|discriminate].
    destruct (for_each f l) as [bs'|e]; [|discriminate].
    intros [= <-]. constructor; auto.
Qed.

Lemma for_each_In {A B : Type} (f : A -> result B) (l : list A) (bs : list B) (b : B) :
  for_each f l = Ok bs -> In b bs -> exists a, In a l /\ f a = Ok b.
Proof.
  intros H. apply for_each_Forall2 in H.
  induction H as [|a b' l bs' Fa _ IH]; simpl; [contradiction|].
  intros [<- | I].
  - exists a. auto.
  - destruct (IH I) as [a' [Ia Fa']]. exists a'. auto.
Qed.

Lemma for_each_length {A B : Type} (f : A -> result B) (l : list A) (bs : list B) :
  for_each f l = Ok bs -> length bs = length l.
Proof.
  intros H. apply for_each_Forall2 in H.
  induction H; simpl; congruence.
Qed.

Lemma iloc_In (df : list row) (i : Z) (r : row) : iloc df i = Ok r -> In r df.
Proof.
  unfold iloc. destruct (_ && _); [|discriminate].
  destruct (nth_error df _) eqn:N; [|discriminate].
  intros [= <-]. eapply nth_error_In, N.
Qed.

(** ** The score of a candidate *)

Lemma section_boost_spec (s : str) : section_boost s = spec_section_boost s.
Proof.
  unfold section_boost, spec_section_boost, SECTION_BOOST. simpl lookup_boost.
  destruct (str_eqb s (lit "CANON_LAT")); [reflexivity|].
  destruct (str_eqb s (lit "CANON_EN")); [reflexivity|].
  destruct (str_eqb s (lit "SYN_LAT")); reflexivity.
Qed.

(** The multiplier is one of three numbers. *)
Lemma section_boost_values (s : str) :
  (s = lit "CANON_LAT" /\ section_boost s = 105 # 100) \/
  (s = lit "SYN_LAT" /\ section_boost s = 95 # 100) \/
  (s <> lit "CANON_LAT" /\ s <> lit "SYN_LAT" /\ section_boost s = 100 # 100).
Proof.
  rewrite section_boost_spec. unfold spec_section_boost.
  destruct (str_eqb s (lit "CANON_LAT")) eqn:E1.
  { left. split; [now apply str_eqb_eq | reflexivity]. }
  apply str_eqb_neq in E1.
  destruct (str_eqb s (lit "CANON_EN")) eqn:E2.
  { right; right. apply str_eqb_eq in E2. subst s.
    repeat split; [exact E1 | discriminate]. }
  destruct (str_eqb s (lit "SYN_LAT")) eqn:E3.
  { right; left. split; [now apply str_eqb_eq | reflexivity]. }
  apply str_eqb_neq in E3.
  right; right. repeat split; auto.
  destruct (startswith s (lit "COMMON_")); reflexivity.
Qed.

Lemma make_hit_scores (L : libs) (q_norm : str) (r : row) (sem : Q) :
  let h := make_hit L q_norm r sem in
  let lex := lexical L q_norm (py_str (row_text r)) (py_str (row_canonical r)) in
  section h = py_str (row_section r) /\
  (semantic_score h, lexical_score h, confidence h) =
  spec_scores sem lex (section h).
Proof.
  simpl. split; [reflexivity|].
  unfold spec_scores, final_score, ALPHA_SEM.
  now rewrite section_boost_spec.
Qed.

Lemma candidate_hits_inv (L : libs) (g : globals) (query : str) (hits : list hit) :
  candidate_hits L g query = Ok hits ->
  exists embs df cands,
    embeddings g = Some embs /\ lookup_df g = Some df /\
    recall L (faiss_index g) (encode L query) embs df = Ok cands /\
    score_candidates L (normalize_query_lex (ucd L) (Str query)) df cands = Ok hits.
Proof.
  unfold candidate_hits.
  destruct (model g); [|discriminate].
  destruct (embeddings g) as [embs|]; [|discriminate].
  destruct (lookup_df g) as [df|]; [|discriminate].
  unfold bind.
  destruct (recall L (faiss_index g) (encode L query) embs df) as [cands|] eqn:R;
    [|discriminate].
  intros H. exists embs, df, cands. auto.
Qed.

Lemma scored_hit_inv (L : libs) (q_norm : str) (df : list row)
    (cands : list (Z * Q)) (hits : list hit) (h : hit) :
  score_candidates L q_norm df cands = Ok hits -> In h hits ->
  exists r sem, In r df /\ h = make_hit L q_norm r sem.
Proof.
  intros H I. destruct (for_each_In _ _ _ _ H I) as [[i sem] [_ E]].
  unfold bind in E. simpl in E.
  destruct (iloc df i) as [r|] eqn:Il; [|discriminate].
  injection E as <-. exists r, sem. split; [eapply iloc_In, Il | reflexivity].
Qed.

(** C5.  The scoring loop gives every candidate of the recall step one hit,
    in the order of the candidates, and the hit of the candidate [(i, sem)]
    is computed from the row [r] at position [i] of the lookup table and
    from the candidate's own raw similarity [sem]: it reports
    [round sem 3], [round lex 3] and
    [round ((0.75 * (sem * boost) + (1 - 0.75) * lex) * 100) 1],
    where [lex] is the lexical score of [r] for the query and [boost] is
    1.05 for CANON_LAT, 1.00 for CANON_EN, 0.95 for SYN_LAT, 1.00 for a
    section starting with COMMON_ and 1.00 for any other. *)
Theorem scores_follow_the_blend (L : libs) (g : globals) (query : str)
    (hits : list hit) :
  candidate_hits L g query = Ok hits ->
  ALPHA_SEM = 75 # 100 /\
  exists embs df cands,
    embeddings g = Some embs /\ lookup_df g = Some df /\
    recall L (faiss_index g) (encode L query) embs df = Ok cands /\
    Forall2
      (fun (c : Z * Q) (h : hit) =>
         exists r,
           iloc df (fst c) = Ok r /\
           section h = py_str (row_section r) /\
           (semantic_score h, lexical_score h, confidence h) =
           spec_scores (snd c)
             (lexical L (normalize_query_lex (ucd L) (Str query))
                      (py_str (row_text r)) (py_str (row_canonical r)))
             (section h))
      cands hits.
Proof.
  intros H. split; [reflexivity|].
  destruct (candidate_hits_inv L g query hits H) as (embs & df & cands & E & D & R & S).
  exists embs, df, cands. repeat split; auto.
  unfold score_candidates in S. apply for_each_Forall2 in S.
  eapply Forall2_impl; [|exact S].
  intros [i sem] h Eh. unfold bind in Eh. cbn [fst snd] in *.
  destruct (iloc df i) as [r|] eqn:Il; [|discriminate].
  injection Eh as <-. exists r. split; [reflexivity|].
  apply make_hit_scores.
Qed.

Lemma scores_follow_the_blend_witness :
  exists hits cands,
    candidate_hits demo_libs demo_globals (lit "Vitamin C") = Ok hits /\
    recall demo_libs (faiss_index demo_globals) (encode demo_libs (lit "Vitamin C"))
      demo_embeddings demo_lookup = Ok cands /\
    length cands = 4%nat /\
    Forall2
      (fun (c : Z * Q) (h : hit) =>
         exists r,
           iloc demo_lookup (fst c) = Ok r /\
           section h = py_str (row_section r) /\
           (semantic_score h, lexical_score h, confidence h) =
           spec_scores (snd c)
             (lexical demo_libs
                      (normalize_query_lex (ucd demo_libs) (Str (lit "Vitamin C")))
                      (py_str (row_text r)) (py_str (row_canonical r)))
             (section h))
      cands hits.
Proof.
  destruct (scores_follow_the_blend demo_libs demo_globals (lit "Vitamin C") _
              ltac:(vm_compute; reflexivity))
    as (_ & embs & df & cands & E & D & R & F).
  injection E as <-. injection D as <-.
  eexists. exists cands. split; [vm_compute; reflexivity|].
  split; [exact R|]. split; [|exact F].
  assert (R' := R). vm_compute in R'. injection R' as <-. reflexivity.
Defined.

(** ** The ranges of the reported numbers *)



(** The blended score, times 100, for each of the three multipliers. *)
Lemma final_score_values (sem lex : Q) (s : str) :
  (s = lit "CANON_LAT" /\
   final_score sem s lex * 100 == (7875 # 100) * sem + 25 * lex)%Q \/
  (s = lit "SYN_LAT" /\
   final_score sem s lex * 100 == (7125 # 100) * sem + 25 * lex)%Q \/
  (s <> lit "CANON_LAT" /\ s <> lit "SYN_LAT" /\
   final_score sem s lex * 100 == 75 * sem + 25 * lex)%Q.
Proof.
  unfold final_score, ALPHA_SEM.
  destruct (section_boost_values s) as [[E ->] | [[E ->] | (E1 & E2 & ->)]];
    [left | right; left | right; right]; repeat split; auto; ring.
Qed.






(** A negative inner product is reported as it is. *)
Example negative_similarity :
  let h := make_hit demo_libs (lit "salt") (join salt None) (- (1 # 2)) in
  semantic_score h = (-500) # 1000 /\ confidence h = (-125) # 10.
Proof. vm_compute. split; reflexivity. Qed.

(** ** The reported semantic score *)

Lemma blend_gap (c ss ls ru sem lex u k : Q) :
  (c - (1 # 20) <= k * sem + 25 * lex /\ k * sem + 25 * lex <= c + (1 # 20))%Q ->
  (ss - (1 # 2000) <= sem /\ sem <= ss + (1 # 2000))%Q ->
  (ls - (1 # 2000) <= lex /\ lex <= ls + (1 # 2000))%Q ->
  (u == 100 * ((75 # 100) * ss + (25 # 100) * ls))%Q ->
  (ru - (1 # 20) <= u /\ u <= ru + (1 # 20))%Q ->
  (k == 7875 # 100 \/ k == 7125 # 100)%Q ->
  (1 # 20 <= sem \/ sem <= - (1 # 20))%Q ->
  ~ (c == u)%Q /\ ~ (c == ru)%Q.
Proof.
  intros [C1 C2] [S1 S2] [L1 L2] U [R1 R2] K M.
  destruct K as [K | K]; rewrite K in C1, C2; clear K;
    destruct M as [M | M]; split; intros E; lra.
Qed.

(** C10, as the code has it.  The reported semantic score is the rounded raw
    similarity; filing the row under another section changes no reported
    field but the section and the confidence; and for a CANON_LAT or SYN_LAT
    row whose raw similarity is at least 0.05 in absolute value, the
    reported confidence differs from
    [100 * (0.75 * semantic_score + 0.25 * lexical_score)], also after
    rounding that to one decimal. *)
Theorem semantic_score_is_unboosted (L : libs) (q_norm : str) (r : row) (sem : Q) :
  let h := make_hit L q_norm r sem in
  semantic_score h = round sem 3 /\
  (forall s,
     let h' := make_hit L q_norm (set_section r s) sem in
     policy_item_id h' = policy_item_id h /\ canonical h' = canonical h /\
     matched_text h' = matched_text h /\ language h' = language h /\
     semantic_score h' = semantic_score h /\ lexical_score h' = lexical_score h) /\
  (section h = lit "CANON_LAT" \/ section h = lit "SYN_LAT" ->
   (1 # 20 <= Qabs sem)%Q ->
   ~ (confidence h == unboosted_blend h)%Q /\
   ~ (confidence h == round (unboosted_blend h) 1)%Q).
Proof.
  intros h. split; [reflexivity|]. split.
  { intros s h'. repeat split. }
  intros Sec Big.
  set (lex := lexical L q_norm (py_str (row_text r)) (py_str (row_canonical r))).
  assert (M : (1 # 20 <= sem \/ sem <= - (1 # 20))%Q).
  { revert Big. apply Qabs_case; intros; lra. }
  pose proof (round1_near (final_score sem (py_str (row_section r)) lex * 100)) as C.
  pose proof (round3_near sem) as S.
  pose proof (round3_near lex) as Lx.
  pose proof (round1_near (unboosted_blend h)) as Ru.
  assert (K : exists k, (k == 7875 # 100 \/ k == 7125 # 100)%Q /\
                        (final_score sem (py_str (row_section r)) lex * 100 ==
                         k * sem + 25 * lex)%Q).
  { destruct (final_score_values sem lex (py_str (row_section r)))
      as [[E F] | [[E F] | (E1 & E2 & F)]].
    - exists (7875 # 100). split; [left; reflexivity | exact F].
    - exists (7125 # 100). split; [right; reflexivity | exact F].
    - exfalso. destruct Sec as [Sec | Sec]; [apply E1 | apply E2]; exact Sec. }
  destruct K as (k & K & F).
  assert (C' : (confidence h - (1 # 20) <= k * sem + 25 * lex /\
                k * sem + 25 * lex <= confidence h + (1 # 20))%Q).
  { split; rewrite <- F; apply C. }
  eapply (blend_gap (confidence h) (semantic_score h) (lexical_score h)
            (round (unboosted_blend h) 1) sem lex (unboosted_blend h) k);
    try eassumption.
  reflexivity.
Qed.

Lemma semantic_score_is_unboosted_witness :
  let r := set_section (join salt None) (Some (lit "CANON_LAT")) in
  let h := make_hit demo_libs (lit "salt") r 1 in
  (section h = lit "CANON_LAT" \/ section h = lit "SYN_LAT") /\
  (1 # 20 <= Qabs 1)%Q /\
  semantic_score h = round 1 3 /\
  ~ (confidence h == unboosted_blend h)%Q /\
  ~ (confidence h == round (unboosted_blend h) 1)%Q.
Proof.
  intros r h.
  assert (A : section h = lit "CANON_LAT" \/ section h = lit "SYN_LAT")
    by (left; reflexivity).
  assert (B : (1 # 20 <= Qabs 1)%Q) by (vm_compute; discriminate).
  split; [exact A|]. split; [exact B|].
  destruct (semantic_score_is_unboosted demo_libs (lit "salt") r 1) as (S & _ & N).
  split; [exact S | exact (N A B)].
Defined.

(** C10 fails, read for every CANON_LAT row: at the raw similarity 0 the
    boost changes nothing, and the confidence is the blend of the two
    reported scores. *)
Lemma blend_recovers_at_zero :
  let r := set_section (join salt None) (Some (lit "CANON_LAT")) in
  let h := make_hit demo_libs (lit "salt") r 0 in
  section h = lit "CANON_LAT" /\
  semantic_score h = 0 # 1000 /\ lexical_score h = 1000 # 1000 /\
  confidence h = 250 # 10 /\
  (confidence h == unboosted_blend h)%Q.
Proof. vm_compute. repeat split. Qed.

(** ** Aggregation by entity *)

Lemma firstn_incl {A : Type} (n : nat) (l : list A) : incl (firstn n l) l.
Proof.
  intros x I. rewrite <- (firstn_skipn n l). apply in_or_app. now left.
Qed.

Lemma firstn_NoDup {A : Type} (n : nat) (l : list A) : NoDup l -> NoDup (firstn n l).
Proof.
  intros H. rewrite <- (firstn_skipn n l) in H. eapply NoDup_app_remove_r, H.
Qed.

Lemma slice_to_incl {A : Type} (l : list A) (k : Z) : incl (slice_to l k) l.
Proof. unfold slice_to. destruct (0 <=? k); apply firstn_incl. Qed.

Lemma slice_to_map {A B : Type} (f : A -> B) (l : list A) (k : Z) :
  map f (slice_to l k) = slice_to (map f l) k.
Proof.
  unfold slice_to. rewrite length_map. destruct (0 <=? k); now rewrite firstn_map.
Qed.

Lemma slice_to_NoDup {A : Type} (l : list A) (k : Z) : NoDup l -> NoDup (slice_to l k).
Proof. unfold slice_to. destruct (0 <=? k); apply firstn_NoDup. Qed.

Lemma insert_by_confidence_perm (h : hit) (l : list hit) :
  Permutation (insert_by_confidence h l) (h :: l).
Proof.
  induction l as [|x l IH]; simpl; [reflexivity|].
  destruct (Qlt_bool (confidence h) (confidence x)); [|reflexivity].
  rewrite IH. apply perm_swap.
Qed.

Lemma sorted_by_confidence_perm (l : list hit) :
  Permutation (sorted_by_confidence l) l.
Proof.
  induction l as [|x l IH]; simpl; [reflexivity|].
  rewrite insert_by_confidence_perm. now constructor.
Qed.

Lemma dict_get_None (d : dict) (k : str) :
  dict_get d k = None <-> ~ In k (map fst d).
Proof.
  induction d as [|[k' v] d IH]; simpl; [tauto|].
  destruct (str_eqb k k') eqn:E.
  - apply str_eqb_eq in E. subst. split; [discriminate | tauto].
  - apply str_eqb_neq in E. rewrite IH. split.
    + intros H [F|F]; [congruence | exact (H F)].
    + intros H F. apply H. now right.
Qed.

Lemma dict_set_keys (d : dict) (k : str) (v : hit) :
  (In k (map fst d) -> map fst (dict_set d k v) = map fst d) /\
  (~ In k (map fst d) -> map fst (dict_set d k v) = map fst d ++ [k]).
Proof.
  induction d as [|[k' v'] d [IH1 IH2]]; simpl.
  - split; [contradiction | reflexivity].
  - destruct (str_eqb k k') eqn:E; simpl.
    + apply str_eqb_eq in E. subst. split; [reflexivity | tauto].
    + apply str_eqb_neq in E. split.
      * intros [F|F]; [congruence | now rewrite IH1].
      * intros F. rewrite IH2; tauto.
Qed.

Lemma dict_set_In (d : dict) (k : str) (v : hit) (e : str * hit) :
  In e (dict_set d k v) -> e = (k, v) \/ In e d.
Proof.
  induction d as [|[k' v'] d IH]; simpl.
  - intros [<- | []]. now left.
  - destruct (str_eqb k k') eqn:E; simpl.
    + apply str_eqb_eq in E. subst. intros [<- | I]; auto.
    + intros [<- | I]; auto. destruct (IH I); auto.
Qed.

Lemma dict_set_NoDup (d : dict) (k : str) (v : hit) :
  NoDup (map fst d) -> NoDup (map fst (dict_set d k v)).
Proof.
  intros N. destruct (in_dec (list_eq_dec Z.eq_dec) k (map fst d)) as [I|I].
  - now rewrite (proj1 (dict_set_keys d k v) I).
  - rewrite (proj2 (dict_set_keys d k v) I).
    apply NoDup_app; [exact N | repeat constructor; simpl; tauto |].
    intros a Ia [<- | []]. exact (I Ia).
Qed.

(** What the dictionary of the aggregation loop satisfies: the keys are
    distinct, and a key holds a hit of that entity, read before, whose
    confidence is at least the floor. *)
Lemma keep_best_invariant (seen : list hit) (d : dict) (h : hit) :
  NoDup (map fst d) /\
  (forall k v, In (k, v) d ->
     policy_item_id v = k /\ In v seen /\ (50 <= confidence v)%Q) ->
  NoDup (map fst (keep_best d h)) /\
  (forall k v, In (k, v) (keep_best d h) ->
     policy_item_id v = k /\ In v (h :: seen) /\ (50 <= confidence v)%Q).
Proof.
  intros [N E]. unfold keep_best.
  assert (Old : forall k v, In (k, v) d ->
            policy_item_id v = k /\ In v (h :: seen) /\ (50 <= confidence v)%Q).
  { intros k v I. destruct (E k v I) as (A & B & C). repeat split; simpl; auto. }
  destruct (match dict_get d (policy_item_id h) with
            | Some b => Qlt_bool (confidence b) (confidence h)
            | None => true
            end); [|now split].
  destruct (Qle_bool (MIN_CONFIDENCE * 100) (confidence h)) eqn:F; [|now split].
  split; [now apply dict_set_NoDup|].
  intros k v I. destruct (dict_set_In _ _ _ _ I) as [[= -> ->] | I']; [|now apply Old].
  apply Qle_bool_iff in F. repeat split; simpl; auto.
  unfold MIN_CONFIDENCE in F. lra.
Qed.

Lemma aggregate_from_invariant (l seen : list hit) (d : dict) :
  NoDup (map fst d) /\
  (forall k v, In (k, v) d ->
     policy_item_id v = k /\ In v seen /\ (50 <= confidence v)%Q) ->
  NoDup (map fst (fold_left keep_best l d)) /\
  (forall k v, In (k, v) (fold_left keep_best l d) ->
     policy_item_id v = k /\ In v (rev l ++ seen) /\ (50 <= confidence v)%Q).
Proof.
  revert seen d; induction l as [|h l IH]; intros seen d H; simpl; [exact H|].
  destruct (IH (h :: seen) (keep_best d h) (keep_best_invariant seen d h H)) as [N E].
  split; [exact N|]. intros k v I. destruct (E k v I) as (A & B & C).
  repeat split; auto. rewrite <- app_assoc. exact B.
Qed.

Lemma aggregate_invariant (hits : list hit) :
  NoDup (map fst (aggregate hits)) /\
  (forall k v, In (k, v) (aggregate hits) ->
     policy_item_id v = k /\ In v hits /\ (50 <= confidence v)%Q).
Proof.
  destruct (aggregate_from_invariant hits [] []) as [N E].
  { split; [constructor | contradiction]. }
  split; [exact N|]. intros k v I. destruct (E k v I) as (A & B & C).
  repeat split; auto. rewrite app_nil_r in B. now apply in_rev.
Qed.

Lemma values_keys (d : dict) :
  (forall k v, In (k, v) d -> policy_item_id v = k) ->
  map policy_item_id (values d) = map fst d.
Proof.
  unfold values. induction d as [|[k v] d IH]; simpl; intros H; [reflexivity|].
  rewrite (H k v) by now left. f_equal. apply IH. intros; apply H; now right.
Qed.

Lemma rank_incl (hits : list hit) (top_k : Z) (h : hit) :
  In h (rank hits top_k) -> In h hits /\ (50 <= confidence h)%Q.
Proof.
  unfold rank. intros I. apply slice_to_incl in I.
  apply (Permutation_in _ (sorted_by_confidence_perm _)) in I.
  unfold values in I. apply in_map_iff in I. destruct I as [[k v] [<- I]].
  destruct (aggregate_invariant hits) as [_ E]. destruct (E k v I) as (_ & B & C).
  simpl. auto.
Qed.

Lemma rank_NoDup (hits : list hit) (top_k : Z) :
  NoDup (map policy_item_id (rank hits top_k)).
Proof.
  unfold rank. rewrite slice_to_map. apply slice_to_NoDup.
  destruct (aggregate_invariant hits) as [N E].
  apply (Permutation_NoDup (l := map policy_item_id (values (aggregate hits)))).
  - apply Permutation_map. symmetry. apply sorted_by_confidence_perm.
  - rewrite values_keys; [exact N|]. intros k v I. now destruct (E k v I).
Qed.

Lemma search_ai_inv (L : libs) (g : globals) (query : str) (top_k : Z)
    (results : list hit) :
  search_ai L g query top_k = Ok results ->
  exists hits, candidate_hits L g query = Ok hits /\ results = rank hits top_k.
Proof.
  unfold search_ai, bind. destruct (candidate_hits L g query) as [hits|]; [|discriminate].
  intros [= <-]. now exists hits.
Qed.

(** C1.  No two hits of a result list have the same [policy_item_id]. *)
Theorem results_one_per_entity (L : libs) (g : globals) (query : str)
    (top_k : Z) (results : list hit) :
  search_ai L g query top_k = Ok results ->
  NoDup (map policy_item_id results).
Proof.
  intros H. destruct (search_ai_inv L g query top_k results H) as (hits & _ & ->).
  apply rank_NoDup.
Qed.

Lemma results_one_per_entity_witness :
  exists results,
    search_ai demo_libs demo_globals (lit "Vitamin C") 10 = Ok results /\
    length results = 2%nat /\
    NoDup (map policy_item_id results).
Proof.
  eexists. split; [vm_compute; reflexivity|]. split; [reflexivity|].
  apply (results_one_per_entity demo_libs demo_globals (lit "Vitamin C") 10).
  vm_compute. reflexivity.
Defined.

(** C2.  Every hit of a result list has a confidence of at least 50, which
    is [MIN_CONFIDENCE * 100]; the results are hits of the scoring loop, so
    an entity all of whose hits are below 50 is in no result. *)
Theorem results_above_floor (L : libs) (g : globals) (query : str)
    (top_k : Z) (results : list hit) :
  search_ai L g query top_k = Ok results ->
  (MIN_CONFIDENCE * 100 == 50)%Q /\
  Forall (fun h => (50 <= confidence h)%Q) results /\
  exists hits,
    candidate_hits L g query = Ok hits /\
    incl results hits /\
    forall pid,
      (forall h, In h hits -> policy_item_id h = pid -> (confidence h < 50)%Q) ->
      ~ In pid (map policy_item_id results).
Proof.
  intros H. destruct (search_ai_inv L g query top_k results H) as (hits & C & ->).
  split; [reflexivity|]. split.
  - apply Forall_forall. intros h I. now apply rank_incl in I.
  - exists hits. split; [exact C|]. split.
    + intros h I. now apply rank_incl in I.
    + intros pid Low I. apply in_map_iff in I. destruct I as (h & <- & I).
      apply rank_incl in I. destruct I as [I F].
      specialize (Low h I eq_refl). lra.
Qed.

Lemma results_above_floor_witness :
  exists results,
    search_ai demo_libs demo_globals (lit "Vitamin C") 10 = Ok results /\
    Forall (fun h => (50 <= confidence h)%Q) results /\
    ~ In (lit "3") (map policy_item_id results).
Proof.
  eexists. split; [vm_compute; reflexivity|].
  destruct (results_above_floor demo_libs demo_globals (lit "Vitamin C") 10 _
              ltac:(vm_compute; reflexivity)) as (_ & F & _).
  split; [exact F|].
  vm_compute. intros [H | [H | []]]; discriminate H.
Defined.

(** ** Recall without an index *)

Lemma Qlt_bool_iff (x y : Q) : Qlt_bool x y = true <-> (x < y)%Q.
Proof.
  unfold Qlt_bool. rewrite negb_true_iff. split.
  - intros H. apply Qnot_le_lt. intros F. apply Qle_bool_iff in F. congruence.
  - intros H. apply not_true_is_false. intros F. apply Qle_bool_iff in F. lra.
Qed.

Lemma Qlt_bool_false (x y : Q) : Qlt_bool x y = false <-> (y <= x)%Q.
Proof.
  unfold Qlt_bool. rewrite negb_false_iff. apply Qle_bool_iff.
Qed.

Lemma StronglySorted_app_inv {A : Type} (R : A -> A -> Prop) (l1 l2 : list A) :
  StronglySorted R (l1 ++ l2) ->
  StronglySorted R l1 /\ StronglySorted R l2 /\
  (forall x y, In x l1 -> In y l2 -> R x y).
Proof.
  induction l1 as [|a l1 IH]; simpl; intros H.
  - repeat split; [constructor | exact H | contradiction].
  - apply StronglySorted_inv in H. destruct H as [S F].
    destruct (IH S) as (S1 & S2 & C). rewrite Forall_forall in F.
    repeat split; auto.
    + constructor; [exact S1|]. apply Forall_forall. intros x I.
      apply F, in_or_app. now left.
    + intros x y [<- | I] J; [apply F, in_or_app; now right | now apply C].
Qed.

Lemma StronglySorted_app {A : Type} (R : A -> A -> Prop) (l1 l2 : list A) :
  StronglySorted R l1 -> StronglySorted R l2 ->
  (forall x y, In x l1 -> In y l2 -> R x y) ->
  StronglySorted R (l1 ++ l2).
Proof.
  induction 1 as [|a l1 S IH F]; simpl; intros S2 C; [exact S2|].
  constructor.
  - apply IH; [exact S2|]. intros x y I J. apply C; [now right | exact J].
  - apply Forall_forall. intros x I. apply in_app_or in I. destruct I as [I | I].
    + rewrite Forall_forall in F. now apply F.
    + apply C; [now left | exact I].
Qed.

Lemma StronglySorted_rev {A : Type} (R : A -> A -> Prop) (l : list A) :
  StronglySorted R l -> StronglySorted (fun x y => R y x) (rev l).
Proof.
  induction 1 as [|a l S IH F]; simpl; [constructor|].
  apply StronglySorted_app; [exact IH | repeat constructor |].
  intros x y I [<- | []]. rewrite Forall_forall in F. apply F. now apply in_rev.
Qed.

Lemma take_all (sims : list Q) (idx : list nat) :
  (forall i, In i idx -> (i < length sims)%nat) ->
  take sims idx = Ok (map (fun i => nth i sims 0%Q) idx).
Proof.
  unfold take. induction idx as [|i idx IH]; simpl; intros H; [reflexivity|].
  destruct (nth_error sims i) as [s|] eqn:N.
  - rewrite IH by (intros; apply H; now right).
    now rewrite (nth_error_nth _ _ _ N).
  - apply nth_error_None in N. specialize (H i (or_introl eq_refl)). lia.
Qed.

Lemma combine_map_same {A B C : Type} (f : A -> B) (g : A -> C) (l : list A) :
  combine (map f l) (map g l) = map (fun a => (f a, g a)) l.
Proof. induction l; simpl; congruence. Qed.

(** C7, as the code has it.  Without an index the candidates are the first
    [min RECALL_K catalog_size] positions of the reversed argsort of the
    cosine similarities of all stored embeddings: distinct positions, of
    descending similarity, none of them below a position left out.  The
    order among equal similarities is the reverse of the order the argsort
    gives them. *)
Theorem recall_takes_the_most_similar (L : libs) (g_index : option (list vec))
    (q_emb : vec) (embs : list vec) (df : list row) :
  argsort_sorts (argsort L) ->
  faiss L = None \/ g_index = None ->
  embs <> [] ->
  let sims := map (cosine L q_emb) embs in
  let k := Nat.min RECALL_K (length df) in
  exists idx,
    recall L g_index q_emb embs df =
      Ok (map (fun i => (Z.of_nat i, nth i sims 0%Q)) idx) /\
    idx = firstn k (rev (argsort L sims)) /\
    length idx = Nat.min k (length embs) /\
    NoDup idx /\
    (forall i, In i idx -> (i < length embs)%nat) /\
    StronglySorted (fun i j => (nth j sims 0 <= nth i sims 0)%Q) idx /\
    (forall i j, In i idx -> (j < length embs)%nat -> ~ In j idx ->
                 (nth j sims 0 <= nth i sims 0)%Q).
Proof.
  intros Sorts NoIndex NonEmpty sims k.
  destruct (Sorts sims) as [P S].
  assert (Len : length sims = length embs) by apply length_map.
  set (order := rev (argsort L sims)).
  assert (PO : Permutation order (List.seq 0 (length embs))).
  { unfold order. rewrite <- Permutation_rev, <- Len. exact P. }
  assert (SO : StronglySorted (fun i j => (nth j sims 0 <= nth i sims 0)%Q) order).
  { unfold order. now apply StronglySorted_rev in S. }
  assert (Range : forall i, In i order -> (i < length embs)%nat).
  { intros i I. apply (Permutation_in _ PO), in_seq in I. lia. }
  exists (firstn k order).
  rewrite <- (firstn_skipn k order) in SO.
  destruct (StronglySorted_app_inv _ _ _ SO) as (S1 & _ & Cross).
  repeat split.
  - assert (E : recall L g_index q_emb embs df = recall_by_cosine L q_emb embs k).
    { unfold recall. fold k. destruct NoIndex as [-> | ->]; [reflexivity|].
      now destruct (faiss L). }
    rewrite E. unfold recall_by_cosine, cosine_similarity, bind.
    destruct embs as [|e embs']; [congruence|]. fold sims. fold order.
    rewrite take_all.
    + now rewrite combine_map_same.
    + intros i I. rewrite Len. now apply Range, (firstn_incl k).
  - rewrite length_firstn. f_equal.
    rewrite (Permutation_length PO). apply length_seq.
  - apply firstn_NoDup. apply (Permutation_NoDup (Permutation_sym PO)), seq_NoDup.
  - intros i I. now apply Range, (firstn_incl k).
  - exact S1.
  - intros i j I J N. apply Cross; [exact I|].
    assert (In j order) as O.
    { apply (Permutation_in _ (Permutation_sym PO)), in_seq. lia. }
    rewrite <- (firstn_skipn k order) in O. apply in_app_or in O. tauto.
Qed.

Lemma insert_index_perm (sims : list Q) (i : nat) (l : list nat) :
  Permutation (insert_index sims i l) (i :: l).
Proof.
  induction l as [|j l IH]; simpl; [reflexivity|].
  destruct (Qlt_bool (nth j sims 0%Q) (nth i sims 0%Q)); [|reflexivity].
  rewrite IH. apply perm_swap.
Qed.

Lemma insert_index_sorted (sims : list Q) (i : nat) (l : list nat) :
  StronglySorted (fun a b => (nth a sims 0 <= nth b sims 0)%Q) l ->
  StronglySorted (fun a b => (nth a sims 0 <= nth b sims 0)%Q) (insert_index sims i l).
Proof.
  induction 1 as [|j l S IH F]; simpl; [repeat constructor|].
  destruct (Qlt_bool (nth j sims 0%Q) (nth i sims 0%Q)) eqn:E.
  - apply Qlt_bool_iff in E. constructor; [exact IH|].
    apply (Permutation_Forall (Permutation_sym (insert_index_perm sims i l))).
    constructor; [lra | exact F].
  - apply Qlt_bool_false in E. constructor; [now constructor|].
    constructor; [exact E|].
    eapply Forall_impl; [|exact F]. simpl. intros a H. lra.
Qed.

Lemma stable_argsort_sorts : argsort_sorts stable_argsort.
Proof.
  intros l. unfold stable_argsort. generalize (List.seq 0 (length l)) as idx.
  intros idx. split.
  - induction idx as [|i idx IH]; simpl; [reflexivity|].
    rewrite insert_index_perm. now constructor.
  - induction idx as [|i idx IH]; simpl; [constructor|].
    now apply insert_index_sorted.
Qed.

Lemma recall_takes_the_most_similar_witness :
  argsort_sorts (argsort demo_libs) /\
  (faiss demo_libs = None \/ @None (list vec) = None) /\
  demo_embeddings <> [] /\
  exists idx,
    recall demo_libs None [1; 0]%Q demo_embeddings demo_lookup =
      Ok (map (fun i => (Z.of_nat i,
                         nth i (map (cosine demo_libs [1; 0]%Q) demo_embeddings) 0%Q))
              idx) /\
    idx = [0; 2; 1; 3]%nat /\
    idx = firstn (Nat.min RECALL_K (length demo_lookup))
            (rev (argsort demo_libs (map (cosine demo_libs [1; 0]%Q) demo_embeddings))) /\
    NoDup idx /\
    StronglySorted
      (fun i j => (nth j (map (cosine demo_libs [1; 0]%Q) demo_embeddings) 0 <=
                   nth i (map (cosine demo_libs [1; 0]%Q) demo_embeddings) 0)%Q) idx.
Proof.
  assert (A : faiss demo_libs = None \/ @None (list vec) = None) by (left; reflexivity).
  assert (B : demo_embeddings <> []) by discriminate.
  split; [exact stable_argsort_sorts|]. split; [exact A|]. split; [exact B|].
  destruct (recall_takes_the_most_similar demo_libs None [1; 0]%Q demo_embeddings
              demo_lookup stable_argsort_sorts A B)
    as (idx & R & E & _ & N & _ & S & _).
  exists idx. repeat split; auto.
Defined.

(** C7 fails on two rows of equal similarity: rows 1 and 2 of the example
    catalog both have similarity 4/5 with the query, and row 2 comes
    first. *)
Lemma ties_not_in_catalog_order :
  exists cands,
    recall demo_libs None (encode demo_libs (lit "Vitamin C"))
           demo_embeddings demo_lookup = Ok cands /\
    ~ ties_in_catalog_order cands.
Proof.
  eexists. split; [vm_compute; reflexivity|].
  intros T.
  specialize (T 1%nat 2%nat (2, 20 # 25) (1, 20 # 25) ltac:(lia) eq_refl eq_refl
                ltac:(reflexivity)).
  simpl in T. lia.
Qed.

Lemma insert_index_stable (sims : list Q) (i : nat) (l : list nat) :
  Forall (fun j => (i < j)%nat) l ->
  StronglySorted (fun a b => (nth a sims 0 < nth b sims 0)%Q \/
                             ((nth a sims 0 == nth b sims 0)%Q /\ (a < b)%nat)) l ->
  StronglySorted (fun a b => (nth a sims 0 < nth b sims 0)%Q \/
                             ((nth a sims 0 == nth b sims 0)%Q /\ (a < b)%nat))
                 (insert_index sims i l).
Proof.
  intros G S. induction S as [|j l S IH F]; simpl; [repeat constructor|].
  apply Forall_cons_iff in G. destruct G as [Gj G].
  destruct (Qlt_bool (nth j sims 0%Q) (nth i sims 0%Q)) eqn:E.
  - apply Qlt_bool_iff in E. constructor; [now apply IH|].
    apply (Permutation_Forall (Permutation_sym (insert_index_perm sims i l))).
    constructor; [now left | exact F].
  - apply Qlt_bool_false in E. constructor; [now constructor|].
    assert (Rij : (nth i sims 0 < nth j sims 0)%Q \/
                  ((nth i sims 0 == nth j sims 0)%Q /\ (i < j)%nat)).
    { destruct (Qlt_le_dec (nth i sims 0%Q) (nth j sims 0%Q)) as [Lt | Ge];
        [now left | right]. split; [lra | exact Gj]. }
    constructor; [exact Rij|].
    rewrite Forall_forall in F, G. apply Forall_forall. intros x I.
    specialize (F x I). specialize (G x I).
    destruct F as [F | [F _]].
    + left. lra.
    + destruct (Qlt_le_dec (nth i sims 0%Q) (nth x sims 0%Q)) as [Lt | Ge];
        [now left | right]. split; [lra | exact G].
Qed.

Lemma stable_argsort_from (sims : list Q) (start len : nat) :
  let l := fold_right (insert_index sims) [] (List.seq start len) in
  Forall (fun j => (start <= j)%nat) l /\
  StronglySorted (fun a b => (nth a sims 0 < nth b sims 0)%Q \/
                             ((nth a sims 0 == nth b sims 0)%Q /\ (a < b)%nat)) l.
Proof.
  revert start; induction len as [|len IH]; intros start; simpl.
  - split; constructor.
  - destruct (IH (S start)) as [G S]. split.
    + apply (Permutation_Forall (Permutation_sym (insert_index_perm sims start _))).
      constructor; [lia|]. eapply Forall_impl; [|exact G]. simpl. lia.
    + apply insert_index_stable; [|exact S].
      eapply Forall_impl; [|exact G]. simpl. lia.
Qed.

(** With the stable argsort, candidates come by descending similarity and,
    among equal similarities, by descending position. *)
Lemma stable_recall_order (sims : list Q) (k : nat) :
  StronglySorted (fun i j => (nth j sims 0 < nth i sims 0)%Q \/
                             ((nth j sims 0 == nth i sims 0)%Q /\ (j < i)%nat))
                 (firstn k (rev (stable_argsort sims))).
Proof.
  destruct (stable_argsort_from sims 0 (length sims)) as [_ S].
  apply StronglySorted_rev in S. fold (stable_argsort sims) in S.
  rewrite <- (firstn_skipn k (rev (stable_argsort sims))) in S.
  now apply StronglySorted_app_inv in S.
Qed.

(** ** The best hit of an entity, and the order of the results *)

Lemma dict_get_In (d : dict) (k : str) (v : hit) :
  dict_get d k = Some v -> In (k, v) d.
Proof.
  induction d as [|[k' v'] d IH]; simpl; [discriminate|].
  destruct (str_eqb k k') eqn:E.
  - apply str_eqb_eq in E. subst. intros [= ->]. now left.
  - intros H. right. now apply IH.
Qed.

Lemma dict_unique (d : dict) (k : str) (v v' : hit) :
  NoDup (map fst d) -> In (k, v) d -> In (k, v') d -> v = v'.
Proof.
  induction d as [|[k0 v0] d IH]; simpl; [contradiction|].
  intros N. apply NoDup_cons_iff in N. destruct N as [N0 N].
  intros [[= -> ->] | I] [[= <-] | I']; auto.
  - exfalso. apply N0. apply in_map_iff. now exists (k, v').
  - exfalso. subst. apply N0. apply in_map_iff. now exists (k0, v).
Qed.

Lemma dict_set_has (d : dict) (k : str) (v : hit) : In (k, v) (dict_set d k v).
Proof.
  induction d as [|[k' v'] d IH]; simpl; [now left|].
  destruct (str_eqb k k') eqn:E.
  - apply str_eqb_eq in E. subst. now left.
  - now right.
Qed.

Lemma dict_set_other (d : dict) (k k' : str) (v v' : hit) :
  k' <> k -> In (k', v') d -> In (k', v') (dict_set d k v).
Proof.
  intros Neq. induction d as [|[k0 v0] d IH]; simpl; [contradiction|].
  destruct (str_eqb k k0) eqn:E.
  - apply str_eqb_eq in E. subst. intros [[= <- <-] | I]; [congruence | now right].
  - intros [H | I]; [now left | right; now apply IH].
Qed.

(** Every hit read so far that reaches the floor is matched or beaten by
    the hit stored for its entity. *)
Lemma keep_best_covers (seen : list hit) (d : dict) (x : hit) :
  NoDup (map fst d) ->
  (forall h, In h seen -> (50 <= confidence h)%Q ->
     exists v, In (policy_item_id h, v) d /\ (confidence h <= confidence v)%Q) ->
  forall h, In h (x :: seen) -> (50 <= confidence h)%Q ->
    exists v, In (policy_item_id h, v) (keep_best d x) /\
              (confidence h <= confidence v)%Q.
Proof.
  intros N J h I F. unfold keep_best.
  destruct (dict_get d (policy_item_id x)) as [b|] eqn:G.
  - apply dict_get_In in G.
    destruct (Qlt_bool (confidence b) (confidence x)) eqn:B.
    + apply Qlt_bool_iff in B.
      destruct (Qle_bool (MIN_CONFIDENCE * 100) (confidence x)) eqn:T.
      * destruct I as [<- | I].
        { exists x. split; [apply dict_set_has | lra]. }
        destruct (J h I F) as (v & Iv & Le).
        destruct (list_eq_dec Z.eq_dec (policy_item_id h) (policy_item_id x)) as [E | E].
        { exists x. rewrite E. split; [apply dict_set_has|].
          rewrite E in Iv. rewrite (dict_unique d _ v b N Iv G) in Le. lra. }
        { exists v. split; [now apply dict_set_other | exact Le]. }
      * destruct I as [<- | I]; [|now apply J].
        exfalso. apply not_true_iff_false in T. apply T, Qle_bool_iff.
        unfold MIN_CONFIDENCE. lra.
    + apply Qlt_bool_false in B. destruct I as [<- | I]; [|now apply J].
      exists b. split; [exact G | exact B].
  - destruct (Qle_bool (MIN_CONFIDENCE * 100) (confidence x)) eqn:T.
    + destruct I as [<- | I].
      { exists x. split; [apply dict_set_has | lra]. }
      destruct (J h I F) as (v & Iv & Le).
      exists v. split; [|exact Le]. apply dict_set_other; [|exact Iv].
      intros E. apply dict_get_None in G. apply G. rewrite <- E.
      apply in_map_iff. now exists (policy_item_id h, v).
    + destruct I as [<- | I]; [|now apply J].
      exfalso. apply not_true_iff_false in T. apply T, Qle_bool_iff.
      unfold MIN_CONFIDENCE. lra.
Qed.

Lemma aggregate_from_covers (l seen : list hit) (d : dict) :
  NoDup (map fst d) ->
  (forall h, In h seen -> (50 <= confidence h)%Q ->
     exists v, In (policy_item_id h, v) d /\ (confidence h <= confidence v)%Q) ->
  forall h, In h (rev l ++ seen) -> (50 <= confidence h)%Q ->
    exists v, In (policy_item_id h, v) (fold_left keep_best l d) /\
              (confidence h <= confidence v)%Q.
Proof.
  revert seen d; induction l as [|x l IH]; intros seen d N J; simpl; [exact J|].
  intros h I. rewrite <- app_assoc in I. simpl in I. revert h I.
  apply IH.
  - unfold keep_best.
    destruct (match dict_get d (policy_item_id x) with
              | Some b => Qlt_bool (confidence b) (confidence x)
              | None => true
              end); [|exact N].
    destruct (Qle_bool _ _); [now apply dict_set_NoDup | exact N].
  - now apply keep_best_covers.
Qed.

(** The hit kept for an entity is one of greatest confidence among the hits
    of that entity. *)
Lemma aggregate_keeps_best (hits : list hit) (k : str) (v h : hit) :
  In (k, v) (aggregate hits) -> In h hits -> policy_item_id h = k ->
  (confidence h <= confidence v)%Q.
Proof.
  intros Iv Ih E.
  destruct (aggregate_invariant hits) as [N Inv].
  destruct (Inv k v Iv) as (_ & _ & Fv).
  destruct (Qlt_le_dec (confidence h) 50) as [Low | F]; [lra|].
  destruct (aggregate_from_covers hits [] [] (NoDup_nil _)) with (h := h)
    as (v' & Iv' & Le); auto.
  - intros ? [].
  - rewrite app_nil_r. now apply in_rev in Ih.
  - rewrite E in Iv'. fold (aggregate hits) in Iv'.
    now rewrite (dict_unique _ k v v' N Iv Iv').
Qed.

Lemma insert_by_confidence_sorted (h : hit) (l : list hit) :
  StronglySorted (fun a b => (confidence b <= confidence a)%Q) l ->
  StronglySorted (fun a b => (confidence b <= confidence a)%Q)
                 (insert_by_confidence h l).
Proof.
  induction 1 as [|x l S IH F]; simpl; [repeat constructor|].
  destruct (Qlt_bool (confidence h) (confidence x)) eqn:E.
  - apply Qlt_bool_iff in E. constructor; [exact IH|].
    apply (Permutation_Forall (Permutation_sym (insert_by_confidence_perm h l))).
    constructor; [lra | exact F].
  - apply Qlt_bool_false in E. constructor; [now constructor|].
    constructor; [exact E|].
    eapply Forall_impl; [|exact F]. simpl. intros a H. lra.
Qed.

Lemma sorted_by_confidence_sorted (l : list hit) :
  StronglySorted (fun a b => (confidence b <= confidence a)%Q)
                 (sorted_by_confidence l).
Proof.
  induction l as [|h l IH]; simpl; [constructor|].
  now apply insert_by_confidence_sorted.
Qed.

Lemma slice_to_sorted {A : Type} (R : A -> A -> Prop) (l : list A) (k : Z) :
  StronglySorted R l -> StronglySorted R (slice_to l k).
Proof.
  intros S. unfold slice_to.
  destruct (0 <=? k);
    match goal with
    | |- StronglySorted R (firstn ?n l) =>
        rewrite <- (firstn_skipn n l) in S; now apply StronglySorted_app_inv in S
    end.
Qed.

(** X1.  The results come by descending confidence, at most [top_k] of
    them for a [top_k] that is not negative, and the hit returned for an
    entity has the greatest confidence among the candidate hits of that
    entity. *)
Theorem results_ranked (L : libs) (g : globals) (query : str) (top_k : Z)
    (results hits : list hit) :
  search_ai L g query top_k = Ok results ->
  candidate_hits L g query = Ok hits ->
  StronglySorted (fun a b => (confidence b <= confidence a)%Q) results /\
  (0 <= top_k -> Z.of_nat (length results) <= top_k) /\
  (forall r h, In r results -> In h hits ->
     policy_item_id h = policy_item_id r ->
     (confidence h <= confidence r)%Q).
Proof.
  intros H C. destruct (search_ai_inv L g query top_k results H) as (hits' & C' & ->).
  rewrite C in C'. injection C' as <-.
  repeat split.
  - apply slice_to_sorted, sorted_by_confidence_sorted.
  - intros K. unfold rank, slice_to. apply Z.leb_le in K. rewrite K.
    pose proof (firstn_le_length (Z.to_nat top_k)
                  (sorted_by_confidence (values (aggregate hits)))).
    apply Z.leb_le in K. lia.
  - intros r h Ir Ih E. unfold rank in Ir. apply slice_to_incl in Ir.
    apply (Permutation_in _ (sorted_by_confidence_perm _)) in Ir.
    unfold values in Ir. apply in_map_iff in Ir. destruct Ir as [[k v] [<- Iv]].
    simpl in *. destruct (aggregate_invariant hits) as [_ Inv].
    destruct (Inv k v Iv) as (Ek & _ & _).
    apply (aggregate_keeps_best hits k v h Iv Ih). congruence.
Qed.

Lemma results_ranked_witness :
  exists results hits,
    search_ai demo_libs demo_globals (lit "Vitamin C") 1 = Ok results /\
    candidate_hits demo_libs demo_globals (lit "Vitamin C") = Ok hits /\
    length hits = 4%nat /\ length results = 1%nat /\
    StronglySorted (fun a b => (confidence b <= confidence a)%Q) results /\
    (0 <= 1 -> Z.of_nat (length results) <= 1).
Proof.
  eexists. eexists.
  split; [vm_compute; reflexivity|]. split; [vm_compute; reflexivity|].
  split; [reflexivity|]. split; [reflexivity|].
  destruct (results_ranked demo_libs demo_globals (lit "Vitamin C") 1 _ _
              ltac:(vm_compute; reflexivity) ltac:(vm_compute; reflexivity))
    as (S & K & _).
  split; [exact S | exact K].
Defined.

(** ** The empty catalog *)

(** C9 does not hold of the code: on a catalog without rows the search
    raises.  Without an index [cosine_similarity] refuses the empty array
    of embeddings; with an index the search is asked for [k = 0]
    neighbours. *)
Theorem search_on_empty_catalog_raises (L : libs) (index : option (list vec))
    (query : str) (top_k : Z) :
  search_ai L (empty_catalog index) query top_k = Raise ValueError \/
  search_ai L (empty_catalog index) query top_k = Raise AssertionError.
Proof.
  unfold search_ai, candidate_hits, recall, empty_catalog. simpl.
  destruct (faiss L) as [search|]; [destruct index as [i|]|]; simpl; auto.
Qed.

Example search_on_empty_catalog_without_index :
  search_ai demo_libs (empty_catalog None) (lit "anything") 10 = Raise ValueError.
Proof. reflexivity. Qed.

Example search_on_empty_catalog_with_index :
  search_ai demo_libs_faiss (empty_catalog (Some [])) (lit "anything") 10 =
  Raise AssertionError.
Proof. reflexivity. Qed.

(** The scoring, aggregation and ranking of no candidate give no result. *)
Lemma no_candidates_no_results (L : libs) (q_norm : str) (df : list row) (top_k : Z) :
  score_candidates L q_norm df [] = Ok [] /\ rank [] top_k = [].
Proof.
  split; [reflexivity|]. unfold rank, slice_to. simpl.
  destruct (0 <=? top_k); apply firstn_nil.
Qed.

(** ** The catalog and its embeddings *)

Lemma merge_left_length (mv : list mv_row) (can_map : list card_row) :
  (length mv <= length (merge_left mv can_map))%nat.
Proof.
  unfold merge_left. induction mv as [|r mv IH]; cbn [flat_map length]; [lia|].
  rewrite length_app.
  match goal with
  | |- (_ <= length ?m + _)%nat => assert (1 <= length m)%nat
  end.
  { destruct (filter _ can_map); simpl; lia. }
  lia.
Qed.

(** The join keeps the number of rows when no key of [mv] has two rows in
    [can_map]. *)
Lemma merge_left_aligned (mv : list mv_row) (can_map : list card_row) :
  (forall r, In r mv ->
     (length (filter (fun c => cell_eqb (card_policy_item_id c) (mv_policy_item_id r))
                     can_map) <= 1)%nat) ->
  length (merge_left mv can_map) = length mv.
Proof.
  unfold merge_left. induction mv as [|r mv IH]; cbn [flat_map length]; intros H;
    [reflexivity|].
  rewrite length_app, IH by (intros; apply H; now right).
  specialize (H r (or_introl eq_refl)).
  match goal with
  | |- (length ?m + _)%nat = _ => assert (length m = 1)%nat
  end.
  { destruct (filter _ can_map) as [|c [|c' m]]; simpl in *; lia. }
  lia.
Qed.

(** C4 does not hold of the code: with two canonical names for one entity
    in the cards file, a start without cache stores one embedding and a
    lookup table of two rows. *)
Theorem two_names_misalign (L : libs) :
  fst (initialize_model L (fresh two_names_disk)) = Ok tt /\
  sizes (snd (initialize_model L (fresh two_names_disk))) = Some (1%nat, 2%nat).
Proof.
  unfold initialize_model, build, FAISS_AVAILABLE.
  destruct (faiss L); split; reflexivity.
Qed.

(** ** Start-up and the cache *)

Lemma load_multivectors_ok (w : world) (mv : list mv_row) :
  MULTIV_PATH (disk w) = Holds mv ->
  CARDS_PATH (disk w) <> Unreadable ->
  load_multivectors w = (Ok (mv, merge_left mv (can_map_of (disk w))), w).
Proof.
  intros M C. unfold load_multivectors, seq, read, get_disk, can_map_of, ret.
  rewrite M. destruct (CARDS_PATH (disk w)) eqn:E; cbn; rewrite ?E; (reflexivity || congruence).
Qed.

Lemma initialize_model_unfold (L : libs) (w : world) (mv : list mv_row) :
  MULTIV_PATH (disk w) = Holds mv ->
  CARDS_PATH (disk w) <> Unreadable ->
  let texts := map (fun r => py_str (mv_text r)) mv in
  let lookup := merge_left mv (can_map_of (disk w)) in
  let d := disk w in
  initialize_model L w =
  match (if file_exists (EMB_MULTI d) && file_exists (LOOKUP_MULTI d) &&
            file_exists (META_MULTI d)
         then try_except (load_cache L texts)
                         (fun _ => print Msg_cache_error ;; ret false) (started w)
         else (Ok false, started w)) with
  | (Ok true, w') => (Ok tt, w')
  | (Ok false, w') => build L texts lookup w'
  | (Raise e, w') => (Raise e, w')
  end.
Proof.
  intros M C texts lookup d.
  unfold initialize_model, seq at 1 2 3. unfold print at 1 2. unfold set_vars at 1.
  cbn [vars disk stdout]. rewrite <- app_assoc. cbn [app].
  change {| vars := set_model tt (vars w); disk := disk w;
            stdout := stdout w ++ [Msg_initializing; Msg_loading_model] |}
    with (started w).
  unfold seq at 1. rewrite (load_multivectors_ok (started w) mv M C).
  unfold seq at 1. unfold get_disk at 1. cbn [fst snd].
  unfold seq at 1. cbn [started disk]. fold d. fold texts. 
  change (can_map_of d) with (can_map_of (disk w)). fold lookup.
  destruct (file_exists (EMB_MULTI d) && file_exists (LOOKUP_MULTI d) &&
            file_exists (META_MULTI d)).
  - destruct (try_except _ _ _) as [[[|]|e] w']; reflexivity.
  - reflexivity.
Qed.

Lemma skipn_app_exact {A : Type} (l m : list A) : skipn (length l) (l ++ m) = m.
Proof. induction l; simpl; auto. Qed.

(** A usable cache is loaded, and nothing else is done. *)
Lemma load_cache_usable (L : libs) (texts : list str) (w : world) :
  cache_usable L texts (disk w) = true ->
  load_cache L texts (started w) =
  (Ok true,
   {| vars := cached_globals L (vars w) (disk w);
      disk := disk w;
      stdout := stdout w ++ cached_messages L (disk w) (length texts) |}).
Proof.
  destruct w as [g [mvf cards emb idx lk mt] out].
  unfold cache_usable, cached_globals, cached_messages, started. cbn [disk vars stdout
    META_MULTI EMB_MULTI LOOKUP_MULTI IDX_MULTI].
  destruct mt as [| |m]; try discriminate.
  destruct emb as [| |e]; try discriminate.
  destruct lk as [| |l]; try discriminate.
  rewrite andb_true_iff. intros [M I].
  unfold load_cache, seq, read, print, set_vars, get_disk, ret, FAISS_AVAILABLE in *.
  cbn. rewrite M. cbn.
  destruct (faiss L); destruct idx; try discriminate; cbn;
    rewrite <- ?app_assoc; reflexivity.
Qed.

(** A cache that is not usable leaves the disk, the model and the index as
    they were, and the [try] block does not return. *)
Lemma load_cache_unusable (L : libs) (texts : list str) (w : world) :
  cache_usable L texts (disk w) = false ->
  exists w',
    try_except (load_cache L texts)
               (fun _ => print Msg_cache_error ;; ret false) w = (Ok false, w') /\
    disk w' = disk w /\
    model (vars w') = model (vars w) /\
    faiss_index (vars w') = faiss_index (vars w) /\
    exists msgs, stdout w' = stdout w ++ msgs.
Proof.
  destruct w as [g [mvf cards emb idx lk mt] out].
  unfold cache_usable. cbn [disk vars stdout META_MULTI EMB_MULTI LOOKUP_MULTI IDX_MULTI].
  intros U.
  unfold try_except, load_cache, seq, read, print, set_vars, get_disk, ret,
    FAISS_AVAILABLE in *.
  cbn.
  destruct mt as [| |m]; cbn;
    try (eexists; repeat split; eexists; reflexivity).
  destruct (meta_matches m texts); cbn;
    [|eexists; repeat split; exists []; now rewrite app_nil_r].
  destruct emb as [| |e]; cbn;
    try (eexists; repeat split; rewrite <- ?app_assoc; eexists; reflexivity).
  destruct lk as [| |l]; cbn;
    try (eexists; repeat split; rewrite <- ?app_assoc; eexists; reflexivity).
  destruct (faiss L); cbn in *; try discriminate.
  destruct idx; cbn in *; try discriminate.
  eexists; repeat split; rewrite <- ?app_assoc; eexists; reflexivity.
Qed.

(** The build overwrites what a failed attempt on the cache has left. *)
Lemma build_forgets (L : libs) (texts : list str) (lookup : list row) (w1 w2 : world) :
  MULTIV_PATH (disk w1) = MULTIV_PATH (disk w2) ->
  CARDS_PATH (disk w1) = CARDS_PATH (disk w2) ->
  IDX_MULTI (disk w1) = IDX_MULTI (disk w2) ->
  model (vars w1) = model (vars w2) ->
  faiss_index (vars w1) = faiss_index (vars w2) ->
  fst (build L texts lookup w1) = fst (build L texts lookup w2) /\
  disk (snd (build L texts lookup w1)) = disk (snd (build L texts lookup w2)) /\
  (fst (build L texts lookup w1) = Ok tt ->
   vars (snd (build L texts lookup w1)) = vars (snd (build L texts lookup w2))) /\
  (texts <> [] \/ faiss L = None -> fst (build L texts lookup w1) = Ok tt) /\
  exists rest,
    stdout (snd (build L texts lookup w1)) =
    stdout w1 ++ Msg_building (length texts) :: rest.
Proof.
  destruct w1 as [[m1 e1 i1 l1] [mvf1 cards1 emb1 idx1 lk1 mt1] out1].
  destruct w2 as [[m2 e2 i2 l2] [mvf2 cards2 emb2 idx2 lk2 mt2] out2].
  cbn [disk vars MULTIV_PATH CARDS_PATH IDX_MULTI model faiss_index].
  intros -> -> -> -> ->.
  unfold build, seq, print, set_vars, set_disk, lift, shape_1, FAISS_AVAILABLE.
  destruct (faiss L); [destruct texts|]; cbn; rewrite <- ?app_assoc; cbn;
    repeat split; try discriminate; try (eexists; reflexivity).
  intros [F | F]; congruence.
Qed.

Lemma cache_usable_files (L : libs) (texts : list str) (d : files) :
  cache_usable L texts d = true ->
  file_exists (EMB_MULTI d) && file_exists (LOOKUP_MULTI d) &&
  file_exists (META_MULTI d) = true.
Proof.
  unfold cache_usable.
  destruct (META_MULTI d), (EMB_MULTI d), (LOOKUP_MULTI d); try discriminate.
  reflexivity.
Qed.

(** The cache decision is independent of the state the start finds. *)
Lemma attempt_on_cache (L : libs) (texts : list str) (w : world) :
  cache_usable L texts (disk w) = false ->
  exists w',
    (if file_exists (EMB_MULTI (disk w)) && file_exists (LOOKUP_MULTI (disk w)) &&
        file_exists (META_MULTI (disk w))
     then try_except (load_cache L texts)
                     (fun _ => print Msg_cache_error ;; ret false) (started w)
     else (Ok false, started w)) = (Ok false, w') /\
    disk w' = disk w /\
    model (vars w') = Some tt /\
    faiss_index (vars w') = faiss_index (vars w) /\
    exists msgs, stdout w' = stdout w ++ msgs.
Proof.
  intros U.
  destruct (file_exists (EMB_MULTI (disk w)) && file_exists (LOOKUP_MULTI (disk w)) &&
            file_exists (META_MULTI (disk w))).
  - destruct (load_cache_unusable L texts (started w) U) as (w' & E & D & M & I & msgs & S).
    exists w'. repeat split; auto.
    exists ([Msg_initializing; Msg_loading_model] ++ msgs).
    rewrite S. simpl. now rewrite <- app_assoc.
  - exists (started w). repeat split; auto. eexists; reflexivity.
Qed.

(** A usable cache: the start loads it and prints no build message. *)
Example start_from_good_cache :
  cache_usable demo_libs [lit "Salt"] good_cache_disk = true /\
  initialize_model demo_libs (fresh good_cache_disk) =
  (Ok tt,
   {| vars := {| model := Some tt; embeddings := Some [[1%Q; 0%Q]];
                 faiss_index := None; lookup_df := Some [join salt None] |};
      disk := good_cache_disk;
      stdout := [Msg_initializing; Msg_loading_model; Msg_loading_cached;
                 Msg_faiss_not_available; Msg_initialized 1] |}).
Proof. split; reflexivity. Qed.

(** ** The search endpoint *)

Lemma lstrip_nil_iff (s : str) :
  lstrip s = [] <-> Forall (fun c => is_space c = true) s.
Proof.
  induction s as [|c s IH]; simpl.
  - split; [intros _; constructor | intros _; reflexivity].
  - destruct (is_space c) eqn:S.
    + rewrite IH. split; [now constructor | now inversion 1].
    + split; [discriminate | inversion 1; congruence].
Qed.

Lemma rstrip_nil_iff (s : str) :
  rstrip s = [] <-> Forall (fun c => is_space c = true) s.
Proof.
  induction s as [|c s IH]; simpl.
  - split; [intros _; constructor | intros _; reflexivity].
  - destruct (rstrip s) as [|d t] eqn:R.
    + destruct (is_space c) eqn:S.
      * split; [intros _; constructor; [exact S | now apply IH] | intros _; reflexivity].
      * split; [discriminate | inversion 1; congruence].
    + split; [discriminate|]. inversion 1; subst.
      assert (F : d :: t = []) by now apply IH. discriminate.
Qed.

(** [strip] gives the empty string exactly on white space. *)
Lemma strip_nil_iff (s : str) :
  strip s = [] <-> Forall (fun c => is_space c = true) s.
Proof.
  unfold strip. rewrite rstrip_nil_iff. split.
  - intros F. apply lstrip_nil_iff.
    pose proof (lstrip_starts_unspaced s) as U.
    destruct (lstrip s) as [|d t]; [reflexivity|].
    simpl in U. inversion F; congruence.
  - intros F. apply lstrip_nil_iff in F. rewrite F. constructor.
Qed.

Lemma strip_idempotent (s : str) : strip (strip s) = strip s.
Proof.
  unfold strip.
  rewrite (lstrip_fixed (rstrip (lstrip s))).
  - apply rstrip_idempotent.
  - apply rstrip_starts_unspaced, lstrip_starts_unspaced.
Qed.

Lemma is_empty_iff (s : str) : is_empty s = true <-> s = [].
Proof. destruct s; simpl; split; congruence. Qed.

(** X2.  The endpoint answers 400 exactly when the body is a JSON object
    whose ["query"] is missing or is a string of white space only (the
    empty string included), whatever the state of the service and whatever
    ["top_k"] is. *)
Theorem search_endpoint_rejects_exactly (L : libs) (g : globals) (request : body) :
  status_code (search_endpoint L g request) = 400 <->
  exists k,
    request = Object None k \/
    exists s, request = Object (Some (JStr s)) k /\
              Forall (fun c => is_space c = true) s.
Proof.
  split.
  - destruct request as [|v|q k]; simpl; try discriminate.
    destruct q as [[| | | |s| |]|]; simpl; try discriminate.
    + destruct (is_empty (strip s)) eqn:E.
      * intros _. exists k. right. exists s. split; [reflexivity|].
        now apply strip_nil_iff, is_empty_iff.
      * destruct (search_ai_with L g (strip s) _); discriminate.
    + intros _. exists k. now left.
  - intros [k [-> | [s [-> B]]]]; simpl; [reflexivity|].
    apply strip_nil_iff in B. now rewrite B.
Qed.

(** X3.  White space around the query does not matter: the endpoint gives
    the same answer for a query and for the query already trimmed. *)
Theorem search_endpoint_trims (L : libs) (g : globals) (s : str)
    (top_k : option json) :
  search_endpoint L g (Object (Some (JStr s)) top_k) =
  search_endpoint L g (Object (Some (JStr (strip s))) top_k).
Proof.
  simpl. now rewrite strip_idempotent.
Qed.

Lemma rank_all (hits : list hit) :
  rank hits (Z.of_nat (length (sorted_by_confidence (values (aggregate hits))))) =
  sorted_by_confidence (values (aggregate hits)).
Proof.
  unfold rank, slice_to.
  destruct (0 <=? Z.of_nat _) eqn:E; [|apply Z.leb_gt in E; lia].
  rewrite Nat2Z.id. apply firstn_all.
Qed.

Lemma search_ai_with_inv (L : libs) (g : globals) (query : str) (top_k : json)
    (results : list hit) :
  search_ai_with L g query top_k = inr results ->
  exists hits k,
    candidate_hits L g query = Ok hits /\ results = rank hits k /\
    (forall n, top_k = JInt n -> k = n).
Proof.
  unfold search_ai_with.
  destruct (candidate_hits L g query) as [hits|e]; [|discriminate].
  destruct top_k as [|b|n|x|s| |]; try discriminate; intros [= <-].
  - exists hits, (Z.of_nat (length (sorted_by_confidence (values (aggregate hits))))).
    split; [reflexivity|]. split; [now rewrite rank_all | discriminate].
  - exists hits, (if b then 1 else 0). repeat split. discriminate.
  - exists hits, n. repeat split. now intros ? [= <-].
Qed.

Lemma rank_sorted (hits : list hit) (k : Z) :
  StronglySorted (fun a b => (confidence b <= confidence a)%Q) (rank hits k).
Proof. apply slice_to_sorted, sorted_by_confidence_sorted. Qed.

Lemma rank_length (hits : list hit) (k : Z) :
  0 <= k -> Z.of_nat (length (rank hits k)) <= k.
Proof.
  intros K. unfold rank, slice_to.
  destruct (0 <=? k) eqn:E; [|apply Z.leb_gt in E; lia].
  pose proof (firstn_le_length (Z.to_nat k)
                (sorted_by_confidence (values (aggregate hits)))).
  lia.
Qed.

(** X4.  A 200 answer carries the trimmed, non-empty query of the request,
    the count of its results, and results that are sorted by descending
    confidence, have distinct [policy_item_id]s and a confidence of at least
    50 each; there are at most [top_k] of them for an integer [top_k] that
    is not negative, and at most 10 when the request has no [top_k]. *)
Theorem search_endpoint_found (L : libs) (g : globals) (request : body)
    (query : str) (results : list hit) (count : nat) :
  search_endpoint L g request = Found query results count ->
  count = length results /\
  query <> [] /\
  (exists s k,
     request = Object (Some (JStr s)) k /\ query = strip s /\
     (k = None -> (count <= 10)%nat) /\
     (forall n, k = Some (JInt n) -> 0 <= n -> Z.of_nat count <= n)) /\
  NoDup (map policy_item_id results) /\
  Forall (fun h => (50 <= confidence h)%Q) results /\
  StronglySorted (fun a b => (confidence b <= confidence a)%Q) results.
Proof.
  destruct request as [|v|q k]; simpl; try discriminate.
  destruct q as [[| | | |s| |]|]; simpl; try discriminate.
  destruct (is_empty (strip s)) eqn:E; [discriminate|].
  destruct (search_ai_with L g (strip s) (get_member k (JInt TOP_K_DEFAULT)))
    as [e|rs] eqn:S; [discriminate|].
  intros [= <- <- <-].
  destruct (search_ai_with_inv L g _ _ rs S) as (hits & k' & C & -> & K).
  split; [reflexivity|]. split.
  { intros F. rewrite F in E. discriminate. }
  split.
  { exists s, k. repeat split.
    - intros ->. simpl in K. specialize (K _ eq_refl). subst k'.
      pose proof (rank_length hits TOP_K_DEFAULT ltac:(unfold TOP_K_DEFAULT; lia)).
      unfold TOP_K_DEFAULT in *. lia.
    - intros n -> N. simpl in K. specialize (K _ eq_refl). subst k'.
      now apply rank_length. }
  split; [apply rank_NoDup|]. split; [|apply rank_sorted].
  apply Forall_forall. intros h I. now apply rank_incl in I.
Qed.

Lemma search_endpoint_found_witness :
  exists results,
    search_endpoint demo_libs demo_globals
      (Object (Some (JStr (lit "  Vitamin C "))) (Some (JInt 1))) =
    Found (lit "Vitamin C") results 1 /\
    1%nat = length results /\
    NoDup (map policy_item_id results) /\
    Forall (fun h => (50 <= confidence h)%Q) results.
Proof.
  eexists. split; [vm_compute; reflexivity|].
  destruct (search_endpoint_found demo_libs demo_globals
              (Object (Some (JStr (lit "  Vitamin C "))) (Some (JInt 1)))
              (lit "Vitamin C") _ 1%nat ltac:(vm_compute; reflexivity))
    as (C & _ & _ & N & F & _).
  repeat split; assumption.
Defined.

Lemma candidate_hits_uninitialised (L : libs) (g : globals) (query : str) :
  model g = None \/ embeddings g = None \/ lookup_df g = None ->
  candidate_hits L g query = Raise RuntimeError.
Proof.
  unfold candidate_hits. intros [-> | [-> | ->]]; [reflexivity | |].
  - now destruct (model g).
  - now destruct (model g), (embeddings g).
Qed.

(** X5.  Before a successful start (one of the globals [model],
    [embeddings], [lookup_df] is unset) the endpoint answers no request with
    200: a request with a query that is not blank gets 500 with
    [RuntimeError], whatever its [top_k]; the others get 400 or 500 as
    always. *)
Theorem search_endpoint_uninitialised (L : libs) (g : globals) (request : body) :
  model g = None \/ embeddings g = None \/ lookup_df g = None ->
  status_code (search_endpoint L g request) <> 200 /\
  (forall s k, request = Object (Some (JStr s)) k -> strip s <> [] ->
     search_endpoint L g request = Failed (Raised RuntimeError)).
Proof.
  intros U. pose proof (candidate_hits_uninitialised L g) as C.
  split.
  - destruct request as [|v|q k]; simpl; try discriminate.
    destruct (get_member q (JStr [])); simpl; try discriminate.
    destruct (is_empty (strip s)); [discriminate|].
    unfold search_ai_with. rewrite (C _ U). discriminate.
  - intros s k -> N. simpl.
    destruct (is_empty (strip s)) eqn:E; [apply is_empty_iff in E; congruence|].
    unfold search_ai_with. now rewrite (C _ U).
Qed.

Lemma search_endpoint_uninitialised_witness :
  (model no_globals = None \/ embeddings no_globals = None \/
   lookup_df no_globals = None) /\
  search_endpoint demo_libs no_globals (Object (Some (JStr (lit "salt"))) None) =
  Failed (Raised RuntimeError).
Proof.
  assert (U : model no_globals = None \/ embeddings no_globals = None \/
              lookup_df no_globals = None) by (left; reflexivity).
  split; [exact U|].
  destruct (search_endpoint_uninitialised demo_libs no_globals
              (Object (Some (JStr (lit "salt"))) None) U) as [_ F].
  apply (F (lit "salt") None eq_refl). vm_compute. discriminate.
Defined.

(** ** Start-up: failures, effects, restarts *)

Lemma initialize_model_no_catalog (L : libs) (w : world) :
  (forall mv, MULTIV_PATH (disk w) <> Holds mv) ->
  initialize_model L w =
  (Raise (match MULTIV_PATH (disk w) with
          | Absent => FileNotFoundError
          | _ => ParserError
          end), started w).
Proof.
  intros N.
  unfold initialize_model, seq at 1 2 3. unfold print at 1 2. unfold set_vars at 1.
  cbn [vars disk stdout]. rewrite <- app_assoc. cbn [app].
  change {| vars := set_model tt (vars w); disk := disk w;
            stdout := stdout w ++ [Msg_initializing; Msg_loading_model] |}
    with (started w).
  unfold seq at 1. unfold load_multivectors, seq at 1, read at 1.
  cbn [started disk].
  destruct (MULTIV_PATH (disk w)) as [| |mv]; [reflexivity | reflexivity|].
  now destruct (N mv).
Qed.

Lemma initialize_model_bad_cards (L : libs) (w : world) (mv : list mv_row) :
  MULTIV_PATH (disk w) = Holds mv ->
  CARDS_PATH (disk w) = Unreadable ->
  initialize_model L w = (Raise ParserError, started w).
Proof.
  destruct w as [g [mvf cards emb idx lk mt] out].
  cbn [disk MULTIV_PATH CARDS_PATH]. intros -> ->.
  unfold initialize_model, load_multivectors, seq, print, set_vars, read, get_disk,
    started.
  cbn. now rewrite <- app_assoc.
Qed.

Lemma build_succeeds_iff (L : libs) (texts : list str) (lookup : list row) (w : world) :
  (texts <> [] \/ faiss L = None -> fst (build L texts lookup w) = Ok tt) /\
  (texts = [] -> faiss L <> None -> fst (build L texts lookup w) = Raise IndexError).
Proof.
  unfold build, seq, print, set_vars, set_disk, lift, shape_1, FAISS_AVAILABLE.
  destruct (faiss L); [destruct texts|]; cbn; split; try reflexivity;
    try congruence; intros [F | F]; congruence.
Qed.

Lemma build_ok (L : libs) (texts : list str) (lookup : list row) (w : world) :
  fst (build L texts lookup w) = Ok tt ->
  vars (snd (build L texts lookup w)) = built_globals L texts lookup (vars w) /\
  disk (snd (build L texts lookup w)) = built_disk L texts lookup (disk w).
Proof.
  destruct w as [[m e i l] [mvf cards emb idx lk mt] out].
  unfold build, seq, print, set_vars, set_disk, lift, shape_1, built_globals,
    built_disk, FAISS_AVAILABLE.
  destruct (faiss L); [destruct texts|]; cbn; try discriminate; intros _;
    split; reflexivity.
Qed.

Lemma initialize_model_loads (L : libs) (w : world) (mv : list mv_row) :
  MULTIV_PATH (disk w) = Holds mv ->
  CARDS_PATH (disk w) <> Unreadable ->
  cache_usable L (texts_of mv) (disk w) = true ->
  initialize_model L w =
  (Ok tt,
   {| vars := cached_globals L (vars w) (disk w);
      disk := disk w;
      stdout := stdout w ++ cached_messages L (disk w) (length (texts_of mv)) |}).
Proof.
  intros M C U. rewrite (initialize_model_unfold L w mv M C).
  fold (texts_of mv).
  rewrite (cache_usable_files L (texts_of mv) (disk w) U).
  unfold try_except. now rewrite (load_cache_usable L (texts_of mv) w U).
Qed.

Lemma initialize_model_builds (L : libs) (w : world) (mv : list mv_row) :
  MULTIV_PATH (disk w) = Holds mv ->
  CARDS_PATH (disk w) <> Unreadable ->
  cache_usable L (texts_of mv) (disk w) = false ->
  exists w',
    initialize_model L w =
      build L (texts_of mv) (merge_left mv (can_map_of (disk w))) w' /\
    disk w' = disk w /\
    model (vars w') = Some tt /\
    faiss_index (vars w') = faiss_index (vars w) /\
    exists msgs, stdout w' = stdout w ++ msgs.
Proof.
  intros M C U. rewrite (initialize_model_unfold L w mv M C).
  fold (texts_of mv).
  destruct (attempt_on_cache L (texts_of mv) w U) as (w' & A & D & Mo & I & S).
  rewrite A. exists w'. auto.
Qed.

(** X6.  With a sentence model that loads and a disk that can be written,
    the start fails in three situations only.  A missing catalog file
    raises [FileNotFoundError] and an unreadable catalog or cards file
    [ParserError], before anything but [model] is set and before anything
    is written.  An empty catalog without usable cache raises [IndexError]
    when faiss is installed.  In every other case the start succeeds:
    no fault of the cache files makes it fail. *)
Theorem start_fails_exactly (L : libs) (w : world) :
  fst (initialize_model L w) =
    match MULTIV_PATH (disk w), CARDS_PATH (disk w) with
    | Absent, _ => Raise FileNotFoundError
    | Unreadable, _ => Raise ParserError
    | Holds _, Unreadable => Raise ParserError
    | Holds mv, _ =>
        if cache_usable L (texts_of mv) (disk w) then Ok tt
        else match mv, faiss L with
             | [], Some _ => Raise IndexError
             | _, _ => Ok tt
             end
    end /\
  (fst (initialize_model L w) = Raise FileNotFoundError \/
   fst (initialize_model L w) = Raise ParserError ->
   snd (initialize_model L w) = started w).
Proof.
  destruct (MULTIV_PATH (disk w)) as [| |mv] eqn:M.
  - rewrite (initialize_model_no_catalog L w) by (rewrite M; discriminate).
    rewrite M. split; reflexivity.
  - rewrite (initialize_model_no_catalog L w) by (rewrite M; discriminate).
    rewrite M. split; reflexivity.
  - assert (R : CARDS_PATH (disk w) <> Unreadable ->
                fst (initialize_model L w) =
                  (if cache_usable L (texts_of mv) (disk w) then Ok tt
                   else match mv, faiss L with
                        | [], Some _ => Raise IndexError
                        | _, _ => Ok tt
                        end) /\
                (fst (initialize_model L w) = Raise FileNotFoundError \/
                 fst (initialize_model L w) = Raise ParserError ->
                 snd (initialize_model L w) = started w)).
    { intros C. destruct (cache_usable L (texts_of mv) (disk w)) eqn:U.
      - rewrite (initialize_model_loads L w mv M C U). simpl.
        split; [reflexivity | intros [F | F]; discriminate].
      - destruct (initialize_model_builds L w mv M C U) as (w' & E & _).
        rewrite E.
        destruct (build_succeeds_iff L (texts_of mv)
                    (merge_left mv (can_map_of (disk w))) w') as [Yes No].
        assert (F : fst (build L (texts_of mv)
                           (merge_left mv (can_map_of (disk w))) w') =
                    match mv, faiss L with
                    | [], Some _ => Raise IndexError
                    | _, _ => Ok tt
                    end).
        { destruct mv as [|r mv'].
          - destruct (faiss L) eqn:Fa; [apply No; [reflexivity | congruence] | apply Yes; now right].
          - apply Yes. left. discriminate. }
        rewrite F. split; [reflexivity|].
        destruct mv, (faiss L); intros [G | G]; discriminate. }
    destruct (CARDS_PATH (disk w)) eqn:C.
    + apply R. discriminate.
    + rewrite (initialize_model_bad_cards L w mv M C). split; reflexivity.
    + apply R. discriminate.
Qed.

Lemma build_frame (L : libs) (texts : list str) (lookup : list row) (w : world) :
  MULTIV_PATH (disk (snd (build L texts lookup w))) = MULTIV_PATH (disk w) /\
  CARDS_PATH (disk (snd (build L texts lookup w))) = CARDS_PATH (disk w) /\
  model (vars (snd (build L texts lookup w))) = model (vars w).
Proof.
  destruct w as [[m e i l] [mvf cards emb idx lk mt] out].
  unfold build, seq, print, set_vars, set_disk, lift, shape_1, FAISS_AVAILABLE.
  destruct (faiss L); [destruct texts|]; cbn; repeat split.
Qed.

(** X7.  Whatever happens, the start leaves the catalog file and the cards
    file as they are and leaves [model] set. *)
Theorem start_keeps_the_catalog (L : libs) (w : world) :
  MULTIV_PATH (disk (snd (initialize_model L w))) = MULTIV_PATH (disk w) /\
  CARDS_PATH (disk (snd (initialize_model L w))) = CARDS_PATH (disk w) /\
  model (vars (snd (initialize_model L w))) = Some tt.
Proof.
  destruct (MULTIV_PATH (disk w)) as [| |mv] eqn:M.
  - rewrite (initialize_model_no_catalog L w) by (rewrite M; discriminate).
    simpl. now rewrite M.
  - rewrite (initialize_model_no_catalog L w) by (rewrite M; discriminate).
    simpl. now rewrite M.
  - destruct (CARDS_PATH (disk w)) eqn:C.
    + assert (C' : CARDS_PATH (disk w) <> Unreadable) by (rewrite C; discriminate).
      destruct (cache_usable L (texts_of mv) (disk w)) eqn:U.
      * rewrite (initialize_model_loads L w mv M C' U). simpl. now rewrite M, C.
      * destruct (initialize_model_builds L w mv M C' U) as (w' & E & D & Mo & _).
        rewrite E.
        destruct (build_frame L (texts_of mv)
                    (merge_left mv (can_map_of (disk w))) w') as (F1 & F2 & F3).
        rewrite F1, F2, F3, D, M, C. auto.
    + rewrite (initialize_model_bad_cards L w mv M C). simpl. now rewrite M, C.
    + assert (C' : CARDS_PATH (disk w) <> Unreadable) by (rewrite C; discriminate).
      destruct (cache_usable L (texts_of mv) (disk w)) eqn:U.
      * rewrite (initialize_model_loads L w mv M C' U). simpl. now rewrite M, C.
      * destruct (initialize_model_builds L w mv M C' U) as (w' & E & D & Mo & _).
        rewrite E.
        destruct (build_frame L (texts_of mv)
                    (merge_left mv (can_map_of (disk w))) w') as (F1 & F2 & F3).
        rewrite F1, F2, F3, D, M, C. auto.
Qed.

Lemma meta_matches_built (texts : list str) :
  meta_matches {| meta_model := Some MODEL_NAME;
                  meta_row_count := Some (Z.of_nat (length texts)) |} texts = true.
Proof.
  unfold meta_matches. cbn [meta_model meta_row_count].
  now rewrite Z.eqb_refl, str_eqb_refl.
Qed.

Lemma built_disk_usable (L : libs) (texts : list str) (lookup : list row) (d : files) :
  cache_usable L texts (built_disk L texts lookup d) = true.
Proof.
  unfold cache_usable, built_disk.
  cbn [META_MULTI EMB_MULTI LOOKUP_MULTI IDX_MULTI].
  rewrite meta_matches_built. now destruct (FAISS_AVAILABLE L).
Qed.

(** What a successful start leaves: either the cache as it was found, or the
    result of a build. *)
Lemma successful_start (L : libs) (w w1 : world) :
  initialize_model L w = (Ok tt, w1) ->
  exists mv,
    MULTIV_PATH (disk w) = Holds mv /\
    CARDS_PATH (disk w) <> Unreadable /\
    ((cache_usable L (texts_of mv) (disk w) = true /\
      vars w1 = cached_globals L (vars w) (disk w) /\
      disk w1 = disk w) \/
     (cache_usable L (texts_of mv) (disk w) = false /\
      exists g,
        model g = Some tt /\ faiss_index g = faiss_index (vars w) /\
        vars w1 = built_globals L (texts_of mv)
                    (merge_left mv (can_map_of (disk w))) g /\
        disk w1 = built_disk L (texts_of mv)
                    (merge_left mv (can_map_of (disk w))) (disk w))).
Proof.
  intros H.
  destruct (MULTIV_PATH (disk w)) as [| |mv] eqn:M;
    try (rewrite (initialize_model_no_catalog L w) in H
           by (rewrite M; discriminate);
         rewrite M in H; discriminate).
  exists mv. split; [reflexivity|].
  destruct (CARDS_PATH (disk w)) eqn:C;
    try (rewrite (initialize_model_bad_cards L w mv M C) in H; discriminate).
  - split; [discriminate|].
    assert (C' : CARDS_PATH (disk w) <> Unreadable) by (rewrite C; discriminate).
    destruct (cache_usable L (texts_of mv) (disk w)) eqn:U; [left | right].
    + rewrite (initialize_model_loads L w mv M C' U) in H. injection H as <-. auto.
    + destruct (initialize_model_builds L w mv M C' U) as (w' & E & D & Mo & I & _).
      rewrite E in H. split; [reflexivity|]. exists (vars w').
      destruct (build_ok L (texts_of mv) (merge_left mv (can_map_of (disk w))) w')
        as [V Dk]; [now rewrite H|].
      rewrite H in V, Dk. simpl in V, Dk. rewrite D in Dk. auto.
  - split; [discriminate|].
    assert (C' : CARDS_PATH (disk w) <> Unreadable) by (rewrite C; discriminate).
    destruct (cache_usable L (texts_of mv) (disk w)) eqn:U; [left | right].
    + rewrite (initialize_model_loads L w mv M C' U) in H. injection H as <-. auto.
    + destruct (initialize_model_builds L w mv M C' U) as (w' & E & D & Mo & I & _).
      rewrite E in H. split; [reflexivity|]. exists (vars w').
      destruct (build_ok L (texts_of mv) (merge_left mv (can_map_of (disk w))) w')
        as [V Dk]; [now rewrite H|].
      rewrite H in V, Dk. simpl in V, Dk. rewrite D in Dk. auto.
Qed.

(** C8 does not hold of the code: a failure of the cache can end in a fatal
    error.  On a catalog without rows, with faiss installed, a cache that
    cannot be used sends the start into the build, and the build raises
    [IndexError] at [embeddings.shape[1]], after it has written the
    embeddings, the lookup table and the metadata.  The branch without faiss
    builds the same catalog without an error. *)
Theorem rebuild_fails_on_empty_catalog (L : libs) (w : world) :
  faiss L <> None ->
  MULTIV_PATH (disk w) = Holds [] ->
  CARDS_PATH (disk w) <> Unreadable ->
  cache_usable L [] (disk w) = false ->
  fst (initialize_model L w) = Raise IndexError /\
  rebuilds w (snd (initialize_model L w)).
Proof.
  intros F M C U.
  destruct (initialize_model_builds L w [] M C U) as (w' & E & _ & _ & _ & msgs & S).
  rewrite E. change (texts_of []) with (@nil str).
  split.
  - now apply (build_succeeds_iff L [] (merge_left [] (can_map_of (disk w))) w').
  - destruct (build_forgets L [] (merge_left [] (can_map_of (disk w))) w' w')
      as (_ & _ & _ & _ & rest & B); try reflexivity.
    exists (length (@nil str)). unfold printed_since.
    rewrite B, S, <- app_assoc, skipn_app_exact.
    apply in_or_app. right. now left.
Qed.

Lemma rebuild_fails_on_empty_catalog_witness :
  let w := fresh damaged_cache_empty_disk in
  faiss demo_libs_faiss <> None /\
  MULTIV_PATH (disk w) = Holds [] /\
  CARDS_PATH (disk w) <> Unreadable /\
  cache_usable demo_libs_faiss [] (disk w) = false /\
  fst (initialize_model demo_libs_faiss w) = Raise IndexError /\
  stdout (snd (initialize_model demo_libs_faiss w)) =
    [Msg_initializing; Msg_loading_model; Msg_loading_cached; Msg_cache_error;
     Msg_building 0] /\
  fst (initialize_model demo_libs w) = Ok tt.
Proof.
  intros w.
  assert (F : faiss demo_libs_faiss <> None) by discriminate.
  assert (M : MULTIV_PATH (disk w) = Holds []) by reflexivity.
  assert (C : CARDS_PATH (disk w) <> Unreadable) by discriminate.
  assert (U : cache_usable demo_libs_faiss [] (disk w) = false) by reflexivity.
  split; [exact F|]. split; [exact M|]. split; [exact C|]. split; [exact U|].
  split; [exact (proj1 (rebuild_fails_on_empty_catalog demo_libs_faiss w F M C U))|].
  split; reflexivity.
Defined.

(** X19.  With a readable catalog, the start uses the cache exactly when the
    cache is usable: then the globals are those of the cache files, the
    disk is untouched and nothing is built.  Otherwise, whatever the cache
    files hold, the start builds, and ends as it would have ended had the
    cache files not been there.  Unless the catalog is empty and faiss is
    installed, the build succeeds and leaves the embeddings of the catalog
    texts, the merged lookup table and, with faiss, the index over these
    embeddings, in the globals and in the cache files, with the metadata of
    this catalog size and model. *)
Theorem cache_decides_the_start (L : libs) (w : world) (mv : list mv_row) :
  MULTIV_PATH (disk w) = Holds mv ->
  CARDS_PATH (disk w) <> Unreadable ->
  let texts := map (fun r => py_str (mv_text r)) mv in
  let lookup := merge_left mv (can_map_of (disk w)) in
  let out := initialize_model L w in
  let cold := initialize_model L (with_disk w (forget_cache (disk w))) in
  (cache_usable L texts (disk w) = true ->
   out = (Ok tt,
          {| vars := cached_globals L (vars w) (disk w);
             disk := disk w;
             stdout := stdout w ++ cached_messages L (disk w) (length texts) |}) /\
   ~ rebuilds w (snd out)) /\
  (cache_usable L texts (disk w) = false ->
   rebuilds w (snd out) /\
   fst out = fst cold /\
   disk (snd out) = disk (snd cold) /\
   (fst out = Ok tt -> vars (snd out) = vars (snd cold)) /\
   (texts <> [] \/ faiss L = None ->
    fst out = Ok tt /\
    vars (snd out) =
      {| model := Some tt;
         embeddings := Some (map (encode L) texts);
         faiss_index := if FAISS_AVAILABLE L then Some (map (encode L) texts)
                        else faiss_index (vars w);
         lookup_df := Some lookup |} /\
    disk (snd out) =
      {| MULTIV_PATH := MULTIV_PATH (disk w);
         CARDS_PATH := CARDS_PATH (disk w);
         EMB_MULTI := Holds (map (encode L) texts);
         IDX_MULTI := if FAISS_AVAILABLE L then Holds (map (encode L) texts)
                      else IDX_MULTI (disk w);
         LOOKUP_MULTI := Holds lookup;
         META_MULTI := Holds {| meta_model := Some MODEL_NAME;
                                meta_row_count := Some (Z.of_nat (length texts)) |} |})).
Proof.
  intros M C texts lookup out cold.
  pose proof (initialize_model_unfold L w mv M C) as E. fold texts in E.
  cbv zeta in E. fold out in E.
  split; intros U.
  - rewrite (cache_usable_files L texts (disk w) U) in E.
    unfold try_except in E. rewrite (load_cache_usable L texts w U) in E.
    split; [exact E|]. rewrite E. unfold rebuilds, printed_since.
    cbn [snd stdout]. rewrite skipn_app_exact.
    intros [n I]. unfold cached_messages in I. simpl in I.
    destruct (FAISS_AVAILABLE L && file_exists (IDX_MULTI (disk w)));
      intuition discriminate.
  - destruct (attempt_on_cache L texts w U) as (w' & A & D & Mo & I & msgs & S).
    rewrite A in E. fold lookup in E.
    assert (E0 : cold = build L texts lookup
                          (started (with_disk w (forget_cache (disk w))))).
    { unfold cold.
      rewrite (initialize_model_unfold L (with_disk w (forget_cache (disk w))) mv M C).
      reflexivity. }
    destruct (build_forgets L texts lookup w'
                (started (with_disk w (forget_cache (disk w)))))
      as (F1 & F2 & F3 & F4 & rest & F5);
      try (rewrite D; reflexivity); try assumption.
    rewrite E, E0.
    split.
    { exists (length texts). unfold printed_since. rewrite F5, S, <- app_assoc.
      rewrite skipn_app_exact. apply in_or_app. right. now left. }
    split; [exact F1|]. split; [exact F2|]. split; [exact F3|].
    intros Ok_build. specialize (F4 Ok_build).
    split; [exact F4|].
    destruct (build_ok L texts lookup w' F4) as [V Dk].
    rewrite V, Dk, D. unfold built_globals, built_disk. rewrite Mo, I.
    split; reflexivity.
Qed.

Lemma cache_decides_the_start_witness :
  MULTIV_PATH (disk (fresh damaged_cache_disk)) = Holds [salt] /\
  CARDS_PATH (disk (fresh damaged_cache_disk)) <> Unreadable /\
  cache_usable demo_libs [lit "Salt"] damaged_cache_disk = false /\
  rebuilds (fresh damaged_cache_disk)
           (snd (initialize_model demo_libs (fresh damaged_cache_disk))) /\
  fst (initialize_model demo_libs (fresh damaged_cache_disk)) = Ok tt /\
  embeddings (vars (snd (initialize_model demo_libs (fresh damaged_cache_disk)))) =
    Some [[1%Q; 0%Q]] /\
  LOOKUP_MULTI (disk (snd (initialize_model demo_libs (fresh damaged_cache_disk)))) =
    Holds [join salt None].
Proof.
  assert (A : MULTIV_PATH (disk (fresh damaged_cache_disk)) = Holds [salt])
    by reflexivity.
  assert (B : CARDS_PATH (disk (fresh damaged_cache_disk)) <> Unreadable)
    by discriminate.
  assert (U : cache_usable demo_libs [lit "Salt"] damaged_cache_disk = false)
    by reflexivity.
  destruct (cache_decides_the_start demo_libs (fresh damaged_cache_disk) [salt] A B)
    as [_ Miss].
  destruct (Miss U) as (R & _ & _ & _ & S).
  destruct (S ltac:(left; discriminate)) as (S1 & S2 & S3).
  split; [exact A|]. split; [exact B|]. split; [exact U|].
  split; [exact R|]. split; [exact S1|].
  split; [rewrite S2 | rewrite S3]; reflexivity.
Defined.

(** X8.  After a successful start, a start on the disk it left (in the
    same process or in a new one, whatever the globals and the output so far)
    uses the cache: it succeeds, builds nothing, writes nothing, prints the
    messages of a cached start, and takes from the files the embeddings the
    first start ended with. *)
Theorem restart_uses_the_cache (L : libs) (w w1 w2 : world) :
  initialize_model L w = (Ok tt, w1) ->
  disk w2 = disk w1 ->
  exists mv,
    MULTIV_PATH (disk w) = Holds mv /\
    initialize_model L w2 =
      (Ok tt, {| vars := cached_globals L (vars w2) (disk w1);
                 disk := disk w1;
                 stdout := stdout w2 ++ cached_messages L (disk w1) (length mv) |}) /\
    embeddings (cached_globals L (vars w2) (disk w1)) = embeddings (vars w1).
Proof.
  intros H D2.
  destruct (successful_start L w w1 H) as (mv & M & C & Case).
  assert (M1 : MULTIV_PATH (disk w1) = Holds mv /\
               CARDS_PATH (disk w1) = CARDS_PATH (disk w)).
  { destruct Case as [(_ & _ & ->) | (_ & g & _ & _ & _ & ->)]; auto. }
  destruct M1 as [M1 C1].
  assert (U1 : cache_usable L (texts_of mv) (disk w1) = true).
  { destruct Case as [(U & _ & ->) | (_ & g & _ & _ & _ & ->)];
      [exact U | apply built_disk_usable]. }
  exists mv. split; [exact M|]. split.
  - rewrite <- D2 in M1, C1, U1.
    rewrite (initialize_model_loads L w2 mv M1 ltac:(now rewrite C1) U1).
    unfold texts_of. now rewrite length_map, D2.
  - destruct Case as [(U & V & D) | (U & g & Mo & I & V & D)].
    + rewrite D, V. unfold cache_usable in U. unfold cached_globals.
      cbn [embeddings].
      destruct (META_MULTI (disk w)), (EMB_MULTI (disk w)), (LOOKUP_MULTI (disk w));
        try discriminate.
      reflexivity.
    + rewrite D, V. reflexivity.
Qed.

Lemma restart_uses_the_cache_witness :
  let w1 := snd (initialize_model demo_libs (fresh damaged_cache_disk)) in
  initialize_model demo_libs (fresh damaged_cache_disk) = (Ok tt, w1) /\
  rebuilds (fresh damaged_cache_disk) w1 /\
  exists mv,
    MULTIV_PATH (disk (fresh damaged_cache_disk)) = Holds mv /\
    initialize_model demo_libs (fresh (disk w1)) =
      (Ok tt, {| vars := cached_globals demo_libs no_globals (disk w1);
                 disk := disk w1;
                 stdout := cached_messages demo_libs (disk w1) (length mv) |}).
Proof.
  intros w1.
  assert (E : initialize_model demo_libs (fresh damaged_cache_disk) = (Ok tt, w1))
    by reflexivity.
  split; [exact E|]. split.
  - exists 1%nat. vm_compute. tauto.
  - destruct (restart_uses_the_cache demo_libs _ w1 (fresh (disk w1)) E eq_refl)
      as (mv & M & R & _).
    exists mv. split; [exact M | exact R].
Defined.

Lemma cache_usable_length (L : libs) (texts texts' : list str) (d : files) :
  length texts = length texts' ->
  cache_usable L texts d = cache_usable L texts' d.
Proof.
  intros E. unfold cache_usable, meta_matches. now rewrite E.
Qed.

(** X9.  The cache is tested against the size of the catalog only: with a
    cache that is usable for one catalog, a start on any catalog of the same
    number of rows succeeds from the cache and reaches the same globals, so
    the texts of the new catalog are never embedded. *)
Theorem cache_ignores_catalog_content (L : libs) (w : world) (mv mv' : list mv_row) :
  length mv = length mv' ->
  CARDS_PATH (disk w) <> Unreadable ->
  cache_usable L (texts_of mv) (disk (with_catalog w mv)) = true ->
  fst (initialize_model L (with_catalog w mv)) = Ok tt /\
  fst (initialize_model L (with_catalog w mv')) = Ok tt /\
  vars (snd (initialize_model L (with_catalog w mv'))) =
  vars (snd (initialize_model L (with_catalog w mv))) /\
  ~ rebuilds (with_catalog w mv') (snd (initialize_model L (with_catalog w mv'))).
Proof.
  intros Len C U.
  assert (U' : cache_usable L (texts_of mv') (disk (with_catalog w mv')) = true).
  { rewrite <- U. unfold texts_of.
    rewrite (cache_usable_length L _ (map (fun r => py_str (mv_text r)) mv))
      by (now rewrite !length_map).
    reflexivity. }
  rewrite (initialize_model_loads L (with_catalog w mv) mv eq_refl C U).
  rewrite (initialize_model_loads L (with_catalog w mv') mv' eq_refl C U').
  cbn [fst snd vars]. repeat split.
  unfold rebuilds, printed_since. cbn [stdout with_catalog].
  rewrite skipn_app_exact. intros [n I]. unfold cached_messages in I. simpl in I.
  destruct (FAISS_AVAILABLE L && _); intuition discriminate.
Qed.

Lemma cache_ignores_catalog_content_witness :
  length [salt] = length [sugar] /\
  CARDS_PATH (disk (fresh good_cache_disk)) <> Unreadable /\
  cache_usable demo_libs (texts_of [salt])
    (disk (with_catalog (fresh good_cache_disk) [salt])) = true /\
  lookup_df (vars (snd (initialize_model demo_libs
                          (with_catalog (fresh good_cache_disk) [sugar])))) =
  Some [join salt None].
Proof.
  assert (A : length [salt] = length [sugar]) by reflexivity.
  assert (B : CARDS_PATH (disk (fresh good_cache_disk)) <> Unreadable)
    by discriminate.
  assert (U : cache_usable demo_libs (texts_of [salt])
                (disk (with_catalog (fresh good_cache_disk) [salt])) = true)
    by reflexivity.
  split; [exact A|]. split; [exact B|]. split; [exact U|].
  destruct (cache_ignores_catalog_content demo_libs (fresh good_cache_disk)
              [salt] [sugar] A B U) as (_ & _ & V & _).
  rewrite V. reflexivity.
Defined.

Lemma for_each_Raise {A B : Type} (f : A -> result B) (l : list A) (e : exn) :
  for_each f l = Raise e -> exists a, In a l /\ f a = Raise e.
Proof.
  induction l as [|a l IH]; simpl; [discriminate|].
  destruct (f a) as [b|e'] eqn:Fa.
  - destruct (for_each f l) as [bs|e'']; [discriminate|].
    intros [= ->]. destruct (IH eq_refl) as (a' & I & F). exists a'. auto.
  - intros [= ->]. exists a. auto.
Qed.

(** With the three globals set, a search does not raise [RuntimeError]. *)
Lemma initialised_search (L : libs) (g : globals) (query : str) :
  model g <> None -> embeddings g <> None -> lookup_df g <> None ->
  candidate_hits L g query <> Raise RuntimeError.
Proof.
  unfold candidate_hits. intros M E D.
  destruct (model g); [|congruence].
  destruct (embeddings g) as [embs|]; [|congruence].
  destruct (lookup_df g) as [df|]; [|congruence].
  unfold bind.
  destruct (recall L (faiss_index g) (encode L query) embs df) as [cands|e] eqn:R.
  - intros F. unfold score_candidates in F.
    destruct (for_each_Raise _ _ _ F) as ([i s] & _ & Fa).
    unfold bind, iloc in Fa. cbn [fst snd] in Fa.
    destruct (_ && _); [|discriminate].
    destruct (nth_error df _); discriminate.
  - intros [= ->]. unfold recall, index_search, recall_by_cosine, cosine_similarity,
      bind in R.
    assert (T : forall sims idx, take sims idx <> Raise RuntimeError).
    { intros sims idx F. unfold take in F.
      destruct (for_each_Raise _ _ _ F) as (i & _ & Fi).
      destruct (nth_error sims i); discriminate. }
    destruct (faiss L) as [search|]; [destruct (faiss_index g)|].
    + destruct (Nat.min RECALL_K (length df)); discriminate.
    + destruct embs; [discriminate|].
      destruct (take _ _) eqn:Tk; [discriminate|].
      injection R as ->. exact (T _ _ Tk).
    + destruct embs; [discriminate|].
      destruct (take _ _) eqn:Tk; [discriminate|].
      injection R as ->. exact (T _ _ Tk).
Qed.

(** X10.  A successful start makes the service ready: [/health] reports
    [model_loaded], the embeddings and the lookup table are set, and no
    search, by function call or by request, fails with [RuntimeError]
    (model not initialised) any more. *)
Theorem start_enables_search (L : libs) (w w1 : world) :
  initialize_model L w = (Ok tt, w1) ->
  model_loaded (health_check L (vars w1)) = true /\
  (exists e l, embeddings (vars w1) = Some e /\ lookup_df (vars w1) = Some l) /\
  (forall query top_k, search_ai L (vars w1) query top_k <> Raise RuntimeError) /\
  (forall request,
     search_endpoint L (vars w1) request <> Failed (Raised RuntimeError)).
Proof.
  intros H.
  destruct (successful_start L w w1 H) as (mv & M & C & Case).
  assert (G : model (vars w1) = Some tt /\
              exists e l, embeddings (vars w1) = Some e /\ lookup_df (vars w1) = Some l).
  { destruct Case as [(U & -> & _) | (_ & g & Mo & _ & -> & _)].
    - unfold cache_usable in U. unfold cached_globals.
      cbn [model embeddings lookup_df].
      destruct (META_MULTI (disk w)), (EMB_MULTI (disk w)) as [| |e],
        (LOOKUP_MULTI (disk w)) as [| |l]; try discriminate.
      split; [reflexivity|]. now exists e, l.
    - unfold built_globals. cbn [model embeddings lookup_df].
      split; [exact Mo|]. eauto. }
  destruct G as (Mo & e & l & E & D).
  assert (N : forall query, candidate_hits L (vars w1) query <> Raise RuntimeError).
  { intros query. apply initialised_search; congruence. }
  split; [unfold health_check; cbn [model_loaded]; now rewrite Mo|].
  split; [now exists e, l|]. split.
  - intros query top_k F. unfold search_ai, bind in F.
    destruct (candidate_hits L (vars w1) query) eqn:Ch; [discriminate|].
    injection F as ->. exact (N query Ch).
  - intros request F. destruct request as [|v|q k]; simpl in F; try discriminate.
    destruct (get_member q (JStr [])); try discriminate.
    destruct (is_empty (strip s)); [discriminate|].
    unfold search_ai_with in F.
    destruct (candidate_hits L (vars w1) (strip s)) eqn:Ch.
    + destruct (get_member k (JInt TOP_K_DEFAULT)); discriminate.
    + injection F as ->. exact (N _ Ch).
Qed.

Lemma start_enables_search_witness :
  let w1 := snd (initialize_model demo_libs (fresh good_cache_disk)) in
  initialize_model demo_libs (fresh good_cache_disk) = (Ok tt, w1) /\
  model_loaded (health_check demo_libs (vars w1)) = true /\
  search_ai demo_libs (vars w1) (lit "salt") 10 <> Raise RuntimeError.
Proof.
  intros w1.
  assert (E : initialize_model demo_libs (fresh good_cache_disk) = (Ok tt, w1))
    by reflexivity.
  destruct (start_enables_search demo_libs _ _ E) as (Hl & _ & S & _).
  split; [exact E|]. split; [exact Hl | apply S].
Defined.

(** ** The lookup table and the catalog *)

Lemma cell_eqb_eq (a b : cell) : cell_eqb a b = true <-> a = b.
Proof.
  destruct a as [x|], b as [y|]; simpl; try (split; congruence).
  rewrite str_eqb_eq. split; congruence.
Qed.

Lemma card_eqb_eq (a b : card_row) : card_eqb a b = true <-> a = b.
Proof.
  destruct a as [p c], b as [p' c']. unfold card_eqb. simpl.
  rewrite andb_true_iff, !cell_eqb_eq. split; [intros [-> ->] | intros [= -> ->]]; auto.
Qed.

Lemma existsb_card_eqb (c : card_row) (seen : list card_row) :
  existsb (card_eqb c) seen = true <-> In c seen.
Proof.
  rewrite existsb_exists. split.
  - intros (x & I & E). apply card_eqb_eq in E. now subst.
  - intros I. exists c. split; [exact I | now apply card_eqb_eq].
Qed.

(** [drop_duplicates] keeps the rows, each once. *)
Lemma drop_duplicates_from_spec (seen cards : list card_row) :
  NoDup (drop_duplicates_from seen cards) /\
  (forall c, In c (drop_duplicates_from seen cards) <-> In c cards /\ ~ In c seen).
Proof.
  revert seen; induction cards as [|c cards IH]; intros seen; simpl.
  - split; [constructor | tauto].
  - destruct (existsb (card_eqb c) seen) eqn:E.
    + apply existsb_card_eqb in E. destruct (IH seen) as [N S].
      split; [exact N|]. intros x. rewrite S. split; [tauto|].
      intros [[<- | I] F]; tauto.
    + assert (F : ~ In c seen).
      { intros I. apply existsb_card_eqb in I. congruence. }
      destruct (IH (c :: seen)) as [N S]. split.
      * constructor; [|exact N]. rewrite S. simpl. tauto.
      * intros x. simpl. rewrite S. simpl. split.
        { intros [<- | [I G]]; [tauto|]. tauto. }
        { intros [[<- | I] G]; [now left|].
          destruct (card_eqb c x) eqn:Q.
          - apply card_eqb_eq in Q. now left.
          - right. split; [exact I|]. intros [<- | K]; [|tauto].
            assert (card_eqb c c = true) by now apply card_eqb_eq. congruence. }
Qed.

Lemma drop_duplicates_spec (cards : list card_row) :
  NoDup (drop_duplicates cards) /\
  (forall c, In c (drop_duplicates cards) <-> In c cards).
Proof.
  destruct (drop_duplicates_from_spec [] cards) as [N S]. split; [exact N|].
  intros c. unfold drop_duplicates. rewrite S. simpl. tauto.
Qed.

Lemma NoDup_at_most_one {A : Type} (l : list A) :
  NoDup l -> (forall a b, In a l -> In b l -> a = b) -> (length l <= 1)%nat.
Proof.
  destruct l as [|a [|b l]]; simpl; intros N E; try lia.
  assert (a = b) by (apply E; simpl; auto). subst.
  apply NoDup_cons_iff in N. simpl in N. tauto.
Qed.

Lemma at_most_one_equal {A : Type} (l : list A) (a b : A) :
  (length l <= 1)%nat -> In a l -> In b l -> a = b.
Proof.
  destruct l as [|x [|y l]]; simpl; intros Len Ia Ib; try lia; try contradiction.
  destruct Ia as [<- | []], Ib as [<- | []]. reflexivity.
Qed.

Lemma merge_left_aligned_inv (mv : list mv_row) (can_map : list card_row) :
  length (merge_left mv can_map) = length mv ->
  forall r, In r mv ->
    (length (filter (fun c => cell_eqb (card_policy_item_id c) (mv_policy_item_id r))
                    can_map) <= 1)%nat.
Proof.
  induction mv as [|r0 mv IH]; [contradiction|].
  unfold merge_left. cbn [flat_map length]. rewrite length_app.
  fold (merge_left mv can_map). intros E.
  pose proof (merge_left_length mv can_map) as G.
  match type of E with
  | (length ?m + _)%nat = _ => assert (B : (1 <= length m)%nat)
  end.
  { destruct (filter _ can_map); simpl; lia. }
  intros r [<- | I].
  - destruct (filter _ can_map) as [|c [|c' m]]; simpl in *; lia.
  - apply IH; [lia | exact I].
Qed.

Lemma merge_left_catalog_part (mv : list mv_row) (can_map : list card_row) :
  length (merge_left mv can_map) = length mv ->
  map catalog_part (merge_left mv can_map) = mv.
Proof.
  intros E. pose proof (merge_left_aligned_inv mv can_map E) as One. clear E.
  induction mv as [|r mv IH]; [reflexivity|].
  unfold merge_left. cbn [flat_map]. rewrite map_app. fold (merge_left mv can_map).
  rewrite IH by (intros; apply One; now right).
  specialize (One r (or_introl eq_refl)).
  destruct (filter _ can_map) as [|c [|c' m]]; simpl in *; try lia;
    destruct r; reflexivity.
Qed.

(** X11.  [load_multivectors] reads only.  When it returns, its first
    result is the catalog; its lookup table has at least as many rows, and
    exactly as many if and only if no [policy_item_id] of the catalog has
    two different canonical names in the cards file; the lookup table then
    is the catalog, row by row, with a canonical name added. *)
Theorem lookup_aligned_iff (w w' : world) (mv : list mv_row) (lookup : list row) :
  load_multivectors w = (Ok (mv, lookup), w') ->
  w' = w /\
  MULTIV_PATH (disk w) = Holds mv /\
  (length mv <= length lookup)%nat /\
  (length lookup = length mv <->
   forall r c1 c2,
     In r mv -> In c1 (cards_of (disk w)) -> In c2 (cards_of (disk w)) ->
     card_policy_item_id c1 = mv_policy_item_id r ->
     card_policy_item_id c2 = mv_policy_item_id r ->
     card_canonical c1 = card_canonical c2) /\
  (length lookup = length mv -> map catalog_part lookup = mv).
Proof.
  intros H.
  destruct (MULTIV_PATH (disk w)) as [| |mv0] eqn:M;
    try (unfold load_multivectors, seq, read in H; rewrite M in H; discriminate).
  destruct (CARDS_PATH (disk w)) as [| |cards] eqn:C;
    try (unfold load_multivectors, seq, read, get_disk in H;
         rewrite M in H; cbn in H; rewrite C in H; cbn in H; rewrite ?C in H;
         discriminate).
  - rewrite (load_multivectors_ok w mv0 M ltac:(rewrite C; discriminate)) in H.
    injection H as <- <- <-. unfold can_map_of, cards_of. rewrite C.
    split; [reflexivity|]. split; [reflexivity|].
    split; [apply merge_left_length|].
    split; [|apply merge_left_catalog_part].
    split; [intros _ r c1 c2 _ []|].
    intros _. apply merge_left_aligned. intros r _. simpl. lia.
  - rewrite (load_multivectors_ok w mv0 M ltac:(rewrite C; discriminate)) in H.
    injection H as <- <- <-. unfold can_map_of, cards_of. rewrite C.
    destruct (drop_duplicates_spec cards) as [N S].
    split; [reflexivity|]. split; [reflexivity|].
    split; [apply merge_left_length|].
    split; [|apply merge_left_catalog_part].
    split.
    + intros E r c1 c2 Ir I1 I2 K1 K2.
      pose proof (merge_left_aligned_inv mv0 (drop_duplicates cards) E r Ir) as One.
      assert (c1 = c2); [|congruence].
      apply (at_most_one_equal _ c1 c2 One);
        apply filter_In; (split; [now apply S | now apply cell_eqb_eq]).
    + intros U. apply merge_left_aligned. intros r Ir.
      apply NoDup_at_most_one; [now apply NoDup_filter|].
      intros a b Ia Ib. apply filter_In in Ia, Ib.
      destruct Ia as [Ia Ka], Ib as [Ib Kb].
      apply cell_eqb_eq in Ka, Kb. apply S in Ia, Ib.
      pose proof (U r a b Ir Ia Ib Ka Kb) as Same.
      destruct a, b. simpl in *. congruence.
Qed.

Lemma lookup_aligned_iff_witness :
  exists lookup,
    load_multivectors (fresh two_names_disk) =
      (Ok ([salt], lookup), fresh two_names_disk) /\
    length lookup = 2%nat /\
    (length [salt] <= length lookup)%nat.
Proof.
  eexists. split; [reflexivity|]. split; [reflexivity|].
  destruct (lookup_aligned_iff (fresh two_names_disk) (fresh two_names_disk) [salt] _
              eq_refl) as (_ & _ & Le & _).
  exact Le.
Defined.

Lemma merge_left_no_cards (mv : list mv_row) :
  merge_left mv [] = map (fun r => join r None) mv.
Proof.
  unfold merge_left. induction mv as [|r mv IH]; [reflexivity|].
  cbn [flat_map map filter app]. now f_equal.
Qed.

(** X12.  A row without a canonical name is not skipped by the test
    [if canon]: the missing value reads as the string ["nan"].  After a start
    that builds from a catalog without cards file, every hit of a search
    reports the canonical name ["nan"], and its lexical score is the greater
    of the ratios of the query with the row's text and with ["nan"]. *)
Theorem missing_canonical_reads_nan (L : libs) (w w1 : world) (query : str)
    (top_k : Z) (results : list hit) :
  initialize_model L w = (Ok tt, w1) ->
  CARDS_PATH (disk w) = Absent ->
  rebuilds w w1 ->
  search_ai L (vars w1) query top_k = Ok results ->
  Forall
    (fun h =>
       canonical h = lit "nan" /\
       let q_norm := normalize_query_lex (ucd L) (Str query) in
       lexical_score h =
       round (Qmax (token_set_ratio L q_norm
                      (normalize_query_lex (ucd L) (Str (matched_text h))) / 100)
                   (token_set_ratio L q_norm
                      (normalize_query_lex (ucd L) (Str (lit "nan"))) / 100))%Q 3)
    results.
Proof.
  intros H C R S.
  destruct (successful_start L w w1 H) as (mv & M & _ & Case).
  assert (D : lookup_df (vars w1) = Some (map (fun r => join r None) mv)).
  { destruct Case as [(U & _ & _) | (_ & g & _ & _ & -> & _)].
    - exfalso.
      rewrite (initialize_model_loads L w mv M ltac:(rewrite C; discriminate) U) in H.
      injection H as <-. destruct R as [n I].
      unfold printed_since in I. cbn [stdout] in I. rewrite skipn_app_exact in I.
      unfold cached_messages in I. simpl in I.
      destruct (FAISS_AVAILABLE L && _); intuition discriminate.
    - unfold built_globals, can_map_of. cbn [lookup_df]. rewrite C.
      now rewrite merge_left_no_cards. }
  destruct (search_ai_inv L _ query top_k results S) as (hits & Ch & ->).
  destruct (candidate_hits_inv L _ query hits Ch) as (embs & df & cands & _ & D' & _ & Sc).
  rewrite D in D'. injection D' as <-.
  apply Forall_forall. intros h I. apply rank_incl in I. destruct I as [I _].
  destruct (scored_hit_inv L _ _ cands hits h Sc I) as (r & sem & Ir & ->).
  apply in_map_iff in Ir. destruct Ir as (r0 & <- & _).
  split; reflexivity.
Qed.

Lemma missing_canonical_reads_nan_witness :
  let w1 := snd (initialize_model demo_libs (fresh damaged_cache_disk)) in
  exists results,
    initialize_model demo_libs (fresh damaged_cache_disk) = (Ok tt, w1) /\
    CARDS_PATH (disk (fresh damaged_cache_disk)) = Absent /\
    rebuilds (fresh damaged_cache_disk) w1 /\
    search_ai demo_libs (vars w1) (lit "salt") 10 = Ok results /\
    length results = 1%nat /\
    Forall (fun h => canonical h = lit "nan") results.
Proof.
  intros w1. eexists.
  assert (E : initialize_model demo_libs (fresh damaged_cache_disk) = (Ok tt, w1))
    by reflexivity.
  assert (R : rebuilds (fresh damaged_cache_disk) w1)
    by (exists 1%nat; vm_compute; tauto).
  split; [exact E|]. split; [reflexivity|]. split; [exact R|].
  split; [vm_compute; reflexivity|]. split; [reflexivity|].
  eapply Forall_impl;
    [|exact (missing_canonical_reads_nan demo_libs _ w1 (lit "salt") 10 _ E eq_refl R
               ltac:(vm_compute; reflexivity))].
  simpl. tauto.
Defined.

(** ** The form of a normalised string *)

(** X13.  Whatever the Unicode step gives, the result of the normaliser
    consists of characters of the kept class only (lower-case ASCII letters,
    digits, space, hyphen, U+00C0 to U+017F), its white space is single
    spaces between other characters, it has no white space at either end,
    and the three substitutions and the trim leave it as it is; a value that
    is not a string gives the empty string. *)
Theorem normalize_output_form (U : unicode) (s : object) :
  let y := normalize_query_lex U s in
  Forall (fun c => is_kept c = true) y /\
  single_spaced y /\
  strip y = y /\
  clean y = y /\
  normalize_query_lex U NotStr = [].
Proof.
  destruct s as [x|]; cbn [normalize_query_lex].
  - split; [apply clean_kept|]. split.
    { apply rstrip_single, lstrip_single, sub_spaces_from_single. }
    split.
    { unfold clean. apply strip_idempotent. }
    split; [apply clean_idempotent | reflexivity].
  - repeat split; constructor.
Qed.

(** X14.  On ASCII input the result of the normaliser, with the Unicode
    tables, consists of lower-case ASCII letters, digits, spaces and hyphens
    only, and normalising it again changes nothing. *)
Theorem normalize_ascii_form (x : str) :
  Forall (fun c => is_ascii c = true) x ->
  let y := normalize_query_lex latin (Str x) in
  Forall (fun c => ((0x61 <=? c) && (c <=? 0x7A)) ||
                   ((0x30 <=? c) && (c <=? 0x39)) ||
                   (c =? SPACE) || (c =? HYPHEN) = true) y /\
  normalize_query_lex latin (Str y) = y.
Proof.
  intros A y. split; [|exact (proj2 (normalize_ascii x A))].
  assert (Ay : Forall (fun c => is_ascii c = true) y).
  { unfold y, normalize_query_lex, latin. cbn [nfkc casefold].
    apply clean_Forall; [reflexivity | reflexivity |].
    rewrite nfkc_ascii; now apply casefold_ascii. }
  assert (Ky : Forall (fun c => is_kept c = true) y) by apply clean_kept.
  rewrite Forall_forall in *. intros c I.
  specialize (Ay c I). specialize (Ky c I).
  unfold is_ascii in Ay. unfold is_kept in Ky.
  destruct ((0xC0 <=? c) && (c <=? 0x17F)) eqn:F.
  - apply andb_true_iff in F, Ay. destruct F as [F _], Ay as [_ Ay].
    apply Z.leb_le in F. apply Z.ltb_lt in Ay. lia.
  - now rewrite orb_false_r in Ky.
Qed.

Lemma normalize_ascii_form_witness :
  Forall (fun c => is_ascii c = true) (lit "  Vitamin   C (E-300) ") /\
  normalize_query_lex latin (Str (lit "  Vitamin   C (E-300) ")) =
    lit "vitamin c e-300" /\
  normalize_query_lex latin (Str (lit "vitamin c e-300")) = lit "vitamin c e-300".
Proof.
  assert (A : Forall (fun c => is_ascii c = true) (lit "  Vitamin   C (E-300) ")).
  { apply Forall_forall. intros c I. vm_compute in I.
    repeat (destruct I as [<- | I]; [reflexivity|]). destruct I. }
  assert (E : normalize_query_lex latin (Str (lit "  Vitamin   C (E-300) ")) =
              lit "vitamin c e-300") by (vm_compute; reflexivity).
  split; [exact A|]. split; [exact E|].
  pose proof (proj2 (normalize_ascii_form _ A)) as I.
  cbv zeta in I. rewrite E in I. exact I.
Defined.

(** ** How many results *)

Lemma firstn_own_length {A : Type} (n : nat) (l : list A) :
  firstn (length (firstn n l)) l = firstn n l.
Proof.
  rewrite length_firstn.
  destruct (Nat.le_ge_cases n (length l)) as [Le | Ge].
  - now rewrite Nat.min_l.
  - rewrite Nat.min_r by exact Ge. rewrite firstn_all.
    symmetry. now apply firstn_all2.
Qed.

Lemma aggregate_length (hits : list hit) :
  (length (aggregate hits) <= length hits)%nat.
Proof.
  destruct (aggregate_invariant hits) as [N E].
  rewrite <- (length_map fst (aggregate hits)),
          <- (length_map policy_item_id hits).
  apply NoDup_incl_length; [exact N|].
  intros k I. apply in_map_iff in I. destruct I as [[k' v] [<- I]].
  destruct (E k' v I) as (<- & Iv & _). cbn [fst].
  apply in_map_iff. now exists v.
Qed.

Lemma ranking_length (hits : list hit) :
  (length (sorted_by_confidence (values (aggregate hits))) <= length hits)%nat.
Proof.
  rewrite (Permutation_length (sorted_by_confidence_perm _)).
  unfold values. rewrite length_map. apply aggregate_length.
Qed.

Lemma rank_enough (hits : list hit) (k : Z) :
  Z.of_nat (length hits) <= k ->
  rank hits k = sorted_by_confidence (values (aggregate hits)).
Proof.
  intros K. pose proof (ranking_length hits) as Le.
  unfold rank, slice_to.
  destruct (0 <=? k) eqn:E; [|apply Z.leb_gt in E; lia].
  apply firstn_all2. lia.
Qed.

(** X15.  The results are the first ones of the full ranking, the list a
    search returns for every [top_k] from the number of candidates on.  The
    full ranking has one hit for each entity that has a candidate of
    confidence 50 or more.  Of its [n] hits a search returns the first
    [min top_k n] for a [top_k] that is not negative, and all but the last
    [- top_k] for a negative one. *)
Theorem results_count (L : libs) (g : globals) (query : str) (top_k : Z)
    (results hits : list hit) :
  search_ai L g query top_k = Ok results ->
  candidate_hits L g query = Ok hits ->
  exists full,
    (forall k, Z.of_nat (length hits) <= k -> search_ai L g query k = Ok full) /\
    (forall h, In h hits -> (50 <= confidence h)%Q ->
       exists r, In r full /\ policy_item_id r = policy_item_id h) /\
    results = firstn (length results) full /\
    Z.of_nat (length results) =
      (if 0 <=? top_k then Z.min top_k (Z.of_nat (length full))
       else Z.max 0 (Z.of_nat (length full) + top_k)).
Proof.
  intros H C. destruct (search_ai_inv L g query top_k results H) as (hits' & C' & ->).
  rewrite C in C'. injection C' as <-.
  exists (sorted_by_confidence (values (aggregate hits))).
  split.
  { intros k K. unfold search_ai, bind. rewrite C. now rewrite rank_enough. }
  split.
  { intros h I F.
    destruct (aggregate_from_covers hits [] [] (NoDup_nil _)) with (h := h)
      as (v & Iv & _); auto.
    - intros ? [].
    - rewrite app_nil_r. now apply in_rev in I.
    - fold (aggregate hits) in Iv. exists v. split.
      + apply (Permutation_in _ (Permutation_sym (sorted_by_confidence_perm _))).
        unfold values. apply in_map_iff. now exists (policy_item_id h, v).
      + destruct (aggregate_invariant hits) as [_ E]. now destruct (E _ _ Iv). }
  unfold rank, slice_to.
  set (full := sorted_by_confidence (values (aggregate hits))).
  destruct (0 <=? top_k) eqn:E.
  - split; [now rewrite firstn_own_length|].
    apply Z.leb_le in E. rewrite length_firstn. lia.
  - split; [now rewrite firstn_own_length|].
    apply Z.leb_gt in E. rewrite length_firstn. lia.
Qed.

Lemma results_count_witness :
  exists results hits full,
    search_ai demo_libs demo_globals (lit "Vitamin C") (-1) = Ok results /\
    candidate_hits demo_libs demo_globals (lit "Vitamin C") = Ok hits /\
    search_ai demo_libs demo_globals (lit "Vitamin C") 10 = Ok full /\
    length hits = 4%nat /\ length full = 2%nat /\ length results = 1%nat /\
    results = firstn (length results) full.
Proof.
  eexists. eexists. eexists.
  split; [vm_compute; reflexivity|]. split; [vm_compute; reflexivity|].
  split; [vm_compute; reflexivity|].
  split; [reflexivity|]. split; [reflexivity|]. split; [reflexivity|].
  destruct (results_count demo_libs demo_globals (lit "Vitamin C") (-1) _ _
              ltac:(vm_compute; reflexivity) ltac:(vm_compute; reflexivity))
    as (full & F & _ & P & _).
  specialize (F 10 ltac:(vm_compute; discriminate)).
  match type of F with ?a = _ => assert (F' : a = Ok full) by exact F end.
  vm_compute in F. injection F as <-. exact P.
Defined.

(** ** Rounding and the order of the scores *)

Lemma round_half_even_mono (x y : Q) :
  (x <= y)%Q -> round_half_even x <= round_half_even y.
Proof.
  unfold Qle, round_half_even. destruct x as [a b], y as [c d]. cbn [Qnum Qden].
  intros H.
  pose proof (Z.div_mod a (Z.pos b) ltac:(lia)) as Da.
  pose proof (Z.mod_pos_bound a (Z.pos b) ltac:(lia)) as Ba.
  pose proof (Z.div_mod c (Z.pos d) ltac:(lia)) as Dc.
  pose proof (Z.mod_pos_bound c (Z.pos d) ltac:(lia)) as Bc.
  set (fa := a / Z.pos b) in *. set (ra := a mod Z.pos b) in *.
  set (fc := c / Z.pos d) in *. set (rc := c mod Z.pos d) in *.
  clearbody fa ra fc rc.
  assert (F : fa <= fc).
  { destruct (Z_le_gt_dec fa fc) as [|G]; [assumption | exfalso].
    assert (G1 : Z.pos b * Z.pos d * (fc + 1) <= Z.pos b * Z.pos d * fa)
      by (apply Z.mul_le_mono_nonneg_l; lia).
    assert (G2 : rc * Z.pos b < Z.pos d * Z.pos b)
      by (apply Z.mul_lt_mono_pos_r; lia).
    assert (G3 : 0 <= ra * Z.pos d) by (apply Z.mul_nonneg_nonneg; lia).
    subst a c. lia. }
  destruct (Z.eq_dec fa fc) as [E | N].
  - subst fc.
    assert (R : ra * Z.pos d <= rc * Z.pos b) by (subst a c; lia).
    destruct (Z.compare_spec (2 * ra) (Z.pos b)) as [A|A|A];
      destruct (Z.compare_spec (2 * rc) (Z.pos d)) as [C|C|C];
      destruct (Z.even fa); try lia; nia.
  - assert (fa + 1 <= fc) by lia.
    destruct (Z.compare_spec (2 * ra) (Z.pos b)) as [A|A|A];
      destruct (Z.compare_spec (2 * rc) (Z.pos d)) as [C|C|C];
      destruct (Z.even fa), (Z.even fc); lia.
Qed.

(** [round] keeps the order. *)
Lemma round_mono (x y : Q) (n : nat) : (x <= y)%Q -> (round x n <= round y n)%Q.
Proof.
  intros H. unfold round. apply same_den_le, round_half_even_mono.
  apply Qmult_le_compat_r; [exact H|].
  pose proof (pow10_pos n). unfold Qle, inject_Z. simpl. lia.
Qed.

(** X16.  The scores keep the order of what they are computed from: for two
    candidates of the same section, one of which has at least the raw
    similarity and at least the lexical score of the other, it also has at
    least the other's reported semantic score and confidence; the rounding
    and the section multiplier never invert two candidates. *)
Theorem confidence_monotone (L : libs) (q_norm : str) (r r' : row) (sem sem' : Q) :
  py_str (row_section r) = py_str (row_section r') ->
  (sem <= sem')%Q ->
  (lexical L q_norm (py_str (row_text r)) (py_str (row_canonical r)) <=
   lexical L q_norm (py_str (row_text r')) (py_str (row_canonical r')))%Q ->
  (semantic_score (make_hit L q_norm r sem) <=
   semantic_score (make_hit L q_norm r' sem'))%Q /\
  (lexical_score (make_hit L q_norm r sem) <=
   lexical_score (make_hit L q_norm r' sem'))%Q /\
  (confidence (make_hit L q_norm r sem) <=
   confidence (make_hit L q_norm r' sem'))%Q.
Proof.
  intros S Hs Hl. unfold make_hit. cbn [semantic_score lexical_score confidence].
  split; [now apply round_mono|]. split; [now apply round_mono|].
  apply round_mono. rewrite <- S.
  set (lex := lexical L q_norm (py_str (row_text r)) (py_str (row_canonical r))) in *.
  set (lex' := lexical L q_norm (py_str (row_text r')) (py_str (row_canonical r'))) in *.
  clearbody lex lex'.
  set (s := py_str (row_section r)) in *. clearbody s.
  destruct (final_score_values sem lex s)
    as [[A E] | [[A E] | (A & B & E)]];
    destruct (final_score_values sem' lex' s)
      as [[A' E'] | [[A' E'] | (A' & B' & E')]];
    try congruence;
    try (exfalso; rewrite A in A'; vm_compute in A'; discriminate);
    set (f := (final_score sem s lex * 100)%Q) in *;
    set (f' := (final_score sem' s lex' * 100)%Q) in *;
    clearbody f f'; lra.
Qed.

Lemma confidence_monotone_witness :
  let r := {| row_policy_item_id := Some (lit "1");
              row_text := Some (lit "Vitamin C");
              row_section := Some (lit "CANON_LAT");
              row_language := Some (lit "la");
              row_canonical := None |} in
  let q := lit "vitamin c" in
  py_str (row_section r) = py_str (row_section r) /\
  (1 # 2 <= 1)%Q /\
  (confidence (make_hit demo_libs q r (1 # 2)) <=
   confidence (make_hit demo_libs q r 1))%Q.
Proof.
  intros r q.
  assert (Hs : (1 # 2 <= 1)%Q) by (unfold Qle; simpl; lia).
  split; [reflexivity|]. split; [exact Hs|].
  exact (proj2 (proj2 (confidence_monotone demo_libs q r r (1 # 2) 1 eq_refl Hs
                         (Qle_refl _)))).
Defined.

(** ** The endpoint and the search function *)

(** X17.  For a query that is not blank the endpoint answers with what
    [search_ai] gives for the trimmed query: 200 with its results and their
    number, or 500 with its exception.  [top_k] is 10 when the request has
    none, the integer of the request as it is (a negative one too), 1 and 0
    for [true] and [false], and no limit for [null]; any other [top_k]
    (a float, a string, an array, an object) gives 500. *)
Theorem search_endpoint_calls_search_ai (L : libs) (g : globals) (s : str)
    (k : option json) :
  strip s <> [] ->
  let answer (r : result (list hit)) :=
    match r with
    | Ok results => Found (strip s) results (length results)
    | Raise e => Failed (Raised e)
    end in
  let endpoint := search_endpoint L g (Object (Some (JStr s)) k) in
  (k = None -> endpoint = answer (search_ai L g (strip s) 10)) /\
  (forall n, k = Some (JInt n) -> endpoint = answer (search_ai L g (strip s) n)) /\
  (forall b, k = Some (JBool b) ->
     endpoint = answer (search_ai L g (strip s) (if b then 1 else 0))) /\
  (k = Some JNull ->
   forall n, (forall hits, candidate_hits L g (strip s) = Ok hits ->
                Z.of_nat (length hits) <= n) ->
     endpoint = answer (search_ai L g (strip s) n)) /\
  (k <> None -> k <> Some JNull ->
   (forall n, k <> Some (JInt n)) -> (forall b, k <> Some (JBool b)) ->
   status_code endpoint = 500).
Proof.
  intros N answer endpoint. unfold endpoint, answer. cbn [search_endpoint get_member].
  destruct (is_empty (strip s)) eqn:E; [apply is_empty_iff in E; congruence|].
  unfold search_ai_with, search_ai, bind, rank.
  repeat split.
  - intros ->. cbn [get_member]. unfold TOP_K_DEFAULT.
    now destruct (candidate_hits L g (strip s)).
  - intros n ->. cbn [get_member]. now destruct (candidate_hits L g (strip s)).
  - intros b ->. cbn [get_member]. now destruct (candidate_hits L g (strip s)).
  - intros -> n B. cbn [get_member].
    destruct (candidate_hits L g (strip s)) as [hits|e]; [|reflexivity].
    fold (rank hits n). now rewrite (rank_enough hits n (B hits eq_refl)).
  - intros K1 K2 K3 K4.
    destruct k as [[|b|n|x|t| |]|]; try congruence;
      try (now destruct (K3 n)); try (now destruct (K4 b));
      cbn [get_member]; now destruct (candidate_hits L g (strip s)).
Qed.

Lemma search_endpoint_calls_search_ai_witness :
  strip (lit " Vitamin C ") <> [] /\
  exists results,
    search_ai demo_libs demo_globals (lit "Vitamin C") (-1) = Ok results /\
    length results = 1%nat /\
    search_endpoint demo_libs demo_globals
      (Object (Some (JStr (lit " Vitamin C "))) (Some (JInt (-1)))) =
    Found (lit "Vitamin C") results 1.
Proof.
  assert (N : strip (lit " Vitamin C ") <> []) by (vm_compute; discriminate).
  split; [exact N|]. eexists.
  split; [vm_compute; reflexivity|]. split; [reflexivity|].
  destruct (search_endpoint_calls_search_ai demo_libs demo_globals
              (lit " Vitamin C ") (Some (JInt (-1))) N) as (_ & I & _).
  rewrite (I (-1) eq_refl). vm_compute. reflexivity.
Defined.

(** ** A search that returns *)

Lemma for_each_Ok {A B : Type} (f : A -> result B) (l : list A) :
  (forall a, In a l -> exists b, f a = Ok b) ->
  exists bs, for_each f l = Ok bs.
Proof.
  induction l as [|a l IH]; simpl; intros H; [now exists []|].
  destruct (H a (or_introl eq_refl)) as [b ->].
  destruct IH as [bs ->]; [intros; apply H; now right|].
  now exists (b :: bs).
Qed.

Lemma argsort_positions (sort : list Q -> list nat) (sims : list Q) (k : nat) :
  argsort_sorts sort ->
  length (firstn k (rev (sort sims))) = Nat.min k (length sims) /\
  (forall i, In i (firstn k (rev (sort sims))) -> (i < length sims)%nat).
Proof.
  intros S. destruct (S sims) as [P _]. split.
  - rewrite length_firstn, length_rev, (Permutation_length P), length_seq.
    reflexivity.
  - intros i I. apply firstn_incl in I. apply in_rev in I.
    apply (Permutation_in _ P) in I. apply in_seq in I. lia.
Qed.

(** X18.  On a catalog that is not empty a search without index returns:
    when the globals are set, the lookup table has at least as many rows as
    there are embeddings, and [argsort] gives the positions of its argument,
    [search_ai] raises nothing, for any query and any [top_k], and scores
    [min(RECALL_K, len(lookup_df), len(embeddings))] candidates. *)
Theorem search_returns (L : libs) (g : globals) (query : str) (top_k : Z)
    (embs : list vec) (df : list row) :
  argsort_sorts (argsort L) ->
  faiss L = None \/ faiss_index g = None ->
  model g <> None ->
  embeddings g = Some embs ->
  lookup_df g = Some df ->
  embs <> [] ->
  (length embs <= length df)%nat ->
  exists hits,
    candidate_hits L g query = Ok hits /\
    length hits = Nat.min (Nat.min RECALL_K (length df)) (length embs) /\
    search_ai L g query top_k = Ok (rank hits top_k).
Proof.
  intros S F M E D N Le.
  assert (C : exists hits,
            candidate_hits L g query = Ok hits /\
            length hits = Nat.min (Nat.min RECALL_K (length df)) (length embs)).
  { unfold candidate_hits. rewrite E, D.
    destruct (model g); [|congruence].
    set (q_emb := encode L query).
    set (sims := map (cosine L q_emb) embs).
    set (k := Nat.min RECALL_K (length df)).
    set (idx := firstn k (rev (argsort L sims))).
    destruct (argsort_positions (argsort L) sims k S) as [Len In_idx].
    fold idx in Len, In_idx.
    assert (R : recall L (faiss_index g) q_emb embs df =
                Ok (combine (map Z.of_nat idx) (map (fun i => nth i sims 0%Q) idx))).
    { assert (B : recall_by_cosine L q_emb embs k =
                  Ok (combine (map Z.of_nat idx) (map (fun i => nth i sims 0%Q) idx))).
      { unfold recall_by_cosine, cosine_similarity, bind.
        destruct embs as [|e embs']; [congruence|].
        fold sims. fold idx. now rewrite (take_all sims idx In_idx). }
      unfold recall. fold k.
      destruct F as [-> | ->]; [exact B|].
      now destruct (faiss L). }
    unfold bind. rewrite R, combine_map_same.
    unfold score_candidates.
    destruct (for_each_Ok
                (fun c : Z * Q =>
                   bind (iloc df (fst c))
                     (fun r => Ok (make_hit L (normalize_query_lex (ucd L) (Str query))
                                     r (snd c))))
                (map (fun i => (Z.of_nat i, nth i sims 0%Q)) idx)) as [hits H].
    { intros c I. apply in_map_iff in I. destruct I as (i & <- & I).
      specialize (In_idx i I). unfold sims in In_idx. rewrite length_map in In_idx.
      unfold bind, iloc. cbn [fst snd].
      replace (Z.of_nat i <? 0) with false by (symmetry; apply Z.ltb_ge; lia).
      replace ((0 <=? Z.of_nat i) && (Z.of_nat i <? Z.of_nat (length df)))
        with true
        by (symmetry; apply andb_true_iff; split;
            [apply Z.leb_le | apply Z.ltb_lt]; lia).
      rewrite Nat2Z.id.
      destruct (nth_error df i) as [r|] eqn:Nt; [eauto|].
      apply nth_error_None in Nt. lia. }
    exists hits. split; [exact H|].
    rewrite (for_each_length _ _ _ H), length_map, Len.
    unfold sims. now rewrite length_map. }
  destruct C as (hits & C & Len). exists hits.
  split; [exact C|]. split; [exact Len|].
  unfold search_ai, bind. now rewrite C.
Qed.

Lemma search_returns_witness :
  argsort_sorts (argsort demo_libs) /\
  exists hits,
    candidate_hits demo_libs demo_globals (lit "Vitamin C") = Ok hits /\
    length hits = 4%nat /\
    search_ai demo_libs demo_globals (lit "Vitamin C") 1 = Ok (rank hits 1).
Proof.
  assert (S : argsort_sorts (argsort demo_libs)) by exact stable_argsort_sorts.
  split; [exact S|].
  destruct (search_returns demo_libs demo_globals (lit "Vitamin C") 1
              demo_embeddings demo_lookup S (or_introl eq_refl)
              ltac:(discriminate) eq_refl eq_refl ltac:(discriminate)
              ltac:(vm_compute; lia)) as (hits & C & Len & R).
  exists hits. split; [exact C|]. split; [exact Len | exact R].
Defined.
